(** * A shallow embedding of [rdb_parser.py] (class [RDBParser])

    The parser reads a Redis snapshot (RDB) file and builds a dictionary of
    the keys it finds.  The development follows the source top-down:

    - Python values the parser manipulates ([bytes], [str], [int], [float],
      exceptions) and the primitives of [struct];
    - the packed container decoders that work on an in-memory buffer
      ([parse_ziplist], [parse_listpack], the body of [read_set_intset]);
    - the cursor over the input file and the readers built on it
      ([read_length_with_encoding], [read_string], [read_value], ...);
    - the record loop of [parse], and the command line of [main];
    - a runtime and inputs for closed examples, and the on-disk layouts of
      the containers as the specification describes them, with layouts of
      the strings and records of the file;
    - the properties: the ziplist and listpack decoders never leave their
      buffer and keep what they decoded, the intset decoder on a buffer cut
      short, [parse] always returns after a valid header, what one
      value-type record does to the output and to the pending expiry, idle
      and freq, the scores of packed sorted sets, and the decoders on
      synthesised containers;
    - further properties: the length prefix and the string encodings, the
      decoders against the header counts, values read by type, what the
      loop may write to [self.data], and [parse] on a file made of opcodes
      and string records.

    Conventions.  Python [int] is [Z]; [bytes] is [list byte]; [str] is
    [string].  A Python exception is a value of [exn], and code that may
    raise returns a [pyresult].  Methods that read from [self.file] or update
    [self.data] are functions in the state monad [M] over the record
    [parser].  What the Python runtime decides ([decode], [float], the
    iteration order of a [set], [datetime], the optional [lzf] package) is a
    parameter, the class [PyBuiltins].  Output written to standard error is
    not modelled. *)

From Stdlib Require Import ZArith List String Ascii Lia Bool.
From Stdlib Require Import Strings.Byte DecimalString.
Import ListNotations.
Open Scope Z_scope.

(** ** Python values *)

(** The exception classes the parser can meet.  The handlers of the source
    only tell [EOFError] from the rest ([except EOFError] / [except
    Exception] / bare [except]). *)
Inductive exn_class : Type :=
| EOFError
| ValueError
| IndexError
| TypeError
| AttributeError
| StructError
| UnicodeDecodeError
| OverflowError.

Record exn : Type := Exn { exn_cls : exn_class; exn_msg : string }.

(** [str(e)] *)
Definition str_exn (e : exn) : string := exn_msg e.

Inductive pyresult (A : Type) : Type :=
| Ok (a : A)
| Raise (e : exn).
Arguments Ok {A} a.
Arguments Raise {A} e.

Definition bindR {A B} (m : pyresult A) (k : A -> pyresult B) : pyresult B :=
  match m with
  | Ok a => k a
  | Raise e => Raise e
  end.

Notation "x <~ m ;; k" := (bindR m (fun x => k))
  (at level 200, m at level 100, k at level 200, right associativity).

(** [try: m except: h] for code without side effects. *)
Definition try_except {A} (m : pyresult A) (h : exn -> A) : A :=
  match m with
  | Ok a => a
  | Raise e => h e
  end.

(** *** bytes *)

Definition u8 (b : byte) : Z := Z.of_N (Byte.to_N b).

Definition byte_of_Z (z : Z) : byte :=
  match Byte.of_N (Z.to_N (z mod 256)) with
  | Some b => b
  | None => x00
  end.

Definition bytes_of (zs : list Z) : list byte := map byte_of_Z zs.

(** [len(data)] *)
Definition len {A} (data : list A) : Z := Z.of_nat (List.length data).

(** [data[i]]: an index outside the buffer raises [IndexError]; a negative
    index counts from the end, as in Python. *)
Definition index (data : list byte) (i : Z) : pyresult Z :=
  let j := if i <? 0 then i + len data else i in
  if j <? 0 then Raise (Exn IndexError "index out of range")
  else match nth_error data (Z.to_nat j) with
       | Some b => Ok (u8 b)
       | None => Raise (Exn IndexError "index out of range")
       end.

(** [data[a:b]] for [0 <= a] and [0 <= b], the only slices the source
    takes: a slice never raises, it is cut at the end of the buffer. *)
Definition slice {A} (data : list A) (a b : Z) : list A :=
  firstn (Z.to_nat (b - a)) (skipn (Z.to_nat a) data).

(** [data[a:]] *)
Definition slice_from {A} (data : list A) (a : Z) : list A :=
  skipn (Z.to_nat a) data.

(** *** struct and int.from_bytes *)

(** Little-endian and big-endian unsigned value of a byte string. *)
Fixpoint le_uint (bs : list byte) : Z :=
  match bs with
  | [] => 0
  | b :: rest => u8 b + 256 * le_uint rest
  end.

Definition be_uint (bs : list byte) : Z := le_uint (rev bs).

(** Two's complement reading of an unsigned value on [bits] bits. *)
Definition to_signed (bits : Z) (v : Z) : Z :=
  if v <? 2 ^ (bits - 1) then v else v - 2 ^ bits.

(** [int.from_bytes(bs, byteorder='little', signed=...)] *)
Definition int_from_bytes_le (signed : bool) (bs : list byte) : Z :=
  if signed then to_signed (8 * len bs) (le_uint bs) else le_uint bs.

Definition struct_error (n : Z) : exn :=
  Exn StructError
      ("unpack requires a buffer of " ++ NilZero.string_of_int (Z.to_int n)
       ++ " bytes")%string.

(** [struct.unpack(fmt, bs)[0]] for the little-endian integer formats:
    the buffer must have exactly the size of the format. *)
Definition unpack_le (width : Z) (signed : bool) (bs : list byte) : pyresult Z :=
  if len bs =? width
  then Ok (if signed then to_signed (8 * width) (le_uint bs) else le_uint bs)
  else Raise (struct_error width).

Definition unpack_b := unpack_le 1 true.    (* 'b'  *)
Definition unpack_h := unpack_le 2 true.    (* '<h' *)
Definition unpack_H := unpack_le 2 false.   (* '<H' *)
Definition unpack_i := unpack_le 4 true.    (* '<i' *)
Definition unpack_I := unpack_le 4 false.   (* '<I' *)
Definition unpack_q := unpack_le 8 true.    (* '<q' *)
Definition unpack_Q := unpack_le 8 false.   (* '<Q' *)

(** [struct.pack('<h', v)] and [struct.pack('<i', v)] for a value in range. *)
Fixpoint le_bytes (width : nat) (v : Z) : list byte :=
  match width with
  | O => []
  | S w => byte_of_Z v :: le_bytes w (v / 256)
  end.

Definition pack_le (width : nat) (v : Z) : list byte :=
  le_bytes width (v mod 2 ^ (8 * Z.of_nat width)).

(** *** str *)

(** [str(n)] for an [int] *)
Definition str_of_Z (n : Z) : string := NilZero.string_of_int (Z.to_int n).

(** [s.startswith(p)] *)
Definition startswith (s p : string) : bool := String.prefix p s.

(** What the parser takes from the Python runtime and from the optional
    [lzf] package.  Their results are not decided by the source, so the
    embedding is parametric in them. *)
Class PyBuiltins : Type := {
  pyfloat : Type;
  (** [bs.decode('utf-8', errors='replace')] *)
  utf8_decode : list byte -> string;
  (** [len(s)] of a [str] *)
  str_len : string -> Z;
  (** [float(n)] of an [int] *)
  float_of_int : Z -> pyfloat;
  (** [float('-inf')], [float('inf')], [float('nan')] *)
  float_neg_inf : pyfloat;
  float_inf : pyfloat;
  float_nan : pyfloat;
  (** [float(bs.decode('ascii'))] *)
  float_of_ascii : list byte -> pyresult pyfloat;
  (** [struct.unpack('<d', bs)[0]] on 8 bytes *)
  unpack_d : list byte -> pyfloat;
  (** [import lzf]: [None] when the package is missing ([ImportError]),
      else its [decompress], which may raise or return [None]. *)
  lzf_module : option (list byte -> Z -> pyresult (option (list byte)));
  (** [list(set(xs))] *)
  list_of_set : list string -> list string;
  (** [datetime.fromtimestamp(ms / 1000).isoformat()] *)
  isoformat_of_ms : Z -> pyresult string;
  (** [repr(bs)], as an f-string prints a [bytes] value *)
  repr_bytes : list byte -> string;
}.

Section Decoder.

Context {builtins : PyBuiltins}.

(** ** Packed containers *)

(** An element of a ziplist or listpack: a [str] or an [int]. *)
Inductive elem : Type :=
| EStr (s : string)
| EInt (n : Z).

(** [str(e)] *)
Definition str_elem (e : elem) : string :=
  match e with
  | EStr s => s
  | EInt n => str_of_Z n
  end.

(** [result.append(value)] under [if value is not None] *)
Definition append_value (result : list elem) (value : option elem) : list elem :=
  match value with
  | Some v => result ++ [v]
  | None => result
  end.

(** *** ziplist *)

(** [parse_ziplist_entry(data)] from the comment [# Encoding byte] on:
    [offset] is the position after the previous-entry length. *)
Definition ziplist_entry_at (data : list byte) (offset : Z)
  : pyresult (option elem * Z) :=
  encoding <~ index data offset ;;
  let offset := offset + 1 in
  if Z.land encoding 0xC0 =? 0x00 then
    (* 6-bit length *)
    let length := Z.land encoding 0x3F in
    if offset + length >? len data then Ok (None, 0) else
    let value := utf8_decode (slice data offset (offset + length)) in
    Ok (Some (EStr value), offset + length)
  else if Z.land encoding 0xC0 =? 0x40 then
    (* 14-bit length *)
    if offset >=? len data then Ok (None, 0) else
    low <~ index data offset ;;
    let length := Z.lor (Z.shiftl (Z.land encoding 0x3F) 8) low in
    let offset := offset + 1 in
    if offset + length >? len data then Ok (None, 0) else
    let value := utf8_decode (slice data offset (offset + length)) in
    Ok (Some (EStr value), offset + length)
  else if Z.land encoding 0xC0 =? 0x80 then
    (* 32-bit length *)
    if offset + 4 >? len data then Ok (None, 0) else
    length <~ unpack_I (slice data offset (offset + 4)) ;;
    let offset := offset + 4 in
    if offset + length >? len data then Ok (None, 0) else
    let value := utf8_decode (slice data offset (offset + length)) in
    Ok (Some (EStr value), offset + length)
  else if encoding =? 0xC0 then
    (* 16-bit integer *)
    if offset + 2 >? len data then Ok (None, 0) else
    value <~ unpack_h (slice data offset (offset + 2)) ;;
    Ok (Some (EInt value), offset + 2)
  else if encoding =? 0xD0 then
    (* 32-bit integer *)
    if offset + 4 >? len data then Ok (None, 0) else
    value <~ unpack_i (slice data offset (offset + 4)) ;;
    Ok (Some (EInt value), offset + 4)
  else if encoding =? 0xE0 then
    (* 64-bit integer *)
    if offset + 8 >? len data then Ok (None, 0) else
    value <~ unpack_q (slice data offset (offset + 8)) ;;
    Ok (Some (EInt value), offset + 8)
  else if encoding =? 0xF0 then
    (* 24-bit integer *)
    if offset + 3 >? len data then Ok (None, 0) else
    let value_bytes := slice data offset (offset + 3) in
    let value := int_from_bytes_le true value_bytes in
    Ok (Some (EInt value), offset + 3)
  else if encoding =? 0xFE then
    (* 8-bit integer *)
    if offset + 1 >? len data then Ok (None, 0) else
    value <~ unpack_b (slice data offset (offset + 1)) ;;
    Ok (Some (EInt value), offset + 1)
  else if Z.land encoding 0xF0 =? 0xF0 then
    (* 4-bit immediate integer *)
    let value := Z.land encoding 0x0F - 1 in
    Ok (Some (EInt value), offset)
  else
    (* unknown encoding *)
    Ok (None, 1).

(** [parse_ziplist_entry(data)]: the pair [(value, bytes_read)], where
    [value] may be [None]. *)
Definition parse_ziplist_entry (data : list byte) : pyresult (option elem * Z) :=
  if len data <? 2 then Ok (None, 0) else
  prevlen <~ index data 0 ;;
  if (prevlen =? 0xFE) && (len data <? 5) then Ok (None, 0) else
  hdr <~ (if prevlen =? 0xFE
          then (p <~ unpack_I (slice data 1 5) ;; Ok (p, 5))
          else Ok (prevlen, 1)) ;;
  let offset := snd hdr in
  if offset >=? len data then Ok (None, 0) else
  ziplist_entry_at data offset.

(** The body of [for i in range(count)] in [parse_ziplist], after [count]
    iterations are still to run; [pos] and [result] are the loop's
    variables.  An exception of the entry parser leaves the loop. *)
Fixpoint parse_ziplist_loop (count : nat) (data : list byte) (pos : Z)
         (result : list elem) : pyresult (list elem) :=
  match count with
  | O => Ok result
  | S count' =>
      if pos >=? len data - 1 then Ok result else
      marker <~ index data pos ;;
      if marker =? 0xFF then Ok result else
      match parse_ziplist_entry (slice_from data pos) with
      | Ok (value, bytes_read) =>
          let result := append_value result value in
          let pos := pos + bytes_read in
          if bytes_read =? 0 then Ok result
          else parse_ziplist_loop count' data pos result
      | Raise _ => Ok result
      end
  end.

Definition parse_ziplist (data : list byte) : pyresult (list elem) :=
  if len data <? 10 then Ok [] else
  zlbytes <~ unpack_I (slice data 0 4) ;;
  zltail <~ unpack_I (slice data 4 8) ;;
  zllen <~ unpack_H (slice data 8 10) ;;
  let count := if zllen <? 65535 then zllen else 999999 in
  parse_ziplist_loop (Z.to_nat count) data 10 [].

(** *** listpack *)

Definition parse_listpack_entry (data : list byte) : pyresult (option elem * Z) :=
  if len data <? 2 then Ok (None, 0) else
  byte <~ index data 0 ;;
  if byte <=? 0x7F then
    (* 7-bit small string *)
    let length := Z.land byte 0x7F in
    if length =? 0 then
      if len data <? 2 then Ok (None, 0) else
      backlen <~ index data 1 ;;
      Ok (Some (EStr ""), 2)
    else
    if len data <? 1 + length + 1 then Ok (None, 0) else
    let value := utf8_decode (slice data 1 (1 + length)) in
    backlen <~ index data (1 + length) ;;
    let total_size := 1 + length + 1 in
    Ok (Some (EStr value), total_size)
  else if Z.land byte 0xE0 =? 0xC0 then
    (* 6-bit integer *)
    let value := Z.land byte 0x1F in
    if len data <? 2 then Ok (None, 0) else
    backlen <~ index data 1 ;;
    Ok (Some (EInt value), 2)
  else if Z.land byte 0xF0 =? 0xE0 then
    (* 13-bit integer *)
    if len data <? 3 then Ok (None, 0) else
    low <~ index data 1 ;;
    let value := Z.lor (Z.shiftl (Z.land byte 0x0F) 8) low in
    let value := if negb (Z.land value 0x800 =? 0) then value - 0x1000 else value in
    backlen <~ index data 2 ;;
    Ok (Some (EInt value), 3)
  else if Z.land byte 0xC0 =? 0x80 then
    (* 12-bit string *)
    if len data <? 2 then Ok (None, 0) else
    low <~ index data 1 ;;
    let length := Z.lor (Z.shiftl (Z.land byte 0x3F) 8) low in
    if len data <? 2 + length + 1 then Ok (None, 0) else
    let value := utf8_decode (slice data 2 (2 + length)) in
    backlen <~ index data (2 + length) ;;
    let total_size := 2 + length + 1 in
    Ok (Some (EStr value), total_size)
  else if Z.land byte 0xF0 =? 0xF0 then
    let enc := Z.land byte 0x0F in
    if enc =? 0x01 then
      (* 16-bit integer *)
      if len data <? 4 then Ok (None, 0) else
      value <~ unpack_h (slice data 1 3) ;;
      backlen <~ index data 3 ;;
      Ok (Some (EInt value), 4)
    else if enc =? 0x02 then
      (* 24-bit integer *)
      if len data <? 5 then Ok (None, 0) else
      let value_bytes := slice data 1 4 in
      let value := int_from_bytes_le false value_bytes in
      let value := if negb (Z.land value 0x800000 =? 0) then value - 0x1000000 else value in
      backlen <~ index data 4 ;;
      Ok (Some (EInt value), 5)
    else if enc =? 0x03 then
      (* 32-bit integer *)
      if len data <? 6 then Ok (None, 0) else
      value <~ unpack_i (slice data 1 5) ;;
      backlen <~ index data 5 ;;
      Ok (Some (EInt value), 6)
    else if enc =? 0x04 then
      (* 64-bit integer *)
      if len data <? 10 then Ok (None, 0) else
      value <~ unpack_q (slice data 1 9) ;;
      backlen <~ index data 9 ;;
      Ok (Some (EInt value), 10)
    else if enc =? 0x00 then
      (* 32-bit string length *)
      if len data <? 5 then Ok (None, 0) else
      length <~ unpack_I (slice data 1 5) ;;
      if len data <? 5 + length + 1 then Ok (None, 0) else
      let value := utf8_decode (slice data 5 (5 + length)) in
      backlen <~ index data (5 + length) ;;
      let total_size := 5 + length + 1 in
      Ok (Some (EStr value), total_size)
    else
      Ok (None, 1)
  else
    Ok (None, 1).

Fixpoint parse_listpack_loop (count : nat) (data : list byte) (pos : Z)
         (result : list elem) : pyresult (list elem) :=
  match count with
  | O => Ok result
  | S count' =>
      if pos >=? len data - 1 then Ok result else
      match parse_listpack_entry (slice_from data pos) with
      | Ok (value, bytes_read) =>
          let result := append_value result value in
          let pos := pos + bytes_read in
          if bytes_read =? 0 then Ok result
          else parse_listpack_loop count' data pos result
      | Raise _ => Ok result
      end
  end.

Definition parse_listpack (data : list byte) : pyresult (list elem) :=
  if len data <? 7 then Ok [] else
  total_bytes <~ unpack_I (slice data 0 4) ;;
  num_elements <~ unpack_H (slice data 4 6) ;;
  parse_listpack_loop (Z.to_nat num_elements) data 6 [].

(** *** intset *)

(** [[2, 4, 8][encoding]] for [0 <= encoding < 3] *)
Definition intset_size_table (encoding : Z) : Z :=
  nth (Z.to_nat encoding) [2; 4; 8] 0.

(** The body of [for _ in range(min(length, 1000))] in [read_set_intset]. *)
Fixpoint intset_loop (count : nat) (intset_bytes : list byte) (encoding size pos : Z)
         (result : list string) : pyresult (list string) :=
  match count with
  | O => Ok result
  | S count' =>
      if pos + size >? len intset_bytes then Ok result else
      if encoding =? 2 then
        val <~ unpack_h (slice intset_bytes pos (pos + 2)) ;;
        intset_loop count' intset_bytes encoding size (pos + size) (result ++ [str_of_Z val])
      else if encoding =? 4 then
        val <~ unpack_i (slice intset_bytes pos (pos + 4)) ;;
        intset_loop count' intset_bytes encoding size (pos + size) (result ++ [str_of_Z val])
      else if encoding =? 8 then
        val <~ unpack_q (slice intset_bytes pos (pos + 8)) ;;
        intset_loop count' intset_bytes encoding size (pos + size) (result ++ [str_of_Z val])
      else Ok result
  end.

(** [read_set_intset] from the line after [intset_bytes =
    self.read_string_raw()]: the decoder applied to the buffer. *)
Definition parse_intset (intset_bytes : list byte) : list string :=
  if len intset_bytes <? 8 then [] else
  try_except
    (encoding <~ unpack_I (slice intset_bytes 0 4) ;;
     length <~ unpack_I (slice intset_bytes 4 8) ;;
     let size := if encoding <? 3 then intset_size_table encoding else 4 in
     intset_loop (Z.to_nat (Z.min length 1000)) intset_bytes encoding size 8 [])
    (fun _ => []).

(** ** Decoded values and the parser object *)

(** A Python [dict] with [str] keys, in insertion order. *)
Definition dict (V : Type) : Type := list (string * V).

(** [d[k] = v]: an existing key keeps its place and takes the new value, a
    new key goes to the end. *)
Fixpoint dict_set {V} (d : dict V) (k : string) (v : V) : dict V :=
  match d with
  | [] => [(k, v)]
  | (k', v') :: rest =>
      if String.eqb k' k then (k', v) :: rest else (k', v') :: dict_set rest k v
  end.

(** [d.get(k)] *)
Fixpoint dict_get {V} (d : dict V) (k : string) : option V :=
  match d with
  | [] => None
  | (k', v') :: rest => if String.eqb k' k then Some v' else dict_get rest k
  end.

(** A sorted-set score: [float(n)] of an inline integer, a decoded double,
    or the [int] literal [0] of the source. *)
Inductive score_value : Type :=
| SFloat (f : pyfloat)
| SInt (n : Z).

(** [{"member": member, "score": score}] *)
Record zset_item : Type := ZsetItem { member : string; score : score_value }.

(** What [read_value] returns. *)
Inductive value : Type :=
| VStr (s : string)
| VList (l : list elem)
| VZset (l : list zset_item)
| VHash (h : dict string).

(** An entry of [self.data]: the bare value in simple format, and in full
    format either the record built after a successful read or the error
    record.  A field that the source does not set is [None]. *)
Record full_entry : Type := FullEntry {
  entry_value : value;
  entry_type : string;
  entry_expiry_ms : option Z;
  entry_expiry_date : option string;
  entry_idle : option Z;
  entry_freq : option Z;
}.

Inductive entry : Type :=
| ESimple (v : value)
| EFull (e : full_entry)
| EError (error : string) (type : string).

(** The attributes of [RDBParser]; [self_file] is what is left to read of
    the open file. *)
Record parser : Type := Parser {
  self_file : list byte;
  self_data : dict entry;
  self_aux_data : dict string;
  self_current_db : Z;
  self_simple_format : bool;
}.

Definition set_file (s : parser) (f : list byte) : parser :=
  Parser f (self_data s) (self_aux_data s) (self_current_db s) (self_simple_format s).

Definition set_data (s : parser) (d : dict entry) : parser :=
  Parser (self_file s) d (self_aux_data s) (self_current_db s) (self_simple_format s).

Definition set_aux_data (s : parser) (a : dict string) : parser :=
  Parser (self_file s) (self_data s) a (self_current_db s) (self_simple_format s).

Definition set_current_db (s : parser) (db : Z) : parser :=
  Parser (self_file s) (self_data s) (self_aux_data s) db (self_simple_format s).

(** ** The monad of the methods *)

Definition M (A : Type) : Type := parser -> pyresult A * parser.

Definition ret {A} (a : A) : M A := fun s => (Ok a, s).

Definition raise {A} (e : exn) : M A := fun s => (Raise e, s).

Definition bind {A B} (m : M A) (k : A -> M B) : M B :=
  fun s =>
    match m s with
    | (Ok a, s') => k a s'
    | (Raise e, s') => (Raise e, s')
    end.

Notation "x <- m ;; k" := (bind m (fun x => k))
  (at level 200, m at level 100, k at level 200, right associativity).

(** A computation without effect on the parser. *)
Definition lift {A} (r : pyresult A) : M A := fun s => (r, s).

(** [try: m except Exception as e: h e]; what [m] has read stays read. *)
Definition try_catch {A} (m : M A) (h : exn -> M A) : M A :=
  fun s =>
    match m s with
    | (Ok a, s') => (Ok a, s')
    | (Raise e, s') => h e s'
    end.

Definition modify (f : parser -> parser) : M unit := fun s => (Ok tt, f s).

Definition get_simple_format : M bool := fun s => (Ok (self_simple_format s), s).

(** [for _ in range(n)] collecting the results of [m]. *)
Fixpoint repeatM {A} (n : nat) (m : M A) : M (list A) :=
  match n with
  | O => ret []
  | S n' => x <- m ;; xs <- repeatM n' m ;; ret (x :: xs)
  end.

(** A relation between the parser before and after a call holds across
    the method [m]. *)
Definition preserves {A} (R : parser -> parser -> Prop) (m : M A) : Prop :=
  forall s r s', m s = (r, s') -> R s s'.

(** The file only moves forward. *)
Definition file_forward (s s' : parser) : Prop :=
  exists n, self_file s' = skipn n (self_file s).

(** Only the file changes, and it moves forward. *)
Definition only_reads (s s' : parser) : Prop :=
  exists n, s' = set_file s (skipn n (self_file s)).

(** ** Primitive reads *)

(** [self.file.read(1)] and the check for end of file. *)
Definition read_byte : M Z :=
  fun s =>
    match self_file s with
    | [] => (Raise (Exn EOFError "Unexpected end of file"), s)
    | b :: rest => (Ok (u8 b), set_file s rest)
    end.

(** [self.file.read(n)] returns the next [n] bytes, or all that is left when
    less than [n] bytes are left; in both cases they are consumed.  A count
    of 2^63 or more does not fit the size type of [read], which raises
    [OverflowError] before it reads anything.  (Below 2^63, a count so large
    that the runtime cannot allocate the buffer makes [read] raise as well;
    that failure depends on the machine and is not modelled.) *)
Definition read_bytes (n : Z) : M (list byte) :=
  fun s =>
    if n >=? 2 ^ 63 then
      (Raise (Exn OverflowError "cannot fit 'int' into an index-sized integer"), s)
    else
    let data := firstn (Z.to_nat n) (self_file s) in
    let s' := set_file s (skipn (Z.to_nat n) (self_file s)) in
    if len data =? n then (Ok data, s')
    else (Raise (Exn EOFError ("Expected " ++ str_of_Z n ++ " bytes, got "
                               ++ str_of_Z (len data))%string), s').

Definition read_signed_byte : M Z := bs <- read_bytes 1 ;; lift (unpack_b bs).
Definition read_signed_short : M Z := bs <- read_bytes 2 ;; lift (unpack_h bs).
Definition read_signed_int : M Z := bs <- read_bytes 4 ;; lift (unpack_i bs).
Definition read_unsigned_int : M Z := bs <- read_bytes 4 ;; lift (unpack_I bs).
Definition read_unsigned_long : M Z := bs <- read_bytes 8 ;; lift (unpack_Q bs).

(** ** Constants of the class *)

Definition OPCODE_IDLE := 0xF8.
Definition OPCODE_FREQ := 0xF9.
Definition OPCODE_AUX := 0xFA.
Definition OPCODE_RESIZEDB := 0xFB.
Definition OPCODE_EXPIRETIME_MS := 0xFC.
Definition OPCODE_EXPIRETIME := 0xFD.
Definition OPCODE_SELECTDB := 0xFE.
Definition OPCODE_EOF := 0xFF.

Definition TYPE_STRING := 0.
Definition TYPE_LIST := 1.
Definition TYPE_SET := 2.
Definition TYPE_ZSET := 3.
Definition TYPE_HASH := 4.
Definition TYPE_ZSET_2 := 5.
Definition TYPE_MODULE := 6.
Definition TYPE_MODULE_2 := 7.
Definition TYPE_HASH_ZIPMAP := 9.
Definition TYPE_LIST_ZIPLIST := 10.
Definition TYPE_SET_INTSET := 11.
Definition TYPE_ZSET_ZIPLIST := 12.
Definition TYPE_HASH_ZIPLIST := 13.
Definition TYPE_LIST_QUICKLIST := 14.
Definition TYPE_STREAM_LISTPACKS := 15.
Definition TYPE_HASH_LISTPACK := 16.
Definition TYPE_ZSET_LISTPACK := 17.
Definition TYPE_LIST_QUICKLIST_2 := 18.
Definition TYPE_STREAM_LISTPACKS_2 := 19.
Definition TYPE_SET_LISTPACK := 20.
Definition TYPE_STREAM_LISTPACKS_3 := 21.

Definition RDB_6BITLEN := 0.
Definition RDB_14BITLEN := 1.
Definition RDB_32BITLEN := 0x80.
Definition RDB_64BITLEN := 0x81.
Definition RDB_ENCVAL := 3.

Definition RDB_ENC_INT8 := 0.
Definition RDB_ENC_INT16 := 1.
Definition RDB_ENC_INT32 := 2.
Definition RDB_ENC_LZF := 3.

(** ** Lengths and strings *)

(** The triple [(length, is_encoded, encoding)] of
    [read_length_with_encoding] is always [(n, False, None)] or
    [(None, True, enc)]: one constructor for each. *)
Inductive length_enc : Type :=
| Length (length : Z)
| Encoded (encoding : Z).

Definition read_length_with_encoding : M length_enc :=
  byte <- read_byte ;;
  let enc_type := Z.shiftr (Z.land byte 0xC0) 6 in
  if enc_type =? RDB_ENCVAL then
    let encoding := Z.land byte 0x3F in
    ret (Encoded encoding)
  else if enc_type =? RDB_6BITLEN then
    ret (Length (Z.land byte 0x3F))
  else if enc_type =? RDB_14BITLEN then
    next_byte <- read_byte ;;
    ret (Length (Z.lor (Z.shiftl (Z.land byte 0x3F) 8) next_byte))
  else if enc_type =? 2 then
    let remaining := Z.land byte 0x3F in
    if remaining =? 0 then
      n <- read_unsigned_int ;; ret (Length n)
    else if remaining =? 1 then
      n <- read_unsigned_long ;; ret (Length n)
    else
      n <- read_unsigned_int ;; ret (Length n)
  else
    raise (Exn ValueError ("Unknown length encoding: " ++ str_of_Z byte)%string).

Definition read_length : M Z :=
  le <- read_length_with_encoding ;;
  match le with
  | Encoded _ => raise (Exn ValueError "Unexpected encoded value in length")
  | Length length => ret length
  end.

(** [lzf_decompress(data, expected_length)]: without the [lzf] package the
    placeholder, else what [lzf.decompress] does. *)
Definition lzf_decompress (data : list byte) (expected_length : Z)
  : pyresult (option (list byte)) :=
  match lzf_module with
  | Some decompress => decompress data expected_length
  | None =>
      Ok (Some (list_byte_of_string
                  "<LZF compressed data - install python-lzf to decompress>"))
  end.

(** [read_string].  [decode] with [errors='replace'] does not raise, so the
    fallbacks to [hex()] and ["<binary_data>"] are never taken. *)
Definition read_string : M string :=
  le <- read_length_with_encoding ;;
  match le with
  | Encoded encoding =>
      if encoding =? RDB_ENC_INT8 then
        v <- read_signed_byte ;; ret (str_of_Z v)
      else if encoding =? RDB_ENC_INT16 then
        v <- read_signed_short ;; ret (str_of_Z v)
      else if encoding =? RDB_ENC_INT32 then
        v <- read_signed_int ;; ret (str_of_Z v)
      else if encoding =? RDB_ENC_LZF then
        compressed_len <- read_length ;;
        uncompressed_len <- read_length ;;
        compressed_data <- read_bytes compressed_len ;;
        ret (match lzf_decompress compressed_data uncompressed_len with
             | Ok (Some uncompressed) => utf8_decode uncompressed
             | Ok None (* [None.decode] raises *)
             | Raise _ =>
                 ("<compressed:" ++ str_of_Z compressed_len ++ " bytes>")%string
             end)
      else
        ret ("<parse_error_enc:" ++ str_of_Z encoding ++ ">")%string
  | Length length =>
      if length =? 0 then ret ""%string
      else if (length <? 0) || (length >? 1024 * 1024 * 100) then
        ret ("<invalid_length:" ++ str_of_Z length ++ ">")%string
      else
        data <- read_bytes length ;;
        ret (utf8_decode data)
  end.

(** [read_string_raw]: a [bytes] value, or [None] when [lzf.decompress]
    returned [None]. *)
Definition read_string_raw : M (option (list byte)) :=
  le <- read_length_with_encoding ;;
  match le with
  | Encoded encoding =>
      if encoding =? RDB_ENC_INT8 then
        v <- read_signed_byte ;; ret (Some [byte_of_Z (Z.land v 0xFF)])
      else if encoding =? RDB_ENC_INT16 then
        v <- read_signed_short ;; ret (Some (pack_le 2 v))
      else if encoding =? RDB_ENC_INT32 then
        v <- read_signed_int ;; ret (Some (pack_le 4 v))
      else if encoding =? RDB_ENC_LZF then
        compressed_len <- read_length ;;
        uncompressed_len <- read_length ;;
        compressed_data <- read_bytes compressed_len ;;
        ret (match lzf_decompress compressed_data uncompressed_len with
             | Ok uncompressed => uncompressed
             | Raise _ => Some compressed_data
             end)
      else
        ret (Some [])
  | Length length =>
      if length =? 0 then ret (Some [])
      else data <- read_bytes length ;; ret (Some data)
  end.

(** [read_double] *)
Definition read_double : M pyfloat :=
  length <- read_byte ;;
  if length =? 255 then ret float_neg_inf
  else if length =? 254 then ret float_inf
  else if length =? 253 then ret float_nan
  else
    data <- read_bytes length ;;
    lift (float_of_ascii data).

(** ** Readers of the packed containers *)

(** [len(None)] *)
Definition none_has_no_len : exn :=
  Exn TypeError "object of type 'NoneType' has no len()".

(** A buffer decoder applied to what [read_string_raw] returned: the
    decoders start with [len(data)], which raises on [None]. *)
Definition on_buffer {A} (decoder : list byte -> pyresult A)
           (raw : option (list byte)) : pyresult A :=
  match raw with
  | Some data => decoder data
  | None => Raise none_has_no_len
  end.

(** The indices [range(0, n, 2)]. *)
Definition range_step2 (n : nat) : list nat :=
  map (fun k => (2 * k)%nat) (seq 0 (Nat.div2 (n + 1))).

(** The score of a sorted-set pair:
    [float(x) if isinstance(x, (int, float)) else 0]. *)
Definition score_of_elem (x : elem) : score_value :=
  match x with
  | EInt n => SFloat (float_of_int n)
  | EStr _ => SInt 0
  end.

(** The loop of [read_zset_ziplist] and [read_zset_listpack]:
    [for i in range(0, len(entries), 2): if i + 1 < len(entries): ...]. *)
Definition zset_of_entries (entries : list elem) : list zset_item :=
  flat_map
    (fun i =>
       if (i + 1 <? List.length entries)%nat then
         match nth_error entries i, nth_error entries (i + 1) with
         | Some m, Some x => [ZsetItem (str_elem m) (score_of_elem x)]
         | _, _ => []
         end
       else [])
    (range_step2 (List.length entries)).

(** The loop of [read_hash_ziplist] and [read_hash_listpack]. *)
Definition hash_of_entries (entries : list elem) : dict string :=
  fold_left
    (fun hash_data i =>
       if (i + 1 <? List.length entries)%nat then
         match nth_error entries i, nth_error entries (i + 1) with
         | Some k, Some v => dict_set hash_data (str_elem k) (str_elem v)
         | _, _ => hash_data
         end
       else hash_data)
    (range_step2 (List.length entries)) [].

Definition read_list_ziplist : M (list elem) :=
  ziplist_bytes <- read_string_raw ;;
  ret (try_except (on_buffer parse_ziplist ziplist_bytes) (fun _ => [])).

(** [len(intset_bytes)] is outside the [try]: on [None] it raises. *)
Definition read_set_intset : M (list string) :=
  intset_bytes <- read_string_raw ;;
  lift (on_buffer (fun data => Ok (parse_intset data)) intset_bytes).

Definition read_zset_ziplist : M (list zset_item) :=
  ziplist_bytes <- read_string_raw ;;
  ret (try_except
         (entries <~ on_buffer parse_ziplist ziplist_bytes ;;
          Ok (zset_of_entries entries))
         (fun _ => [])).

Definition read_hash_ziplist : M (dict string) :=
  ziplist_bytes <- read_string_raw ;;
  ret (try_except
         (entries <~ on_buffer parse_ziplist ziplist_bytes ;;
          Ok (hash_of_entries entries))
         (fun _ => [])).

(** [read_listpack]: the handler prints [len(listpack_bytes)], so on [None]
    the handler raises in turn. *)
Definition read_listpack : M (list elem) :=
  listpack_bytes <- read_string_raw ;;
  match listpack_bytes with
  | Some data => ret (try_except (parse_listpack data) (fun _ => []))
  | None => raise none_has_no_len
  end.

(** [read_listpack] returns a list, never a [str]: the branches under
    [isinstance(entries, str)] of the three readers below are not taken. *)
Definition read_hash_listpack : M (dict string) :=
  entries <- read_listpack ;;
  ret (hash_of_entries entries).

Definition read_zset_listpack : M (list zset_item) :=
  entries <- read_listpack ;;
  ret (zset_of_entries entries).

Definition read_set_listpack : M (list string) :=
  entries <- read_listpack ;;
  ret (map str_elem entries).

Definition read_quicklist : M (list elem) :=
  size <- read_length ;;
  segments <- repeatM (Z.to_nat size)
                (ziplist_bytes <- read_string_raw ;;
                 ret (try_except (on_buffer parse_ziplist ziplist_bytes)
                                 (fun _ => []))) ;;
  ret (List.concat segments).

Definition read_stream : M string :=
  num_elements <- read_length ;;
  ret ("<stream with " ++ str_of_Z num_elements ++ " elements>")%string.

(** ** Values *)

Definition read_value (value_type : Z) : M value :=
  if value_type =? TYPE_STRING then
    s <- read_string ;; ret (VStr s)
  else if value_type =? TYPE_LIST then
    size <- read_length ;;
    l <- repeatM (Z.to_nat size) read_string ;;
    ret (VList (map EStr l))
  else if value_type =? TYPE_SET then
    size <- read_length ;;
    l <- repeatM (Z.to_nat size) read_string ;;
    ret (VList (map EStr (list_of_set l)))
  else if (value_type =? TYPE_ZSET) || (value_type =? TYPE_ZSET_2) then
    size <- read_length ;;
    zset_data <- repeatM (Z.to_nat size)
                   (member <- read_string ;;
                    score <- (if value_type =? TYPE_ZSET then read_double
                              else bs <- read_bytes 8 ;; ret (unpack_d bs)) ;;
                    ret (ZsetItem member (SFloat score))) ;;
    ret (VZset zset_data)
  else if value_type =? TYPE_HASH then
    size <- read_length ;;
    pairs <- repeatM (Z.to_nat size)
               (key <- read_string ;; value <- read_string ;; ret (key, value)) ;;
    ret (VHash (fold_left (fun hash_data kv => dict_set hash_data (fst kv) (snd kv))
                          pairs []))
  else if value_type =? TYPE_HASH_ZIPMAP then
    zipmap <- read_string ;;
    ret (VHash [(("<zipmap:" ++ str_of_Z (str_len zipmap) ++ " bytes>")%string,
                 ""%string)])
  else if value_type =? TYPE_LIST_ZIPLIST then
    l <- read_list_ziplist ;; ret (VList l)
  else if value_type =? TYPE_SET_INTSET then
    l <- read_set_intset ;; ret (VList (map EStr l))
  else if value_type =? TYPE_ZSET_ZIPLIST then
    z <- read_zset_ziplist ;; ret (VZset z)
  else if value_type =? TYPE_HASH_ZIPLIST then
    h <- read_hash_ziplist ;; ret (VHash h)
  else if (value_type =? TYPE_LIST_QUICKLIST) || (value_type =? TYPE_LIST_QUICKLIST_2) then
    l <- read_quicklist ;; ret (VList l)
  else if (value_type =? TYPE_HASH_LISTPACK) || (value_type =? TYPE_ZSET_LISTPACK)
          || (value_type =? TYPE_SET_LISTPACK) then
    if value_type =? TYPE_HASH_LISTPACK then
      h <- read_hash_listpack ;; ret (VHash h)
    else if value_type =? TYPE_ZSET_LISTPACK then
      z <- read_zset_listpack ;; ret (VZset z)
    else
      l <- read_set_listpack ;; ret (VList (map EStr l))
  else if (value_type =? TYPE_STREAM_LISTPACKS) || (value_type =? TYPE_STREAM_LISTPACKS_2)
          || (value_type =? TYPE_STREAM_LISTPACKS_3) then
    s <- read_stream ;; ret (VStr s)
  else
    try_catch (s <- read_string ;; ret (VStr s))
              (fun _ => ret (VStr ("<unknown type " ++ str_of_Z value_type ++ ">")%string)).

(** The dictionary [type_names] of [get_type_name]. *)
Definition type_names : list (Z * string) :=
  [ (TYPE_STRING, "string"); (TYPE_LIST, "list"); (TYPE_SET, "set");
    (TYPE_ZSET, "zset"); (TYPE_ZSET_2, "zset"); (TYPE_HASH, "hash");
    (TYPE_HASH_ZIPMAP, "hash"); (TYPE_LIST_ZIPLIST, "list");
    (TYPE_SET_INTSET, "set"); (TYPE_ZSET_ZIPLIST, "zset");
    (TYPE_HASH_ZIPLIST, "hash"); (TYPE_LIST_QUICKLIST, "list");
    (TYPE_LIST_QUICKLIST_2, "list"); (TYPE_HASH_LISTPACK, "hash");
    (TYPE_ZSET_LISTPACK, "zset"); (TYPE_SET_LISTPACK, "set");
    (TYPE_STREAM_LISTPACKS, "stream"); (TYPE_STREAM_LISTPACKS_2, "stream");
    (TYPE_STREAM_LISTPACKS_3, "stream") ]%string.

Definition get_type_name (value_type : Z) : string :=
  match find (fun kv => fst kv =? value_type) type_names with
  | Some kv => snd kv
  | None => ("unknown_type_" ++ str_of_Z value_type)%string
  end.

(** ** The record loop of [parse] *)

(** The locals [expiry], [idle] and [freq] of [parse]; [None] is unset. *)
Record pending : Type := Pending {
  expiry : option Z;
  idle : option Z;
  freq : option Z;
}.

Definition no_pending : pending := Pending None None None.

(** How an iteration of [while True] ends: the loop goes on with the
    locals as they are now, or it is left by [break]. *)
Inductive control : Type :=
| Continue (pd : pending)
| Break.

(** [not key or key.startswith('<unknown') or key.startswith('<binary') or
    key.startswith('<parse_error') or key.startswith('<invalid')] *)
Definition invalid_key (key : string) : bool :=
  String.eqb key "" || startswith key "<unknown" || startswith key "<binary"
  || startswith key "<parse_error" || startswith key "<invalid".

(** The full-format entry: [if expiry:] is false for [None] and for [0]. *)
Definition build_entry (value_ : value) (value_type : Z) (pd : pending)
  : pyresult full_entry :=
  let type_name := get_type_name value_type in
  match expiry pd with
  | Some ms =>
      if ms =? 0 then
        Ok (FullEntry value_ type_name None None (idle pd) (freq pd))
      else
        expiry_date <~ isoformat_of_ms ms ;;
        Ok (FullEntry value_ type_name (Some ms) (Some expiry_date) (idle pd) (freq pd))
  | None => Ok (FullEntry value_ type_name None None (idle pd) (freq pd))
  end.

(** [self.data[key] = e] *)
Definition store (key : string) (e : entry) : M unit :=
  modify (fun s => set_data s (dict_set (self_data s) key e)).

(** The last branch of the loop: [opcode] is a value type. *)
Definition value_record (value_type : Z) (pd : pending) : M control :=
  read_key <- try_catch (key <- read_string ;; ret (Some key))
                        (fun _ => ret None) ;;
  match read_key with
  | None => ret (Continue pd)
  | Some key =>
      if invalid_key key then
        _ <- try_catch (_ <- read_value value_type ;; ret tt) (fun _ => ret tt) ;;
        ret (Continue pd)
      else
        try_catch
          (value_ <- read_value value_type ;;
           simple_format <- get_simple_format ;;
           _ <- (if simple_format then store key (ESimple value_)
                 else e <- lift (build_entry value_ value_type pd) ;;
                      store key (EFull e)) ;;
           ret (Continue no_pending))
          (fun e =>
             simple_format <- get_simple_format ;;
             _ <- (if negb simple_format
                   then store key (EError (str_exn e) (get_type_name value_type))
                   else ret tt) ;;
             ret (Continue pd))
  end.

(** The opcodes that are not a value type: the tests of the loop before
    its last [else]. *)
Definition is_value_type (opcode : Z) : bool :=
  negb (existsb (Z.eqb opcode)
          [OPCODE_EOF; OPCODE_SELECTDB; OPCODE_AUX; OPCODE_RESIZEDB;
           OPCODE_EXPIRETIME_MS; OPCODE_EXPIRETIME; OPCODE_IDLE; OPCODE_FREQ]).

(** The chain of tests on [opcode]. *)
Definition handle_opcode (opcode : Z) (pd : pending) : M control :=
  if opcode =? OPCODE_EOF then
    _ <- try_catch (checksum <- read_bytes 8 ;; ret tt) (fun _ => ret tt) ;;
    ret Break
  else if opcode =? OPCODE_SELECTDB then
    n <- read_length ;;
    _ <- modify (fun s => set_current_db s n) ;;
    ret (Continue pd)
  else if opcode =? OPCODE_AUX then
    key <- read_string ;;
    value_ <- read_string ;;
    _ <- modify (fun s => set_aux_data s (dict_set (self_aux_data s) key value_)) ;;
    ret (Continue pd)
  else if opcode =? OPCODE_RESIZEDB then
    db_size <- read_length ;;
    expires_size <- read_length ;;
    ret (Continue pd)
  else if opcode =? OPCODE_EXPIRETIME_MS then
    ms <- read_unsigned_long ;;
    ret (Continue (Pending (Some ms) (idle pd) (freq pd)))
  else if opcode =? OPCODE_EXPIRETIME then
    secs <- read_unsigned_int ;;
    ret (Continue (Pending (Some (secs * 1000)) (idle pd) (freq pd)))
  else if opcode =? OPCODE_IDLE then
    n <- read_length ;;
    ret (Continue (Pending (expiry pd) (Some n) (freq pd)))
  else if opcode =? OPCODE_FREQ then
    n <- read_byte ;;
    ret (Continue (Pending (expiry pd) (idle pd) (Some n)))
  else
    value_record opcode pd.

(** The body of the [try] inside [while True]. *)
Definition parse_record (pd : pending) : M control :=
  opcode <- read_byte ;;
  handle_opcode opcode pd.

(** One turn of [while True]: [except EOFError] and [except Exception]
    both leave the loop. *)
Definition parse_iteration (pd : pending) (s : parser) : control * parser :=
  match parse_record pd s with
  | (Ok c, s') => (c, s')
  | (Raise _, s') => (Break, s')
  end.

(** [while True], at most [fuel] turns: [None] when the turns are used up
    before the loop is left. *)
Fixpoint parse_loop (fuel : nat) (pd : pending) (s : parser) : option parser :=
  match fuel with
  | O => None
  | S fuel' =>
      match parse_iteration pd s with
      | (Break, s') => Some s'
      | (Continue pd', s') => parse_loop fuel' pd' s'
      end
  end.

(** What [parse] returns. *)
Record snapshot : Type := Snapshot {
  rdb_version : string;
  aux : dict string;
  db : Z;
  keys : dict entry;
}.

Definition bytes_eqb (a b : list byte) : bool :=
  if list_eq_dec Byte.byte_eq_dec a b then true else false.

(** [b'REDIS'] *)
Definition redis_magic : list byte := list_byte_of_string "REDIS".

(** [version.decode('ascii')] *)
Definition decode_ascii (bs : list byte) : pyresult string :=
  if forallb (fun b => u8 b <? 128) bs then Ok (string_of_list_byte bs)
  else Raise (Exn UnicodeDecodeError "'ascii' codec can't decode byte").

(** The header: magic and version. *)
Definition read_header : M string :=
  magic <- read_bytes 5 ;;
  if negb (bytes_eqb magic redis_magic) then
    raise (Exn ValueError ("Not a valid RDB file. Magic: " ++ repr_bytes magic)%string)
  else
    version <- read_bytes 4 ;;
    lift (decode_ascii version).

(** [RDBParser(filename, simple_format)] on a file with the given content. *)
Definition new_parser (content : list byte) (simple_format : bool) : parser :=
  Parser content [] [] 0 simple_format.

(** [RDBParser(filename, simple_format).parse()].  Each turn of the loop
    reads at least the opcode, so one turn more than there are bytes after
    the header is enough (see [parse_loop_enough_fuel]). *)
Definition parse (content : list byte) (simple_format : bool)
  : option (pyresult snapshot) :=
  match read_header (new_parser content simple_format) with
  | (Raise e, _) => Some (Raise e)
  | (Ok version_str, s) =>
      match parse_loop (S (List.length (self_file s))) no_pending s with
      | None => None
      | Some s' =>
          Some (Ok (Snapshot version_str (self_aux_data s') (self_current_db s')
                             (self_data s')))
      end
  end.

End Decoder.

(** ** The command line of [main]

    [main] from its first line to the call [RDBParser(rdb_file,
    simple_format=simple)]: what it takes from [sys.argv].  The JSON text
    and the writing of the output are not modelled. *)

(** The locals [rdb_file], [pretty], [simple] and [output_file]. *)
Record options : Type := Options {
  rdb_file : string;
  pretty : bool;
  simple : bool;
  output_file : option string;
}.

(** [x in sys.argv] *)
Definition in_argv (x : string) (argv : list string) : bool :=
  existsb (String.eqb x) argv.

(** [for arg in sys.argv[2:]: if not arg.startswith("--"): output_file = arg],
    from [output_file = None]. *)
Definition scan_output_file (args : list string) : option string :=
  fold_left
    (fun output_file arg =>
       if negb (startswith arg "--") then Some arg else output_file)
    args None.

(** [None] is the usage message followed by [sys.exit(1)]. *)
Definition main_options (argv : list string) : option options :=
  if len argv <? 2 then None
  else
    match nth_error argv 1 with
    | Some rdb_file =>
        Some (Options rdb_file (in_argv "--pretty" argv) (in_argv "--simple" argv)
                      (scan_output_file (skipn 2 argv)))
    | None => None
    end.

(** ** A runtime for closed examples

    The examples below run the parser on ASCII data, where decoding is the
    identity on bytes.  Floats are kept as the description of how they were
    obtained, the [lzf] package is absent, a set keeps the first occurrence
    of each element, and the ISO date is a placeholder that shows the
    milliseconds. *)

Inductive example_float : Type :=
| FloatOfInt (n : Z)
| FloatNegInf
| FloatInf
| FloatNan
| FloatOfText (bs : list byte)
| FloatOfBits (bs : list byte).

Definition example_builtins : PyBuiltins := {|
  pyfloat := example_float;
  utf8_decode := string_of_list_byte;
  str_len := fun s => Z.of_nat (String.length s);
  float_of_int := FloatOfInt;
  float_neg_inf := FloatNegInf;
  float_inf := FloatInf;
  float_nan := FloatNan;
  float_of_ascii := fun bs => Ok (FloatOfText bs);
  unpack_d := FloatOfBits;
  lzf_module := None;
  list_of_set := nodup string_dec;
  isoformat_of_ms := fun ms => Ok ("<date of " ++ str_of_Z ms ++ " ms>")%string;
  repr_bytes := fun bs => ("b'" ++ string_of_list_byte bs ++ "'")%string;
|}.

(** The bytes of an ASCII text. *)
Definition ascii_bytes (s : string) : list byte := list_byte_of_string s.

(** [REDIS0011], the header of the example files. *)
Definition header_0011 : list byte := ascii_bytes "REDIS0011".

(** The opcode [0xFC] and the expiry of 1 ms. *)
Definition expiry_1ms : list byte := bytes_of [0xFC; 1; 0; 0; 0; 0; 0; 0; 0].

(** A string record whose key is empty: type 0, key [""], value ["v"]. *)
Definition record_empty_key : list byte := bytes_of [0; 0; 1; 0x76].

(** A list record with key ["k"] whose length byte is [0xC0], an encoded
    value where [read_length] wants a length. *)
Definition record_bad_list : list byte := bytes_of [1; 1; 0x6B; 0xC0].

(** A list record with an empty key and the same bad length. *)
Definition record_bad_list_empty_key : list byte := bytes_of [1; 0; 0xC0].

(** String records: key ["a"] with value ["b"], key ["k"] with value ["v"]. *)
Definition record_a_b : list byte := bytes_of [0; 1; 0x61; 1; 0x62].
Definition record_k_v : list byte := bytes_of [0; 1; 0x6B; 1; 0x76].

(** The opcode [0xFF]. *)
Definition eof_opcode : list byte := bytes_of [0xFF].

(** ** The on-disk layouts, as the specification words them

    Encoders for the three packed containers, written from the tables of
    the specification (section 4.4), to state what a decoder is expected to
    return on a well-formed buffer.  They are not code of the parser. *)

Section Layouts.

Context {builtins : PyBuiltins}.

Definition be_bytes (width : nat) (v : Z) : list byte := rev (le_bytes width v).

(** *** ziplist: [<u32 zlbytes><u32 zltail><u16 zllen>], entries, [0xFF] *)

Inductive zl_item : Type :=
| ZlStr6 (payload : list byte)     (* 00xxxxxx, payload *)
| ZlStr14 (payload : list byte)    (* 01xxxxxx xxxxxxxx, payload *)
| ZlStr32 (payload : list byte)    (* 10xxxxxx + 4 bytes big-endian, payload *)
| ZlInt16 (n : Z)                  (* 11000000 + 2 bytes *)
| ZlInt32 (n : Z)                  (* 11010000 + 4 bytes *)
| ZlInt64 (n : Z)                  (* 11100000 + 8 bytes *)
| ZlInt24 (n : Z)                  (* 11110000 + 3 bytes *)
| ZlInt8 (n : Z)                   (* 11111110 + 1 byte *)
| ZlImm (n : Z).                   (* 1111xxxx, xxxx = n + 1 in 0x1..0xD *)

Definition in_signed (bits : Z) (n : Z) : bool :=
  (- 2 ^ (bits - 1) <=? n) && (n <? 2 ^ (bits - 1)).

Definition zl_item_ok (it : zl_item) : bool :=
  match it with
  | ZlStr6 p => len p <? 64
  | ZlStr14 p => len p <? 16384
  | ZlStr32 p => len p <? 2 ^ 32
  | ZlInt16 n => in_signed 16 n
  | ZlInt32 n => in_signed 32 n
  | ZlInt64 n => in_signed 64 n
  | ZlInt24 n => in_signed 24 n
  | ZlInt8 n => in_signed 8 n
  | ZlImm n => (0 <=? n) && (n <=? 12)
  end.

(** Encoding byte and payload. *)
Definition zl_body (it : zl_item) : list byte :=
  match it with
  | ZlStr6 p => byte_of_Z (len p) :: p
  | ZlStr14 p => byte_of_Z (0x40 + len p / 256) :: byte_of_Z (len p mod 256) :: p
  | ZlStr32 p => byte_of_Z 0x80 :: be_bytes 4 (len p) ++ p
  | ZlInt16 n => byte_of_Z 0xC0 :: pack_le 2 n
  | ZlInt32 n => byte_of_Z 0xD0 :: pack_le 4 n
  | ZlInt64 n => byte_of_Z 0xE0 :: pack_le 8 n
  | ZlInt24 n => byte_of_Z 0xF0 :: pack_le 3 n
  | ZlInt8 n => byte_of_Z 0xFE :: pack_le 1 n
  | ZlImm n => [byte_of_Z (0xF0 + n + 1)]
  end.

(** [<prevlen>]: 1 byte, or [0xFE] and a 4-byte little-endian u32. *)
Definition zl_prevlen (prev : Z) : list byte :=
  if prev <? 254 then [byte_of_Z prev] else byte_of_Z 0xFE :: le_bytes 4 prev.

Definition zl_entry (prev : Z) (it : zl_item) : list byte :=
  zl_prevlen prev ++ zl_body it.

(** The entries one after the other, each with the size of the one before. *)
Fixpoint zl_entries (prev : Z) (items : list zl_item) : list byte :=
  match items with
  | [] => []
  | it :: rest => zl_entry prev it ++ zl_entries (len (zl_entry prev it)) rest
  end.

(** Offset of the last entry ([zltail]). *)
Fixpoint zl_tail (offset prev : Z) (items : list zl_item) : Z :=
  match items with
  | [] => offset
  | [it] => offset
  | it :: rest => zl_tail (offset + len (zl_entry prev it)) (len (zl_entry prev it)) rest
  end.

Definition ziplist (items : list zl_item) : list byte :=
  let body := zl_entries 0 items in
  le_bytes 4 (10 + len body + 1)
  ++ le_bytes 4 (zl_tail 10 0 items)
  ++ le_bytes 2 (Z.min (len items) 65535)
  ++ body ++ [byte_of_Z 0xFF].

(** The 32-bit string entry apart, whose length the decoder reads in the
    other byte order. *)
Definition zl_not_str32 (it : zl_item) : bool :=
  match it with
  | ZlStr32 _ => false
  | _ => true
  end.

(** The value an item stands for. *)
Definition zl_value (it : zl_item) : elem :=
  match it with
  | ZlStr6 p | ZlStr14 p | ZlStr32 p => EStr (utf8_decode p)
  | ZlInt16 n | ZlInt32 n | ZlInt64 n | ZlInt24 n | ZlInt8 n | ZlImm n => EInt n
  end.

(** *** listpack: [<u32 total_bytes><u16 num_elements>], entries, [0xFF] *)

Inductive lp_item : Type :=
| LpStr7 (payload : list byte)     (* 0xxxxxxx, payload *)
| LpUint6 (n : Z)                  (* 110xxxxx *)
| LpInt13 (n : Z)                  (* 1110xxxx xxxxxxxx, sign bit = bit 11 *)
| LpStr12 (payload : list byte)    (* 10xxxxxx xxxxxxxx, payload *)
| LpStr32 (payload : list byte)    (* 11110000 + 4 bytes little-endian, payload *)
| LpInt16 (n : Z)                  (* 11110001 + 2 bytes *)
| LpInt24 (n : Z)                  (* 11110010 + 3 bytes *)
| LpInt32 (n : Z)                  (* 11110011 + 4 bytes *)
| LpInt64 (n : Z).                 (* 11110100 + 8 bytes *)

Definition lp_item_ok (it : lp_item) : bool :=
  match it with
  | LpStr7 p => len p <? 128
  | LpUint6 n => (0 <=? n) && (n <? 32)
  | LpInt13 n => in_signed 12 n
  | LpStr12 p => len p <? 4096
  | LpStr32 p => len p <? 2 ^ 32
  | LpInt16 n => in_signed 16 n
  | LpInt24 n => in_signed 24 n
  | LpInt32 n => in_signed 32 n
  | LpInt64 n => in_signed 64 n
  end.

(** Encoding byte(s) and payload. *)
Definition lp_body (it : lp_item) : list byte :=
  match it with
  | LpStr7 p => byte_of_Z (len p) :: p
  | LpUint6 n => [byte_of_Z (0xC0 + n)]
  | LpInt13 n => [byte_of_Z (0xE0 + (n mod 4096) / 256); byte_of_Z (n mod 256)]
  | LpStr12 p => byte_of_Z (0x80 + len p / 256) :: byte_of_Z (len p mod 256) :: p
  | LpStr32 p => byte_of_Z 0xF0 :: le_bytes 4 (len p) ++ p
  | LpInt16 n => byte_of_Z 0xF1 :: pack_le 2 n
  | LpInt24 n => byte_of_Z 0xF2 :: pack_le 3 n
  | LpInt32 n => byte_of_Z 0xF3 :: pack_le 4 n
  | LpInt64 n => byte_of_Z 0xF4 :: pack_le 8 n
  end.

(** The backlen of the on-disk format: the size of encoding and payload in
    groups of 7 bits, the most significant group first, every byte after
    the first with its top bit set; 1 to 5 bytes. *)
Definition lp_backlen (l : Z) : list byte :=
  let group k := byte_of_Z (Z.lor (Z.land (Z.shiftr l (7 * k)) 127) 128) in
  if l <=? 127 then [byte_of_Z l]
  else if l <? 16383 then [byte_of_Z (Z.shiftr l 7); group 0]
  else if l <? 2097151 then [byte_of_Z (Z.shiftr l 14); group 1; group 0]
  else if l <? 268435455 then [byte_of_Z (Z.shiftr l 21); group 2; group 1; group 0]
  else [byte_of_Z (Z.shiftr l 28); group 3; group 2; group 1; group 0].

Definition lp_entry (it : lp_item) : list byte :=
  lp_body it ++ lp_backlen (len (lp_body it)).

(** An entry whose encoding and payload take at most 127 bytes: its backlen
    is one byte. *)
Definition lp_short (it : lp_item) : bool := len (lp_body it) <=? 127.

Definition listpack (items : list lp_item) : list byte :=
  let body := flat_map lp_entry items in
  le_bytes 4 (6 + len body + 1)
  ++ le_bytes 2 (Z.min (len items) 65535)
  ++ body ++ [byte_of_Z 0xFF].

Definition lp_value (it : lp_item) : elem :=
  match it with
  | LpStr7 p | LpStr12 p | LpStr32 p => EStr (utf8_decode p)
  | LpUint6 n | LpInt13 n | LpInt16 n | LpInt24 n | LpInt32 n | LpInt64 n => EInt n
  end.

(** *** sorted-set scores *)

(** A score as the f64 of the specification's data model: the [int] that
    the source leaves in a score stands for the float of the same value. *)
Definition score_as_float (x : score_value) : pyfloat :=
  match x with
  | SFloat f => f
  | SInt n => float_of_int n
  end.

(** *** intset: [<u32 element_size><u32 count>], little-endian signed elements *)

Definition intset (element_size : Z) (values : list Z) : list byte :=
  le_bytes 4 element_size ++ le_bytes 4 (len values)
  ++ flat_map (pack_le (Z.to_nat element_size)) values.

End Layouts.

(** ** Files made of strings and records

    Layouts of the file itself, to state what the readers and the record
    loop return on well-formed input: the length prefix in its one-byte and
    two-byte forms, a string behind such a prefix, and the records of the
    loop of [parse] with strings for keys and values.  They are not code of
    the parser either. *)

Section Files.

Context {builtins : PyBuiltins}.

(** A length below 2^14: [00xxxxxx], or [01xxxxxx xxxxxxxx] with the high
    bits first. *)
Definition rdb_length (n : Z) : list byte :=
  if n <? 64 then [byte_of_Z n]
  else [byte_of_Z (0x40 + n / 256); byte_of_Z (n mod 256)].

Definition short_length (n : Z) : bool := (0 <=? n) && (n <? 16384).

(** A string: its length, then its bytes. *)
Definition rdb_string (payload : list byte) : list byte :=
  rdb_length (len payload) ++ payload.

(** The text of a payload: [read_string] returns the literal [""] for the
    length 0 and decodes the bytes otherwise. *)
Definition decode_payload (payload : list byte) : string :=
  if len payload =? 0 then ""%string else utf8_decode payload.

(** A ziplist that fits behind a short length prefix, as a segment of a
    quicklist. *)
Definition quicklist_segment_ok (items : list zl_item) : bool :=
  forallb zl_item_ok items && forallb zl_not_str32 items
  && (len (ziplist items) <? 16384).

(** What the record loop can meet before the end of the file: the opcodes
    with their arguments, and a record of type string. *)
Inductive file_item : Type :=
| IAux (key value : list byte)             (* FA, key, value *)
| ISelectDb (n : Z)                        (* FE, length *)
| IResizeDb (db_size expires_size : Z)     (* FB, length, length *)
| IExpireMs (ms : Z)                       (* FC, 8 bytes little-endian *)
| IExpire (secs : Z)                       (* FD, 4 bytes little-endian *)
| IIdle (n : Z)                            (* F8, length *)
| IFreq (n : Z)                            (* F9, 1 byte *)
| IString (key value : list byte).         (* 00, key, value *)

Definition file_item_ok (it : file_item) : bool :=
  match it with
  | IAux k v => short_length (len k) && short_length (len v)
  | ISelectDb n => short_length n
  | IResizeDb a b => short_length a && short_length b
  | IExpireMs ms => (0 <=? ms) && (ms <? 2 ^ 64)
  | IExpire secs => (0 <=? secs) && (secs <? 2 ^ 32)
  | IIdle n => short_length n
  | IFreq n => (0 <=? n) && (n <? 256)
  | IString k v =>
      short_length (len k) && short_length (len v)
      && negb (invalid_key (decode_payload k))
  end.

Definition file_item_bytes (it : file_item) : list byte :=
  match it with
  | IAux k v => byte_of_Z OPCODE_AUX :: rdb_string k ++ rdb_string v
  | ISelectDb n => byte_of_Z OPCODE_SELECTDB :: rdb_length n
  | IResizeDb a b => byte_of_Z OPCODE_RESIZEDB :: rdb_length a ++ rdb_length b
  | IExpireMs ms => byte_of_Z OPCODE_EXPIRETIME_MS :: le_bytes 8 ms
  | IExpire secs => byte_of_Z OPCODE_EXPIRETIME :: le_bytes 4 secs
  | IIdle n => byte_of_Z OPCODE_IDLE :: rdb_length n
  | IFreq n => [byte_of_Z OPCODE_FREQ; byte_of_Z n]
  | IString k v => byte_of_Z TYPE_STRING :: rdb_string k ++ rdb_string v
  end.

(** How the file ends: with the opcode [0xFF] and what follows it (the
    checksum, or anything else), or right after the last item. *)
Definition file_end (trailer : option (list byte)) : list byte :=
  match trailer with
  | Some t => byte_of_Z OPCODE_EOF :: t
  | None => []
  end.

(** What an item means for the locals [expiry], [idle], [freq] of [parse]
    and for the attributes of the parser. *)
Definition file_item_effect (st : pending * parser) (it : file_item)
  : pending * parser :=
  let (pd, s) := st in
  match it with
  | IAux k v =>
      (pd, set_aux_data s (dict_set (self_aux_data s) (decode_payload k)
                                    (decode_payload v)))
  | ISelectDb n => (pd, set_current_db s n)
  | IResizeDb _ _ => (pd, s)
  | IExpireMs ms => (Pending (Some ms) (idle pd) (freq pd), s)
  | IExpire secs => (Pending (Some (secs * 1000)) (idle pd) (freq pd), s)
  | IIdle n => (Pending (expiry pd) (Some n) (freq pd), s)
  | IFreq n => (Pending (expiry pd) (idle pd) (Some n), s)
  | IString k v =>
      let key := decode_payload k in
      let value_ := VStr (decode_payload v) in
      if self_simple_format s then
        (no_pending, set_data s (dict_set (self_data s) key (ESimple value_)))
      else
        match build_entry value_ TYPE_STRING pd with
        | Ok e => (no_pending, set_data s (dict_set (self_data s) key (EFull e)))
        | Raise e =>
            (pd, set_data s (dict_set (self_data s) key
                               (EError (str_exn e) (get_type_name TYPE_STRING))))
        end
  end.

(** The elements of a list two by two; a last element without a partner is
    left out. *)
Fixpoint pairs {A} (l : list A) : list (A * A) :=
  match l with
  | a :: b :: rest => (a, b) :: pairs rest
  | _ => []
  end.

(** One turn of the loop of [read_hash_ziplist] and [read_hash_listpack],
    at the index [i]. *)
Definition hash_step (entries : list elem) (hash_data : dict string) (i : nat)
  : dict string :=
  if (i + 1 <? List.length entries)%nat then
    match nth_error entries i, nth_error entries (i + 1) with
    | Some k, Some v => dict_set hash_data (str_elem k) (str_elem v)
    | _, _ => hash_data
    end
  else hash_data.

(** An entry of [self.data] has the shape of the output format: the bare
    value in simple format, a record otherwise. *)
Definition entry_of_format (simple_format : bool) (e : entry) : bool :=
  match e with
  | ESimple _ => simple_format
  | EFull _ | EError _ _ => negb simple_format
  end.

(** [self.data] and the output format are as they were. *)
Definition keeps_keys (s s' : parser) : Prop :=
  self_data s' = self_data s /\ self_simple_format s' = self_simple_format s.

End Files.

(** * Properties *)

(** ** Buffers *)

Lemma u8_range (b : byte) : 0 <= u8 b < 256.
Proof.
  unfold u8. pose proof (Byte.to_N_bounded b). lia.
Qed.

Lemma len_nonneg {A} (l : list A) : 0 <= len l.
Proof. unfold len. lia. Qed.

Lemma len_app {A} (l1 l2 : list A) : len (l1 ++ l2) = len l1 + len l2.
Proof. unfold len. rewrite length_app. lia. Qed.

Lemma len_cons {A} (x : A) (l : list A) : len (x :: l) = 1 + len l.
Proof. unfold len. cbn [List.length]. lia. Qed.

Lemma len_slice_from {A} (data : list A) (a : Z) :
  0 <= a <= len data -> len (slice_from data a) = len data - a.
Proof.
  unfold len, slice_from. intros H. rewrite length_skipn. lia.
Qed.

Lemma len_slice {A} (data : list A) (a b : Z) :
  0 <= a -> a <= b -> b <= len data -> len (slice data a b) = b - a.
Proof.
  unfold len, slice. intros Ha Hab Hb.
  rewrite length_firstn, length_skipn. lia.
Qed.

Lemma index_ok (data : list byte) (i : Z) :
  0 <= i < len data -> exists v, index data i = Ok v /\ 0 <= v < 256.
Proof.
  unfold index, len. intros H.
  destruct (i <? 0) eqn:E; [apply Z.ltb_lt in E; lia|]. rewrite E.
  destruct (nth_error data (Z.to_nat i)) as [b|] eqn:N.
  - exists (u8 b). split; [reflexivity | apply u8_range].
  - apply nth_error_None in N. lia.
Qed.

Lemma le_uint_nonneg (bs : list byte) : 0 <= le_uint bs.
Proof.
  induction bs as [|b bs IH]; cbn [le_uint]; [lia|].
  pose proof (u8_range b). lia.
Qed.

Lemma unpack_le_ok (width : Z) (signed : bool) (bs : list byte) :
  len bs = width -> exists v, unpack_le width signed bs = Ok v.
Proof.
  intros H. unfold unpack_le. rewrite H, Z.eqb_refl. eauto.
Qed.

Lemma unpack_unsigned_ok (width : Z) (bs : list byte) :
  len bs = width -> exists v, unpack_le width false bs = Ok v /\ 0 <= v.
Proof.
  intros H. unfold unpack_le. rewrite H, Z.eqb_refl.
  eexists; split; [reflexivity | apply le_uint_nonneg].
Qed.

(** ** Bytes and integers *)

Lemma u8_byte_of_Z_mod (z : Z) : u8 (byte_of_Z z) = z mod 256.
Proof.
  unfold u8, byte_of_Z.
  pose proof (Z.mod_pos_bound z 256 ltac:(lia)) as Hm.
  pose proof (Byte.to_of_N_option_map (Z.to_N (z mod 256))) as H.
  destruct (Byte.of_N (Z.to_N (z mod 256))) as [b|]; cbn [option_map] in H.
  - destruct (Z.to_N (z mod 256) <=? 255)%N; [|discriminate].
    injection H as ->. lia.
  - destruct (N.leb_spec (Z.to_N (z mod 256)) 255); [discriminate | lia].
Qed.

Lemma u8_byte_of_Z (z : Z) : 0 <= z < 256 -> u8 (byte_of_Z z) = z.
Proof. intros H. rewrite u8_byte_of_Z_mod. apply Z.mod_small. exact H. Qed.

Lemma length_le_bytes (width : nat) (v : Z) : List.length (le_bytes width v) = width.
Proof.
  revert v. induction width as [|w IH]; intros v; cbn [le_bytes List.length];
    [reflexivity | rewrite IH; reflexivity].
Qed.

Lemma len_le_bytes (width : nat) (v : Z) : len (le_bytes width v) = Z.of_nat width.
Proof. unfold len. rewrite length_le_bytes. reflexivity. Qed.

Lemma le_uint_le_bytes (width : nat) :
  forall v, 0 <= v < 2 ^ (8 * Z.of_nat width) -> le_uint (le_bytes width v) = v.
Proof.
  induction width as [|w IH]; intros v Hv; cbn [le_bytes le_uint].
  - change (2 ^ (8 * Z.of_nat 0)) with 1 in Hv. lia.
  - rewrite u8_byte_of_Z_mod, IH.
    + pose proof (Z.div_mod v 256 ltac:(lia)). lia.
    + replace (8 * Z.of_nat (S w)) with (8 + 8 * Z.of_nat w) in Hv by lia.
      rewrite Z.pow_add_r in Hv by lia. change (2 ^ 8) with 256 in Hv.
      split; [apply Z.div_pos; lia|].
      apply Z.div_lt_upper_bound; lia.
Qed.

Lemma to_signed_mod (bits n : Z) :
  0 < bits -> in_signed bits n = true -> to_signed bits (n mod 2 ^ bits) = n.
Proof.
  intros Hb Hn. unfold in_signed in Hn. apply andb_true_iff in Hn.
  destruct Hn as [Hlo Hhi]. apply Z.leb_le in Hlo. apply Z.ltb_lt in Hhi.
  assert (Hp : 2 ^ bits = 2 * 2 ^ (bits - 1)).
  { replace bits with (1 + (bits - 1)) at 1 by lia.
    rewrite Z.pow_add_r by lia. reflexivity. }
  assert (Hpos : 0 < 2 ^ (bits - 1)) by (apply Z.pow_pos_nonneg; lia).
  unfold to_signed.
  destruct (Z.lt_ge_cases n 0) as [Hneg|Hnn].
  - replace (n mod 2 ^ bits) with (n + 2 ^ bits).
    + destruct (Z.ltb_spec (n + 2 ^ bits) (2 ^ (bits - 1))); lia.
    + apply Z.mod_unique with (q := -1); lia.
  - rewrite Z.mod_small by lia.
    destruct (Z.ltb_spec n (2 ^ (bits - 1))); lia.
Qed.

Lemma unpack_le_le_bytes (width : nat) (w v : Z) :
  w = Z.of_nat width ->
  0 <= v < 2 ^ (8 * w) ->
  unpack_le w false (le_bytes width v) = Ok v.
Proof.
  intros -> Hv. unfold unpack_le.
  rewrite len_le_bytes, Z.eqb_refl, le_uint_le_bytes by exact Hv. reflexivity.
Qed.

Lemma unpack_le_pack_le (width : nat) (w n : Z) :
  w = Z.of_nat width ->
  0 < w ->
  in_signed (8 * w) n = true ->
  unpack_le w true (pack_le width n) = Ok n.
Proof.
  intros -> Hw Hn. unfold unpack_le, pack_le.
  rewrite len_le_bytes, Z.eqb_refl, le_uint_le_bytes.
  - rewrite to_signed_mod by (assumption || lia). reflexivity.
  - apply Z.mod_pos_bound. apply Z.pow_pos_nonneg; lia.
Qed.

(** ** Slices of a concatenation *)

Lemma slice_from_app {A} (pre post : list A) :
  slice_from (pre ++ post) (len pre) = post.
Proof.
  unfold slice_from, len. rewrite Nat2Z.id, skipn_app, skipn_all, Nat.sub_diag.
  reflexivity.
Qed.

Lemma slice_app {A} (pre mid post : list A) (a b : Z) :
  a = len pre -> b = len pre + len mid ->
  slice (pre ++ mid ++ post) a b = mid.
Proof.
  intros -> ->. unfold slice.
  fold (slice_from (pre ++ mid ++ post) (len pre)). rewrite slice_from_app.
  replace (Z.to_nat (len pre + len mid - len pre)) with (List.length mid)
    by (unfold len; lia).
  rewrite firstn_app, firstn_all, Nat.sub_diag. cbn [firstn]. apply app_nil_r.
Qed.

Lemma slice_app_0 {A} (mid post : list A) (b : Z) :
  b = len mid -> slice (mid ++ post) 0 b = mid.
Proof. intros ->. apply (slice_app [] mid post); reflexivity. Qed.

Lemma index_app (pre post : list byte) (x : byte) (i : Z) :
  i = len pre -> index (pre ++ x :: post) i = Ok (u8 x).
Proof.
  intros ->. unfold index. pose proof (len_nonneg pre).
  destruct (Z.ltb_spec (len pre) 0); [lia|].
  destruct (Z.ltb_spec (len pre) 0); [lia|].
  unfold len. rewrite Nat2Z.id, nth_error_app2, Nat.sub_diag by lia. reflexivity.
Qed.

Lemma index_0 (x : byte) (l : list byte) : index (x :: l) 0 = Ok (u8 x).
Proof. apply (index_app [] l x). reflexivity. Qed.

Lemma app_snoc {A} (pre : list A) (x : A) (l : list A) :
  pre ++ x :: l = (pre ++ [x]) ++ l.
Proof. rewrite <- app_assoc. reflexivity. Qed.

Lemma index_at (data : list byte) (i : Z) (x : byte) :
  0 <= i -> nth_error data (Z.to_nat i) = Some x -> index data i = Ok (u8 x).
Proof.
  intros Hi Hx. unfold index.
  destruct (Z.ltb_spec i 0); [lia|].
  destruct (Z.ltb_spec i 0); [lia|]. rewrite Hx. reflexivity.
Qed.

Lemma in_signed_bounds (bits n : Z) :
  in_signed bits n = true -> - 2 ^ (bits - 1) <= n < 2 ^ (bits - 1).
Proof.
  unfold in_signed. rewrite andb_true_iff, Z.leb_le, Z.ltb_lt. tauto.
Qed.


(** ** Masks and shifts on a byte *)

Ltac divlia := Z.to_euclidean_division_equations; lia.

Lemma byte_masks (b : byte) :
  let x := u8 b in
  Z.land x 0xC0 = 64 * (x / 64)
  /\ Z.land x 0xE0 = 32 * (x / 32)
  /\ Z.land x 0xF0 = 16 * (x / 16)
  /\ Z.land x 0x7F = x mod 128
  /\ Z.land x 0x3F = x mod 64
  /\ Z.land x 0x1F = x mod 32
  /\ Z.land x 0x0F = x mod 16.
Proof. destruct b; vm_compute; repeat split; reflexivity. Qed.

Lemma masks (x : Z) :
  0 <= x < 256 ->
  Z.land x 0xC0 = 64 * (x / 64)
  /\ Z.land x 0xE0 = 32 * (x / 32)
  /\ Z.land x 0xF0 = 16 * (x / 16)
  /\ Z.land x 0x7F = x mod 128
  /\ Z.land x 0x3F = x mod 64
  /\ Z.land x 0x1F = x mod 32
  /\ Z.land x 0x0F = x mod 16.
Proof.
  intros Hx. rewrite <- (u8_byte_of_Z x Hx). apply byte_masks.
Qed.

Lemma lor_shiftl_8 (hi low : Z) :
  0 <= low < 256 -> Z.lor (Z.shiftl hi 8) low = hi * 256 + low.
Proof.
  intros Hlow.
  pose proof (Z.add_lor_land (Z.shiftl hi 8) low) as Hadd.
  assert (Hdisj : Z.land (Z.shiftl hi 8) low = 0).
  { replace low with (Z.land (Z.ones 8) low).
    - rewrite Z.land_assoc, Z.land_ones, Z.shiftl_mul_pow2 by lia.
      rewrite Z.mod_mul by lia. apply Z.land_0_l.
    - rewrite Z.land_comm, Z.land_ones by lia. apply Z.mod_small. exact Hlow. }
  rewrite Z.shiftl_mul_pow2 in * by lia. change (2 ^ 8) with 256 in *. lia.
Qed.

(** Bit 11 of a 12-bit value, bit 23 of a 24-bit value. *)
Lemma land_top_bit (k v : Z) :
  0 <= k -> 0 <= v < 2 ^ (k + 1) ->
  (Z.land v (2 ^ k) =? 0) = (v <? 2 ^ k).
Proof.
  intros Hk Hv.
  assert (Hpow : 2 ^ (k + 1) = 2 * 2 ^ k)
    by (rewrite Z.pow_add_r by lia; change (2 ^ 1) with 2; lia).
  assert (Hpos : 0 < 2 ^ k) by (apply Z.pow_pos_nonneg; lia).
  assert (Hbit : Z.land v (2 ^ k) = if Z.testbit v k then 2 ^ k else 0).
  { apply Z.bits_inj'. intros i Hi. rewrite Z.land_spec.
    destruct (Z.eq_dec i k) as [->|Hne].
    - rewrite Z.pow2_bits_true by lia. rewrite andb_true_r.
      destruct (Z.testbit v k); [rewrite Z.pow2_bits_true by lia | rewrite Z.bits_0];
        reflexivity.
    - rewrite Z.pow2_bits_false by lia. rewrite andb_false_r.
      destruct (Z.testbit v k); [rewrite Z.pow2_bits_false by lia | rewrite Z.bits_0];
        reflexivity. }
  rewrite Hbit.
  pose proof (Z.div_mod v (2 ^ k) ltac:(lia)) as Hdm.
  pose proof (Z.mod_pos_bound v (2 ^ k) Hpos) as Hmb.
  assert (Hq : 0 <= v / 2 ^ k < 2).
  { split; [apply Z.div_pos; lia | apply Z.div_lt_upper_bound; lia]. }
  destruct (Z.testbit v k) eqn:T.
  - apply Z.testbit_true in T; [|lia].
    assert (v / 2 ^ k = 1) by divlia.
    destruct (Z.eqb_spec (2 ^ k) 0); [lia|].
    destruct (Z.ltb_spec v (2 ^ k)); [nia | reflexivity].
  - apply Z.testbit_false in T; [|lia].
    assert (v / 2 ^ k = 0) by divlia.
    destruct (Z.ltb_spec v (2 ^ k)); [reflexivity | nia].
Qed.

(** ** The intset decoder on elements of 4 bytes *)

Lemma intset_loop_width4 (count : nat) :
  forall (pre : list byte) (values : list Z) (result : list string),
    forallb (in_signed 32) values = true ->
    intset_loop count (pre ++ flat_map (pack_le 4) values) 4 4 (len pre) result
    = Ok (result ++ map str_of_Z (firstn count values)).
Proof.
  induction count as [|count IH]; intros pre values result Hok; cbn [intset_loop].
  - cbn [firstn map]. rewrite app_nil_r. reflexivity.
  - destruct values as [|v values].
    + cbn [flat_map firstn map]. rewrite !app_nil_r.
      destruct (Z.gtb_spec (len pre + 4) (len pre)); [reflexivity | lia].
    + cbn [forallb] in Hok. apply andb_true_iff in Hok. destruct Hok as [Hv Hok].
      cbn [flat_map firstn map].
      assert (Hlen : len (pack_le 4 v) = 4) by apply (len_le_bytes 4).
      destruct (Z.gtb_spec (len pre + 4)
                  (len (pre ++ pack_le 4 v ++ flat_map (pack_le 4) values)))
        as [Hgt|_].
      { rewrite !len_app, Hlen in Hgt.
        pose proof (len_nonneg (flat_map (pack_le 4) values)). lia. }
      change (4 =? 2) with false. change (4 =? 4) with true. cbv beta iota.
      rewrite (slice_app pre (pack_le 4 v)) by (rewrite ?Hlen; reflexivity).
      unfold unpack_i.
      rewrite (unpack_le_pack_le 4 4 v eq_refl ltac:(lia) Hv). cbn [bindR].
      replace (len pre + 4) with (len (pre ++ pack_le 4 v))
        by (rewrite len_app, Hlen; reflexivity).
      rewrite (app_assoc pre). rewrite IH by exact Hok.
      rewrite <- app_assoc. reflexivity.
Qed.

(** The decoder on a synthesised intset with elements of 4 bytes: the
    values in the order of the buffer, the first 1000 of them. *)
Lemma parse_intset_width4 (values : list Z) :
  len values < 2 ^ 32 ->
  forallb (in_signed 32) values = true ->
  parse_intset (intset 4 values) = map str_of_Z (firstn 1000 values).
Proof.
  intros Hcount Hok. unfold parse_intset, intset.
  change (Z.to_nat 4) with 4%nat.
  pose proof (len_nonneg values) as Hnn.
  pose proof (len_nonneg (flat_map (pack_le 4) values)) as Hnn'.
  destruct (Z.ltb_spec
              (len (le_bytes 4 4 ++ le_bytes 4 (len values)
                    ++ flat_map (pack_le 4) values)) 8) as [Hlt|_].
  { rewrite !len_app, !len_le_bytes in Hlt. lia. }
  unfold unpack_I.
  rewrite (slice_app_0 (le_bytes 4 4)) by reflexivity.
  rewrite (unpack_le_le_bytes 4 4 4 eq_refl) by (cbn; lia). cbn [bindR].
  rewrite (slice_app (le_bytes 4 4) (le_bytes 4 (len values))) by reflexivity.
  rewrite (unpack_le_le_bytes 4 4 (len values) eq_refl) by (cbn; lia). cbn [bindR].
  change (4 <? 3) with false. cbv beta iota.
  rewrite (app_assoc (le_bytes 4 4)).
  change 8 with (len (le_bytes 4 4 ++ le_bytes 4 (len values))) at 1.
  rewrite intset_loop_width4 by exact Hok. cbn [try_except app].
  destruct (Z.min_spec (len values) 1000) as [[Hlt ->]|[Hge ->]].
  - rewrite !firstn_all2; [reflexivity | unfold len in *; lia | unfold len in *; lia].
  - reflexivity.
Qed.

Section Properties.

Context {builtins : PyBuiltins}.

(** ** The entry decoders stay inside the buffer *)

(** Case analysis on the next test of the decoder. *)
Ltac split_if :=
  match goal with
  | |- context [if ?c then _ else _] =>
      let E := fresh "E" in
      destruct c eqn:E; cbv beta iota;
      repeat match goal with
        | H : (_ && _) = true |- _ => apply andb_true_iff in H; destruct H
        | H : negb _ = true |- _ => apply negb_true_iff in H
        | H : negb _ = false |- _ => apply negb_false_iff in H
        | H : (_ <? _) = true |- _ => apply Z.ltb_lt in H
        | H : (_ <? _) = false |- _ => apply Z.ltb_ge in H
        | H : (_ <=? _) = true |- _ => apply Z.leb_le in H
        | H : (_ <=? _) = false |- _ => apply Z.leb_gt in H
        | H : (_ >? _) = true |- _ => rewrite Z.gtb_ltb in H
        | H : (_ >? _) = false |- _ => rewrite Z.gtb_ltb in H
        | H : (_ >=? _) = true |- _ => rewrite Z.geb_leb in H
        | H : (_ >=? _) = false |- _ => rewrite Z.geb_leb in H
        | H : (_ =? _) = true |- _ => apply Z.eqb_eq in H
        | H : (_ =? _) = false |- _ => apply Z.eqb_neq in H
        end
  end.

(** Take the branch that the facts at hand select. *)
Ltac prune := repeat (split_if; try (exfalso; divlia)).

(** The masks of a byte, as divisions. *)
Ltac use_masks v :=
  let M1 := fresh in let M2 := fresh in let M3 := fresh in let M4 := fresh in
  let M5 := fresh in let M6 := fresh in let M7 := fresh in
  destruct (masks v ltac:(lia)) as (M1 & M2 & M3 & M4 & M5 & M6 & M7);
  rewrite ?M1, ?M2, ?M3, ?M4, ?M5, ?M6, ?M7;
  clear M1 M2 M3 M4 M5 M6 M7.

(** A guarded [data[i]] succeeds. *)
Ltac read_index :=
  match goal with
  | |- context [index ?d ?i] =>
      let v := fresh "v" in
      let Hv := fresh "Hv" in
      let Hr := fresh "Hr" in
      destruct (index_ok d i) as (v & Hv & Hr); [lia |];
      rewrite Hv; cbn [bindR]
  end.

(** A guarded [struct.unpack] on a slice succeeds. *)
Ltac read_unpack :=
  match goal with
  | |- context [unpack_le ?w false (slice ?d ?a ?b)] =>
      let v := fresh "v" in
      let Hv := fresh "Hv" in
      let Hr := fresh "Hr" in
      destruct (unpack_unsigned_ok w (slice d a b)) as (v & Hv & Hr);
      [rewrite len_slice; lia |];
      rewrite Hv; cbn [bindR]
  | |- context [unpack_le ?w true (slice ?d ?a ?b)] =>
      let v := fresh "v" in
      let Hv := fresh "Hv" in
      destruct (unpack_le_ok w true (slice d a b)) as (v & Hv);
      [rewrite len_slice; lia |];
      rewrite Hv; cbn [bindR]
  end.

Ltac done_entry := do 2 eexists; split; [reflexivity | lia].


Lemma land_nonneg_r (x m : Z) : 0 <= m -> 0 <= Z.land x m.
Proof. intros. apply Z.land_nonneg. auto. Qed.

Lemma lor_shiftl_nonneg (x y : Z) : 0 <= x -> 0 <= y -> 0 <= Z.lor (Z.shiftl x 8) y.
Proof.
  intros. apply Z.lor_nonneg. split; [apply Z.shiftl_nonneg|]; assumption.
Qed.

Lemma parse_ziplist_entry_in_buffer (data : list byte) :
  exists value bytes_read,
    parse_ziplist_entry data = Ok (value, bytes_read)
    /\ 0 <= bytes_read <= len data.
Proof.
  unfold parse_ziplist_entry, ziplist_entry_at, unpack_I, unpack_h, unpack_i,
    unpack_q, unpack_b.
  pose proof (len_nonneg data) as Hlen.
  split_if; [done_entry|].
  read_index.
  split_if; [done_entry|].
  assert (Hhdr : exists prevlen offset,
             (if v =? 254
              then p <~ unpack_le 4 false (slice data 1 5) ;; Ok (p, 5)
              else Ok (v, 1)) = Ok (prevlen, offset)
             /\ 1 <= offset <= len data).
  { destruct (v =? 254) eqn:E254.
    - cbn [andb] in E0. apply Z.ltb_ge in E0.
      read_unpack. do 2 eexists; split; [reflexivity | lia].
    - do 2 eexists; split; [reflexivity | lia]. }
  destruct Hhdr as (prevlen & offset & -> & Hoff). cbn [bindR snd].
  split_if; [done_entry|].
  read_index.
  pose proof (land_nonneg_r v0 63 ltac:(lia)) as H63.
  split_if.
  { split_if; done_entry. }
  split_if.
  { split_if; [done_entry|]. read_index.
    pose proof (lor_shiftl_nonneg (Z.land v0 63) v1 H63 ltac:(lia)).
    split_if; done_entry. }
  split_if.
  { split_if; [done_entry|]. read_unpack. split_if; done_entry. }
  split_if.
  { split_if; [done_entry|]. read_unpack. done_entry. }
  split_if.
  { split_if; [done_entry|]. read_unpack. done_entry. }
  split_if.
  { split_if; [done_entry|]. read_unpack. done_entry. }
  split_if.
  { split_if; done_entry. }
  split_if.
  { split_if; [done_entry|]. read_unpack. done_entry. }
  split_if; done_entry.
Qed.


Lemma parse_listpack_entry_in_buffer (data : list byte) :
  exists value bytes_read,
    parse_listpack_entry data = Ok (value, bytes_read)
    /\ 0 <= bytes_read <= len data.
Proof.
  unfold parse_listpack_entry, unpack_I, unpack_h, unpack_i, unpack_q.
  pose proof (len_nonneg data) as Hlen.
  split_if; [done_entry|].
  read_index.
  split_if.
  { pose proof (land_nonneg_r v 127 ltac:(lia)) as H127.
    split_if.
    - read_index. done_entry.
    - split_if; [done_entry|]. read_index. done_entry. }
  split_if.
  { read_index. done_entry. }
  split_if.
  { split_if; [done_entry|]. do 2 read_index. done_entry. }
  pose proof (land_nonneg_r v 63 ltac:(lia)) as H63.
  split_if.
  { read_index.
    pose proof (lor_shiftl_nonneg (Z.land v 63) v0 H63 ltac:(lia)).
    split_if; [done_entry|]. read_index. done_entry. }
  split_if; [|done_entry].
  split_if.
  { split_if; [done_entry|]. read_unpack. read_index. done_entry. }
  split_if.
  { split_if; [done_entry|]. read_index. done_entry. }
  split_if.
  { split_if; [done_entry|]. read_unpack. read_index. done_entry. }
  split_if.
  { split_if; [done_entry|]. read_unpack. read_index. done_entry. }
  split_if; [|done_entry].
  split_if; [done_entry|]. read_unpack.
  split_if; [done_entry|]. read_index. done_entry.
Qed.

(** ** The container loops stop at the end of the buffer *)

Lemma len_append_value (result : list elem) (value : option elem) :
  len (append_value result value) <= len result + 1.
Proof.
  destruct value; cbn [append_value]; [rewrite len_app, len_cons|];
    unfold len; cbn [List.length]; lia.
Qed.

Lemma parse_ziplist_loop_in_buffer (count : nat) (data : list byte) :
  forall (pos : Z) (result : list elem),
    0 <= pos ->
    exists l, parse_ziplist_loop count data pos result = Ok l
              /\ len l <= len result + Z.max 0 (len data - pos).
Proof.
  induction count as [|count IH]; intros pos result Hpos; cbn [parse_ziplist_loop].
  - eexists; split; [reflexivity | lia].
  - split_if; [eexists; split; [reflexivity | lia]|].
    read_index.
    split_if; [eexists; split; [reflexivity | lia]|].
    destruct (parse_ziplist_entry_in_buffer (slice_from data pos))
      as (value & bytes_read & -> & Hn).
    rewrite len_slice_from in Hn by lia.
    pose proof (len_append_value result value).
    split_if.
    + eexists; split; [reflexivity | lia].
    + destruct (IH (pos + bytes_read) (append_value result value)) as (l & -> & Hl);
        [lia|].
      eexists; split; [reflexivity | lia].
Qed.

Lemma parse_listpack_loop_in_buffer (count : nat) (data : list byte) :
  forall (pos : Z) (result : list elem),
    0 <= pos ->
    exists l, parse_listpack_loop count data pos result = Ok l
              /\ len l <= len result + Z.max 0 (len data - pos).
Proof.
  induction count as [|count IH]; intros pos result Hpos; cbn [parse_listpack_loop].
  - eexists; split; [reflexivity | lia].
  - split_if; [eexists; split; [reflexivity | lia]|].
    destruct (parse_listpack_entry_in_buffer (slice_from data pos))
      as (value & bytes_read & -> & Hn).
    rewrite len_slice_from in Hn by lia.
    pose proof (len_append_value result value).
    split_if.
    + eexists; split; [reflexivity | lia].
    + destruct (IH (pos + bytes_read) (append_value result value)) as (l & -> & Hl);
        [lia|].
      eexists; split; [reflexivity | lia].
Qed.

Lemma parse_ziplist_in_buffer (data : list byte) :
  exists l, parse_ziplist data = Ok l /\ len l <= len data.
Proof.
  unfold parse_ziplist, unpack_I, unpack_H.
  pose proof (len_nonneg data).
  split_if; [exists []; split; [reflexivity | assumption]|].
  do 3 read_unpack.
  match goal with
  | |- context [parse_ziplist_loop ?c data 10 []] =>
      destruct (parse_ziplist_loop_in_buffer c data 10 []) as (l & -> & Hl); [lia|]
  end.
  exists l. split; [reflexivity|]. change (len (@nil elem)) with 0 in Hl. lia.
Qed.

Lemma parse_listpack_in_buffer (data : list byte) :
  exists l, parse_listpack data = Ok l /\ len l <= len data.
Proof.
  unfold parse_listpack, unpack_I, unpack_H.
  pose proof (len_nonneg data).
  split_if; [exists []; split; [reflexivity | assumption]|].
  do 2 read_unpack.
  match goal with
  | |- context [parse_listpack_loop ?c data 6 []] =>
      destruct (parse_listpack_loop_in_buffer c data 6 []) as (l & -> & Hl); [lia|]
  end.
  exists l. split; [reflexivity|]. change (len (@nil elem)) with 0 in Hl. lia.
Qed.

Lemma intset_loop_in_buffer (count : nat) (intset_bytes : list byte) (encoding size : Z) :
  0 < size ->
  forall (pos : Z) (result l : list string),
    intset_loop count intset_bytes encoding size pos result = Ok l ->
    len l <= len result + Z.max 0 (len intset_bytes - pos).
Proof.
  intros Hsize.
  induction count as [|count IH]; intros pos result l; cbn [intset_loop].
  - intros [= <-]. lia.
  - split_if; [intros [= <-]; lia|].
    assert (Hstep : forall val,
               intset_loop count intset_bytes encoding size (pos + size)
                           (result ++ [str_of_Z val]) = Ok l ->
               len l <= len result + Z.max 0 (len intset_bytes - pos)).
    { intros val Hl. apply IH in Hl. rewrite len_app in Hl.
      change (len [str_of_Z val]) with 1 in Hl. lia. }
    repeat split_if;
      try (intros [= <-]; lia);
      match goal with
      | |- bindR ?m _ = _ -> _ => destruct m; cbn [bindR]; [apply Hstep | discriminate]
      end.
Qed.

Lemma parse_intset_in_buffer (intset_bytes : list byte) :
  len (parse_intset intset_bytes) <= len intset_bytes.
Proof.
  unfold parse_intset, unpack_I.
  pose proof (len_nonneg intset_bytes).
  split_if; [assumption|].
  do 2 read_unpack.
  match goal with
  | |- context [intset_loop ?c ?d ?e ?sz 8 []] =>
      assert (Hsize : 0 < sz);
      [| pose proof (intset_loop_in_buffer c d e sz Hsize 8 []) as Hloop;
         destruct (intset_loop c d e sz 8 []) as [l|] eqn:El ]
  end; cbn [try_except]; [| |assumption].
  - split_if; [|lia].
    assert (Hc : v = 0 \/ v = 1 \/ v = 2) by lia.
    destruct Hc as [ -> | [ -> | -> ] ]; reflexivity.
  - specialize (Hloop l eq_refl).
    change (len (@nil string)) with 0 in Hloop. lia.
Qed.


(** ** What a method may do to the parser object

    A relation [R] between the parser before and after a call that holds
    when nothing happens, composes, and holds when the file moves forward,
    holds across every reader.  When it also holds across an update of
    [self.data], [self.aux_data] or [self.current_db], it holds across a
    turn of the record loop. *)

Section Preservation.

Variable R : parser -> parser -> Prop.
Hypothesis R_refl : forall s, R s s.
Hypothesis R_trans : forall s1 s2 s3, R s1 s2 -> R s2 s3 -> R s1 s3.
Hypothesis R_forward : forall s n, R s (set_file s (skipn n (self_file s))).
Hypothesis R_update :
  forall s d a n, R s (Parser (self_file s) d a n (self_simple_format s)).

Lemma preserves_ret {A} (a : A) : preserves R (ret a).
Proof. intros s r s' [= _ <-]. apply R_refl. Qed.

Lemma preserves_raise {A} (e : exn) : preserves R (@raise _ A e).
Proof. intros s r s' [= _ <-]. apply R_refl. Qed.

Lemma preserves_lift {A} (x : pyresult A) : preserves R (lift x).
Proof. intros s r s' [= _ <-]. apply R_refl. Qed.

Lemma preserves_get_simple_format : preserves R get_simple_format.
Proof. intros s r s' [= _ <-]. apply R_refl. Qed.

Lemma preserves_modify (f : parser -> parser) :
  (forall s, R s (f s)) -> preserves R (modify f).
Proof. intros Hf s r s' [= _ <-]. apply Hf. Qed.

Lemma preserves_bind {A B} (m : M A) (k : A -> M B) :
  preserves R m -> (forall a, preserves R (k a)) -> preserves R (bind m k).
Proof.
  intros Hm Hk s r s'. unfold bind.
  destruct (m s) as [[a|e] s1] eqn:Em; intros H.
  - eapply R_trans; [eapply Hm, Em | eapply Hk, H].
  - injection H as _ <-. eapply Hm, Em.
Qed.

Lemma preserves_try_catch {A} (m : M A) (h : exn -> M A) :
  preserves R m -> (forall e, preserves R (h e)) -> preserves R (try_catch m h).
Proof.
  intros Hm Hh s r s'. unfold try_catch.
  destruct (m s) as [[a|e] s1] eqn:Em; intros H.
  - injection H as _ <-. eapply Hm, Em.
  - eapply R_trans; [eapply Hm, Em | eapply Hh, H].
Qed.

Lemma preserves_repeatM {A} (n : nat) (m : M A) :
  preserves R m -> preserves R (repeatM n m).
Proof.
  intros Hm. induction n as [|n IH]; cbn [repeatM].
  - apply preserves_ret.
  - apply preserves_bind; [assumption | intros x].
    apply preserves_bind; [assumption | intros xs]. apply preserves_ret.
Qed.

Lemma preserves_read_byte : preserves R read_byte.
Proof.
  intros s r s'. unfold read_byte.
  destruct (self_file s) as [|b rest] eqn:Ef; intros [= _ <-].
  - apply R_refl.
  - specialize (R_forward s 1). rewrite Ef in R_forward. exact R_forward.
Qed.

Lemma preserves_read_bytes (n : Z) : preserves R (read_bytes n).
Proof.
  intros s r s'. unfold read_bytes.
  destruct (n >=? 2 ^ 63).
  - intros [= _ <-]. destruct s. exact (R_forward _ 0%nat).
  - destruct (_ =? _); intros [= _ <-]; apply R_forward.
Qed.

(** A method is built from the pieces above and from methods already
    shown to preserve [R]. *)
Ltac preserved :=
  repeat first
    [ apply preserves_ret
    | apply preserves_raise
    | apply preserves_lift
    | apply preserves_read_byte
    | apply preserves_read_bytes
    | apply preserves_get_simple_format
    | apply preserves_repeatM
    | assumption
    | apply preserves_modify; intros ?; apply R_update
    | apply preserves_bind; [| intros ?]
    | apply preserves_try_catch; [| intros ?]
    | match goal with
      | H : forall _, preserves R _ |- _ => apply H
      | |- preserves R (if ?c then _ else _) => destruct c
      | |- preserves R (match ?x with _ => _ end) => destruct x
      end ].

Lemma preserves_read_length_with_encoding : preserves R read_length_with_encoding.
Proof.
  unfold read_length_with_encoding, read_unsigned_int, read_unsigned_long.
  preserved.
Qed.

Lemma preserves_read_length : preserves R read_length.
Proof.
  pose proof preserves_read_length_with_encoding.
  unfold read_length. preserved.
Qed.

Lemma preserves_read_string : preserves R read_string.
Proof.
  pose proof preserves_read_length_with_encoding.
  pose proof preserves_read_length.
  unfold read_string, read_signed_byte, read_signed_short, read_signed_int.
  preserved.
Qed.

Lemma preserves_read_string_raw : preserves R read_string_raw.
Proof.
  pose proof preserves_read_length_with_encoding.
  pose proof preserves_read_length.
  unfold read_string_raw, read_signed_byte, read_signed_short, read_signed_int.
  preserved.
Qed.

Lemma preserves_read_double : preserves R read_double.
Proof. unfold read_double. preserved. Qed.

Lemma preserves_read_listpack : preserves R read_listpack.
Proof.
  pose proof preserves_read_string_raw.
  unfold read_listpack. preserved.
Qed.

Lemma preserves_read_value (value_type : Z) : preserves R (read_value value_type).
Proof.
  pose proof preserves_read_length.
  pose proof preserves_read_string.
  pose proof preserves_read_string_raw.
  pose proof preserves_read_double.
  pose proof preserves_read_listpack.
  unfold read_value, read_list_ziplist, read_set_intset, read_zset_ziplist,
    read_hash_ziplist, read_hash_listpack, read_zset_listpack, read_set_listpack,
    read_quicklist, read_stream.
  preserved.
Qed.

Lemma preserves_value_record (value_type : Z) (pd : pending) :
  preserves R (value_record value_type pd).
Proof.
  pose proof preserves_read_string.
  pose proof preserves_read_value.
  unfold value_record, store. preserved.
Qed.

Lemma preserves_handle_opcode (opcode : Z) (pd : pending) :
  preserves R (handle_opcode opcode pd).
Proof.
  pose proof preserves_read_string.
  pose proof preserves_read_length.
  pose proof (preserves_value_record opcode pd).
  unfold handle_opcode, read_unsigned_long, read_unsigned_int, set_current_db,
    set_aux_data.
  preserved.
Qed.

End Preservation.

Lemma file_forward_refl s : file_forward s s.
Proof. exists 0%nat. reflexivity. Qed.

Lemma file_forward_trans s1 s2 s3 :
  file_forward s1 s2 -> file_forward s2 s3 -> file_forward s1 s3.
Proof.
  intros [n Hn] [m Hm]. exists (n + m)%nat.
  rewrite Hm, Hn, skipn_skipn. f_equal. lia.
Qed.

Lemma file_forward_skip s n : file_forward s (set_file s (skipn n (self_file s))).
Proof. exists n. reflexivity. Qed.

Lemma file_forward_update s d a n :
  file_forward s (Parser (self_file s) d a n (self_simple_format s)).
Proof. exists 0%nat. reflexivity. Qed.

Lemma only_reads_refl s : only_reads s s.
Proof. exists 0%nat. destruct s; reflexivity. Qed.

Lemma only_reads_trans s1 s2 s3 :
  only_reads s1 s2 -> only_reads s2 s3 -> only_reads s1 s3.
Proof.
  intros [n ->] [m ->]. exists (n + m)%nat.
  unfold set_file; cbn. rewrite skipn_skipn. do 2 f_equal. lia.
Qed.

Lemma only_reads_skip s n : only_reads s (set_file s (skipn n (self_file s))).
Proof. exists n. reflexivity. Qed.

Lemma file_forward_length s s' :
  file_forward s s' -> (List.length (self_file s') <= List.length (self_file s))%nat.
Proof. intros [n ->]. rewrite length_skipn. lia. Qed.

(** [read_string] and [read_value] change nothing but the position in the
    file. *)
Lemma read_string_only_reads (s s' : parser) (r : pyresult string) :
  read_string s = (r, s') -> only_reads s s'.
Proof.
  apply (preserves_read_string only_reads only_reads_refl only_reads_trans only_reads_skip).
Qed.

Lemma read_value_only_reads (value_type : Z) (s s' : parser) (r : pyresult value) :
  read_value value_type s = (r, s') -> only_reads s s'.
Proof.
  apply (preserves_read_value only_reads only_reads_refl only_reads_trans only_reads_skip).
Qed.

Lemma handle_opcode_forward (opcode : Z) (pd : pending) :
  preserves file_forward (handle_opcode opcode pd).
Proof.
  apply preserves_handle_opcode.
  - apply file_forward_refl.
  - apply file_forward_trans.
  - apply file_forward_skip.
  - apply file_forward_update.
Qed.

(** ** The record loop ends *)

(** A turn that does not leave the loop has read at least the opcode. *)
Lemma parse_iteration_progress (pd pd' : pending) (s s' : parser) :
  parse_iteration pd s = (Continue pd', s') ->
  (List.length (self_file s') < List.length (self_file s))%nat.
Proof.
  unfold parse_iteration, parse_record, bind, read_byte.
  destruct (self_file s) as [|b rest] eqn:Ef; [discriminate|].
  destruct (handle_opcode (u8 b) pd (set_file s rest)) as [r s1] eqn:Eh.
  apply handle_opcode_forward, file_forward_length in Eh. cbn in Eh.
  destruct r; intros [= _ <-]; cbn [List.length]; lia.
Qed.

Lemma parse_loop_enough_fuel (fuel : nat) :
  forall (pd : pending) (s : parser),
    (List.length (self_file s) < fuel)%nat ->
    exists s', parse_loop fuel pd s = Some s'.
Proof.
  induction fuel as [|fuel IH]; intros pd s Hfuel; [lia|].
  cbn [parse_loop].
  destruct (parse_iteration pd s) as [[pd'|] s1] eqn:Ei.
  - apply parse_iteration_progress in Ei. apply IH. lia.
  - eauto.
Qed.

(** More fuel does not change the result. *)
Lemma parse_loop_more_fuel (fuel : nat) :
  forall (pd : pending) (s s' : parser),
    parse_loop fuel pd s = Some s' -> parse_loop (S fuel) pd s = Some s'.
Proof.
  induction fuel as [|fuel IH]; intros pd s s'; [discriminate|].
  intros H. cbn [parse_loop] in H. change (parse_loop (S (S fuel)) pd s) with
    (match parse_iteration pd s with
     | (Break, s1) => Some s1
     | (Continue pd1, s1) => parse_loop (S fuel) pd1 s1
     end).
  destruct (parse_iteration pd s) as [[pd1|] s1]; [apply IH|]; assumption.
Qed.

Lemma read_bytes_exact (bs rest : list byte) (s : parser) :
  len bs < 2 ^ 63 ->
  self_file s = bs ++ rest ->
  read_bytes (len bs) s = (Ok bs, set_file s rest).
Proof.
  intros Hsize Hf. unfold read_bytes.
  destruct (Z.geb_spec (len bs) (2 ^ 63)) as [Hge|_]; [lia|].
  unfold len. rewrite Hf, Nat2Z.id.
  rewrite firstn_app, firstn_all, Nat.sub_diag, app_nil_r.
  rewrite skipn_app, skipn_all, Nat.sub_diag. cbn [skipn app].
  rewrite Z.eqb_refl. reflexivity.
Qed.

(** C8. Whatever follows the header [REDIS] and a version of four ASCII
    characters, however it is cut, [parse] returns a snapshot: the record
    loop ends and no exception leaves it.  A file whose first five bytes are
    not [REDIS] (or that is shorter) is refused with an exception. *)
Theorem parse_total_after_header (simple_format : bool) :
  (forall (version rest : list byte),
      len version = 4 ->
      forallb (fun b => u8 b <? 128) version = true ->
      exists snap,
        parse (redis_magic ++ version ++ rest) simple_format = Some (Ok snap)
        /\ rdb_version snap = string_of_list_byte version)
  /\ (forall content : list byte,
         firstn 5 content <> redis_magic ->
         exists e, parse content simple_format = Some (Raise e)).
Proof.
  split.
  - intros version rest Hlen Hascii.
    unfold parse, read_header, bind.
    change 5 with (len redis_magic). rewrite <- Hlen.
    rewrite (read_bytes_exact redis_magic (version ++ rest)) by reflexivity.
    change (bytes_eqb redis_magic redis_magic) with true.
    cbn [negb].
    rewrite (read_bytes_exact version rest)
      by (reflexivity || (rewrite Hlen; reflexivity)).
    unfold decode_ascii, lift. rewrite Hascii.
    match goal with
    | |- context [parse_loop ?f ?pd ?s] =>
        destruct (parse_loop_enough_fuel f pd s) as (s' & ->); [lia|]
    end.
    eexists; split; reflexivity.
  - intros content Hmagic.
    unfold parse, read_header, bind, read_bytes, new_parser.
    change (5 >=? 2 ^ 63) with false. cbv iota.
    cbn [self_file].
    destruct (len (firstn (Z.to_nat 5) content) =? 5); [|eauto].
    unfold bytes_eqb.
    change (Z.to_nat 5) with 5%nat.
    destruct (list_eq_dec byte_eq_dec (firstn 5 content) redis_magic) as [Heq|Hne].
    + exfalso. apply Hmagic. exact Heq.
    + cbn. eauto.
Qed.

(** ** One value-type record *)

Lemma dict_get_set {V} (d : dict V) (k : string) (v : V) :
  dict_get (dict_set d k v) k = Some v.
Proof.
  induction d as [|[k' v'] d IH]; cbn [dict_set dict_get].
  - rewrite String.eqb_refl. reflexivity.
  - destruct (String.eqb k' k) eqn:E; cbn [dict_get]; rewrite E; [reflexivity | exact IH].
Qed.

Lemma only_reads_simple_format (s s' : parser) :
  only_reads s s' -> self_simple_format s' = self_simple_format s.
Proof. intros [n ->]. reflexivity. Qed.

Lemma only_reads_data (s s' : parser) :
  only_reads s s' -> self_data s' = self_data s.
Proof. intros [n ->]. reflexivity. Qed.

Lemma handle_opcode_value_type (opcode : Z) (pd : pending) :
  is_value_type opcode = true -> handle_opcode opcode pd = value_record opcode pd.
Proof.
  unfold is_value_type. cbn [existsb]. rewrite negb_true_iff, !orb_false_iff.
  intros (H1 & H2 & H3 & H4 & H5 & H6 & H7 & H8 & _).
  unfold handle_opcode. rewrite H1, H2, H3, H4, H5, H6, H7, H8. reflexivity.
Qed.

(** A turn of the loop on a value-type opcode is [value_record] on what
    follows the opcode. *)
Lemma parse_iteration_value_type (pd : pending) (s : parser) (b : byte) (rest : list byte) :
  self_file s = b :: rest ->
  is_value_type (u8 b) = true ->
  parse_iteration pd s =
    match value_record (u8 b) pd (set_file s rest) with
    | (Ok c, s') => (c, s')
    | (Raise _, s') => (Break, s')
    end.
Proof.
  intros Hf Hvt. unfold parse_iteration, parse_record, bind, read_byte.
  rewrite Hf, (handle_opcode_value_type _ _ Hvt). reflexivity.
Qed.

(** The record after a key that is kept and a value that is read. *)
Lemma value_record_stored (value_type : Z) (pd : pending) (s s1 s2 : parser)
      (key : string) (v : value) :
  read_string s = (Ok key, s1) ->
  invalid_key key = false ->
  read_value value_type s1 = (Ok v, s2) ->
  value_record value_type pd s =
    if self_simple_format s then
      (Ok (Continue no_pending), set_data s2 (dict_set (self_data s2) key (ESimple v)))
    else
      match build_entry v value_type pd with
      | Ok e =>
          (Ok (Continue no_pending), set_data s2 (dict_set (self_data s2) key (EFull e)))
      | Raise e =>
          (Ok (Continue pd),
           set_data s2 (dict_set (self_data s2) key
                                 (EError (str_exn e) (get_type_name value_type))))
      end.
Proof.
  intros Hk Hvalid Hv.
  pose proof (only_reads_simple_format _ _ (read_string_only_reads _ _ _ Hk)) as F1.
  pose proof (only_reads_simple_format _ _ (read_value_only_reads _ _ _ _ Hv)) as F2.
  unfold value_record, bind, try_catch, get_simple_format, store, modify, lift, ret.
  rewrite Hk, Hvalid, Hv, F2, F1.
  destruct (self_simple_format s); [reflexivity|].
  destruct (build_entry v value_type pd); cbn [negb]; rewrite ?F2, ?F1; reflexivity.
Qed.

(** The record after a key that is kept and a value whose decoder raises. *)
Lemma value_record_failed (value_type : Z) (pd : pending) (s s1 s2 : parser)
      (key : string) (e : exn) :
  read_string s = (Ok key, s1) ->
  invalid_key key = false ->
  read_value value_type s1 = (Raise e, s2) ->
  value_record value_type pd s =
    (Ok (Continue pd),
     if self_simple_format s then s2
     else set_data s2 (dict_set (self_data s2) key
                                (EError (str_exn e) (get_type_name value_type)))).
Proof.
  intros Hk Hvalid Hv.
  pose proof (only_reads_simple_format _ _ (read_string_only_reads _ _ _ Hk)) as F1.
  pose proof (only_reads_simple_format _ _ (read_value_only_reads _ _ _ _ Hv)) as F2.
  unfold value_record, bind, try_catch, get_simple_format, store, modify, lift, ret.
  rewrite Hk, Hvalid, Hv, F2, F1.
  destruct (self_simple_format s); reflexivity.
Qed.

(** The record after a key that the loop skips, and after a key that cannot
    be read: the turn ends with the pending values as they were. *)
Lemma value_record_skipped (value_type : Z) (pd : pending) (s s1 : parser)
      (key : string) :
  read_string s = (Ok key, s1) ->
  invalid_key key = true ->
  exists s', value_record value_type pd s = (Ok (Continue pd), s').
Proof.
  intros Hk Hinvalid.
  unfold value_record, bind, try_catch, ret. rewrite Hk, Hinvalid.
  destruct (read_value value_type s1) as [[v|e] s2]; eauto.
Qed.

Lemma value_record_key_error (value_type : Z) (pd : pending) (s s1 : parser)
      (e : exn) :
  read_string s = (Raise e, s1) ->
  value_record value_type pd s = (Ok (Continue pd), s1).
Proof.
  intros Hk. unfold value_record, bind, try_catch, ret. rewrite Hk. reflexivity.
Qed.

(** C10. In full format, a value-type record whose key is kept and whose
    value is read, whatever is pending.  With a pending expiry of exactly 0
    the key is assigned the same entry as with no pending expiry: no
    [expiry_ms] and no [expiry_date].  The pending idle and freq are
    attached as they are, so a pending idle of 0 is stored as [idle] 0 and a
    pending freq of 0 as [freq] 0, and left out only when unset; this does
    not depend on the expiry.  Nothing stays pending afterwards.  (With an
    expiry other than 0 the entry has [expiry_ms] and the date; when
    [datetime] raises on it, the error record is stored instead.) *)
Theorem zero_expiry_dropped_zero_idle_freq_kept
        (pd : pending) (s s1 s2 : parser) (b : byte) (rest : list byte)
        (key : string) (v : value) :
  self_file s = b :: rest ->
  is_value_type (u8 b) = true ->
  self_simple_format s = false ->
  read_string (set_file s rest) = (Ok key, s1) ->
  invalid_key key = false ->
  read_value (u8 b) s1 = (Ok v, s2) ->
  let stored expiry_ms expiry_date :=
    (Continue no_pending,
     set_data s2 (dict_set (self_data s) key
                    (EFull (FullEntry v (get_type_name (u8 b)) expiry_ms expiry_date
                                      (idle pd) (freq pd))))) in
  parse_iteration pd s
  = match expiry pd with
    | None => stored None None
    | Some 0 => stored None None
    | Some ms =>
        match isoformat_of_ms ms with
        | Ok expiry_date => stored (Some ms) (Some expiry_date)
        | Raise e =>
            (Continue pd,
             set_data s2 (dict_set (self_data s) key
                            (EError (str_exn e) (get_type_name (u8 b)))))
        end
    end.
Proof.
  intros Hf Hvt Hfull Hk Hvalid Hv stored. subst stored.
  rewrite (parse_iteration_value_type _ _ _ _ Hf Hvt).
  rewrite (value_record_stored _ _ _ _ _ _ _ Hk Hvalid Hv).
  cbn [self_simple_format set_file]. rewrite Hfull.
  rewrite (only_reads_data _ _ (read_value_only_reads _ _ _ _ Hv)).
  rewrite (only_reads_data _ _ (read_string_only_reads _ _ _ Hk)).
  unfold build_entry.
  destruct (expiry pd) as [[|ms|ms]|]; cbn [Z.eqb bindR]; try reflexivity;
    destruct (isoformat_of_ms _); reflexivity.
Qed.

(** C7, as amended.  For a value-type record whose key is read and is not
    one of the keys the loop skips, and whose value decoder raises [e]: the
    turn ends with the loop going on; in full format the key is then mapped
    to the error record with [str(e)] and the type name; in simple format
    [self.data] is as it was before the record; the loop continues with the
    next turn. *)
Theorem failed_value_recorded_in_full_format
        (pd : pending) (s s1 s2 : parser) (b : byte) (rest : list byte)
        (key : string) (e : exn) :
  self_file s = b :: rest ->
  is_value_type (u8 b) = true ->
  read_string (set_file s rest) = (Ok key, s1) ->
  invalid_key key = false ->
  read_value (u8 b) s1 = (Raise e, s2) ->
  exists pd' s',
    parse_iteration pd s = (Continue pd', s')
    /\ (if self_simple_format s
        then self_data s' = self_data s
        else dict_get (self_data s') key
             = Some (EError (str_exn e) (get_type_name (u8 b))))
    /\ (forall fuel, parse_loop (S fuel) pd s = parse_loop fuel pd' s').
Proof.
  intros Hf Hvt Hk Hvalid Hv.
  pose proof (parse_iteration_value_type pd _ _ _ Hf Hvt) as Hit.
  rewrite (value_record_failed _ _ _ _ _ _ _ Hk Hvalid Hv) in Hit.
  cbn [self_simple_format set_file] in Hit.
  do 2 eexists; split; [exact Hit|].
  split.
  - destruct (self_simple_format s).
    + rewrite (only_reads_data _ _ (read_value_only_reads _ _ _ _ Hv)).
      rewrite (only_reads_data _ _ (read_string_only_reads _ _ _ Hk)).
      reflexivity.
    + cbn [self_data set_data]. apply dict_get_set.
  - intros fuel. cbn [parse_loop]. rewrite Hit. reflexivity.
Qed.

(** ** Sorted sets in a ziplist or a listpack *)

Lemma range_step2_SS (n : nat) :
  range_step2 (S (S n)) = 0%nat :: map (fun i => S (S i)) (range_step2 n).
Proof.
  unfold range_step2.
  replace (S (S n) + 1)%nat with (S (S (n + 1))) by lia.
  cbn [Nat.div2 seq map]. f_equal.
  rewrite <- seq_shift, !map_map. apply map_ext. intros k. lia.
Qed.

Lemma flat_map_map {A B C} (f : B -> list C) (g : A -> B) (l : list A) :
  flat_map f (map g l) = flat_map (fun x => f (g x)) l.
Proof.
  induction l as [|x l IH]; cbn [map flat_map]; [reflexivity|].
  rewrite IH. reflexivity.
Qed.

(** The loop over [range(0, len(entries), 2)] takes the entries two by two. *)
Lemma zset_of_entries_pair (m x : elem) (entries : list elem) :
  zset_of_entries (m :: x :: entries)
  = ZsetItem (str_elem m) (score_of_elem x) :: zset_of_entries entries.
Proof.
  unfold zset_of_entries. cbn [List.length]. rewrite range_step2_SS.
  cbn [flat_map]. rewrite flat_map_map.
  cbn [Nat.add nth_error app].
  replace (1 <? S (S (List.length entries)))%nat with true
    by (symmetry; apply Nat.ltb_lt; lia).
  reflexivity.
Qed.

Lemma zset_of_entries_nth (k : nat) :
  forall (entries : list elem) (m x : elem),
    nth_error entries (2 * k) = Some m ->
    nth_error entries (2 * k + 1) = Some x ->
    nth_error (zset_of_entries entries) k
    = Some (ZsetItem (str_elem m) (score_of_elem x)).
Proof.
  induction k as [|k IH]; intros entries m x Hm Hx.
  - destruct entries as [|m' [|x' entries]]; try discriminate.
    cbn in Hm, Hx. injection Hm as ->. injection Hx as ->.
    rewrite zset_of_entries_pair. reflexivity.
  - destruct entries as [|m' [|x' entries]].
    + discriminate.
    + replace (2 * S k)%nat with (S (S (2 * k))) in Hm by lia.
      cbn in Hm. destruct (2 * k)%nat; discriminate.
    + replace (2 * S k)%nat with (S (S (2 * k))) in Hm by lia.
      replace (2 * S k + 1)%nat with (S (S (2 * k + 1))) in Hx by lia.
      cbn [nth_error] in Hm, Hx.
      rewrite zset_of_entries_pair. cbn [nth_error]. apply IH; assumption.
Qed.

(** C9. In [read_zset_ziplist] ([in_ziplist] true) and [read_zset_listpack]
    ([in_ziplist] false), the pair made of the elements [2k] and [2k+1] of
    the decoded container is emitted with the member [str] of the first
    element and with a score that, when the score element was decoded as a
    string, is the literal 0 of the source (as a float: [float(0)]) whatever
    the string holds, and when it was decoded as the inline integer [n], is
    [float(n)]. *)
Theorem zset_score_of_string_is_zero
        (in_ziplist : bool) (s s' : parser) (data : list byte)
        (entries : list elem) (k : nat) (m x : elem) :
  read_string_raw s = (Ok (Some data), s') ->
  (if in_ziplist then parse_ziplist data else parse_listpack data) = Ok entries ->
  nth_error entries (2 * k) = Some m ->
  nth_error entries (2 * k + 1) = Some x ->
  exists zset_data emitted,
    (if in_ziplist then read_zset_ziplist s else read_zset_listpack s)
    = (Ok zset_data, s')
    /\ nth_error zset_data k = Some (ZsetItem (str_elem m) emitted)
    /\ emitted = match x with
                 | EStr _ => SInt 0
                 | EInt n => SFloat (float_of_int n)
                 end
    /\ score_as_float emitted = match x with
                                | EStr _ => float_of_int 0
                                | EInt n => float_of_int n
                                end.
Proof.
  intros Hraw Hparse Hm Hx.
  exists (zset_of_entries entries), (score_of_elem x). split; [|split; [|split]].
  - destruct in_ziplist.
    + unfold read_zset_ziplist, bind, ret. rewrite Hraw.
      cbn [on_buffer]. rewrite Hparse. reflexivity.
    + unfold read_zset_listpack, read_listpack, bind, ret.
      rewrite Hraw, Hparse. reflexivity.
  - apply (zset_of_entries_nth k entries m x Hm Hx).
  - destruct x; reflexivity.
  - destruct x; reflexivity.
Qed.

(** ** The ziplist decoder on synthesised entries *)

Lemma len_zl_prevlen (prev : Z) :
  len (zl_prevlen prev) = if prev <? 254 then 1 else 5.
Proof.
  unfold zl_prevlen. destruct (prev <? 254); [reflexivity|].
  rewrite len_cons, len_le_bytes. reflexivity.
Qed.

(** The decoder behind the previous-entry length. *)
Lemma parse_ziplist_entry_prevlen (prev : Z) (rest : list byte) :
  0 <= prev < 2 ^ 32 ->
  rest <> [] ->
  parse_ziplist_entry (zl_prevlen prev ++ rest)
  = ziplist_entry_at (zl_prevlen prev ++ rest) (len (zl_prevlen prev)).
Proof.
  intros Hprev Hrest.
  assert (Hr : 1 <= len rest).
  { destruct rest; [congruence|]. rewrite len_cons. pose proof (len_nonneg rest). lia. }
  rewrite len_zl_prevlen.
  set (data := zl_prevlen prev ++ rest).
  assert (Hlen : len data = (if prev <? 254 then 1 else 5) + len rest)
    by (unfold data; rewrite len_app, len_zl_prevlen; reflexivity).
  unfold parse_ziplist_entry, unpack_I.
  unfold zl_prevlen in data.
  destruct (Z.ltb_spec prev 254) as [Hsmall|Hlarge].
  - assert (H0 : index data 0 = Ok prev)
      by (rewrite <- (u8_byte_of_Z prev) by lia; apply index_at; [lia | reflexivity]).
    clearbody data. rewrite H0. cbn [bindR]. prune.
    cbn [bindR snd]. prune. reflexivity.
  - assert (H0 : index data 0 = Ok 254)
      by (apply (index_at data 0 (byte_of_Z 254)); [lia | reflexivity]).
    assert (Hs : slice data 1 5 = le_bytes 4 prev)
      by (unfold data; cbn [app]; apply (slice_app [_] (le_bytes 4 prev)); reflexivity).
    clearbody data. rewrite H0. cbn [bindR]. prune.
    rewrite Hs, (unpack_le_le_bytes 4 4 prev eq_refl) by (cbn; lia).
    cbn [bindR snd]. prune. reflexivity.
Qed.


(** The decoder on the encoding byte and payload of an item. *)
Lemma ziplist_entry_at_body (pre : list byte) (it : zl_item) (tail : list byte) :
  zl_item_ok it = true ->
  zl_not_str32 it = true ->
  ziplist_entry_at (pre ++ zl_body it ++ tail) (len pre)
  = Ok (Some (zl_value it), len pre + len (zl_body it)).
Proof.
  intros Hok Hle.
  pose proof (len_nonneg pre) as Hpre. pose proof (len_nonneg tail) as Htail.
  set (o := len pre) in *.
  destruct it as [p|p|p|n|n|n|n|n|n]; cbn [zl_body zl_value zl_item_ok] in *;
    try discriminate.
  - (* 6-bit string length *)
    apply Z.ltb_lt in Hok. pose proof (len_nonneg p) as Hp.
    set (data := pre ++ (byte_of_Z (len p) :: p) ++ tail).
    assert (Hlen : len data = o + 1 + len p + len tail)
      by (unfold data, o; rewrite !len_app, !len_cons; lia).
    assert (H0 : index data o = Ok (len p))
      by (unfold data; cbn [app]; rewrite index_app, u8_byte_of_Z by (reflexivity || lia);
          reflexivity).
    assert (Hs : slice data (o + 1) (o + 1 + len p) = p).
    { unfold data. cbn [app]. rewrite app_snoc.
      apply slice_app; rewrite len_app; reflexivity. }
    rewrite len_cons. clearbody data.
    unfold ziplist_entry_at. rewrite H0. cbn [bindR]. cbv zeta.
    use_masks (len p). rewrite (Z.mod_small (len p) 64) by lia.
    prune. rewrite Hs. do 2 f_equal. lia.
  - (* 14-bit string length *)
    apply Z.ltb_lt in Hok. pose proof (len_nonneg p) as Hp.
    set (h := len p / 256) in *.
    assert (Hh : 0 <= h < 64) by (unfold h; divlia).
    set (data := pre ++ (byte_of_Z (0x40 + h) :: byte_of_Z (len p mod 256) :: p) ++ tail).
    assert (Hlen : len data = o + 2 + len p + len tail)
      by (unfold data, o; rewrite !len_app, !len_cons; lia).
    assert (H0 : index data o = Ok (0x40 + h))
      by (unfold data; cbn [app]; rewrite index_app, u8_byte_of_Z by (reflexivity || lia);
          reflexivity).
    assert (H1 : index data (o + 1) = Ok (len p mod 256)).
    { unfold data. cbn [app]. rewrite app_snoc.
      rewrite index_app, u8_byte_of_Z by (rewrite ?len_app; reflexivity || divlia).
      reflexivity. }
    assert (Hs : slice data (o + 1 + 1) (o + 1 + 1 + len p) = p).
    { unfold data. cbn [app]. rewrite app_snoc, app_snoc.
      apply slice_app; rewrite !len_app; unfold o;
        change (len [byte_of_Z (0x40 + h)]) with 1;
        change (len [byte_of_Z (len p mod 256)]) with 1; lia. }
    rewrite !len_cons. clearbody data.
    unfold ziplist_entry_at. rewrite H0. cbn [bindR]. cbv zeta.
    use_masks (0x40 + h). replace ((64 + h) mod 64) with h by divlia.
    prune. rewrite H1. cbn [bindR].
    rewrite lor_shiftl_8 by divlia.
    replace (h * 256 + len p mod 256) with (len p) by (unfold h; divlia).
    prune. rewrite Hs. do 2 f_equal. lia.
  - (* 16-bit integer *)
    set (data := pre ++ (byte_of_Z 0xC0 :: pack_le 2 n) ++ tail).
    assert (Hlen : len data = o + 3 + len tail)
      by (unfold data, o, pack_le; rewrite !len_app, !len_cons, len_le_bytes; lia).
    assert (H0 : index data o = Ok 0xC0)
      by (unfold data; cbn [app]; rewrite index_app by reflexivity; reflexivity).
    assert (Hv : slice data (o + 1) (o + 1 + 2) = pack_le 2 n).
    { unfold data. cbn [app]. rewrite app_snoc.
      apply slice_app; rewrite ?len_app; reflexivity. }
    change (len (byte_of_Z 0xC0 :: pack_le 2 n)) with 3. clearbody data.
    unfold ziplist_entry_at, unpack_h. rewrite H0. cbn [bindR]. cbv zeta.
    use_masks 0xC0. prune.
    rewrite Hv, (unpack_le_pack_le 2 2 n eq_refl) by (lia || exact Hok).
    cbn [bindR]. do 2 f_equal. lia.
  - (* 32-bit integer *)
    set (data := pre ++ (byte_of_Z 0xD0 :: pack_le 4 n) ++ tail).
    assert (Hlen : len data = o + 5 + len tail)
      by (unfold data, o, pack_le; rewrite !len_app, !len_cons, len_le_bytes; lia).
    assert (H0 : index data o = Ok 0xD0)
      by (unfold data; cbn [app]; rewrite index_app by reflexivity; reflexivity).
    assert (Hv : slice data (o + 1) (o + 1 + 4) = pack_le 4 n).
    { unfold data. cbn [app]. rewrite app_snoc.
      apply slice_app; rewrite ?len_app; reflexivity. }
    change (len (byte_of_Z 0xD0 :: pack_le 4 n)) with 5. clearbody data.
    unfold ziplist_entry_at, unpack_i. rewrite H0. cbn [bindR]. cbv zeta.
    use_masks 0xD0. prune.
    rewrite Hv, (unpack_le_pack_le 4 4 n eq_refl) by (lia || exact Hok).
    cbn [bindR]. do 2 f_equal. lia.
  - (* 64-bit integer *)
    set (data := pre ++ (byte_of_Z 0xE0 :: pack_le 8 n) ++ tail).
    assert (Hlen : len data = o + 9 + len tail)
      by (unfold data, o, pack_le; rewrite !len_app, !len_cons, len_le_bytes; lia).
    assert (H0 : index data o = Ok 0xE0)
      by (unfold data; cbn [app]; rewrite index_app by reflexivity; reflexivity).
    assert (Hv : slice data (o + 1) (o + 1 + 8) = pack_le 8 n).
    { unfold data. cbn [app]. rewrite app_snoc.
      apply slice_app; rewrite ?len_app; reflexivity. }
    change (len (byte_of_Z 0xE0 :: pack_le 8 n)) with 9. clearbody data.
    unfold ziplist_entry_at, unpack_q. rewrite H0. cbn [bindR]. cbv zeta.
    use_masks 0xE0. prune.
    rewrite Hv, (unpack_le_pack_le 8 8 n eq_refl) by (lia || exact Hok).
    cbn [bindR]. do 2 f_equal. lia.
  - (* 24-bit integer *)
    set (data := pre ++ (byte_of_Z 0xF0 :: pack_le 3 n) ++ tail).
    assert (Hlen : len data = o + 4 + len tail)
      by (unfold data, o, pack_le; rewrite !len_app, !len_cons, len_le_bytes; lia).
    assert (H0 : index data o = Ok 0xF0)
      by (unfold data; cbn [app]; rewrite index_app by reflexivity; reflexivity).
    assert (Hv : slice data (o + 1) (o + 1 + 3) = pack_le 3 n).
    { unfold data. cbn [app]. rewrite app_snoc.
      apply slice_app; rewrite ?len_app; reflexivity. }
    change (len (byte_of_Z 0xF0 :: pack_le 3 n)) with 4. clearbody data.
    unfold ziplist_entry_at. rewrite H0. cbn [bindR]. cbv zeta.
    use_masks 0xF0. prune.
    rewrite Hv. unfold int_from_bytes_le, pack_le.
    rewrite len_le_bytes, le_uint_le_bytes by (apply Z.mod_pos_bound; reflexivity).
    rewrite (to_signed_mod (8 * Z.of_nat 3) n) by (lia || exact Hok).
    do 2 f_equal. lia.
  - (* 8-bit integer *)
    set (data := pre ++ (byte_of_Z 0xFE :: pack_le 1 n) ++ tail).
    assert (Hlen : len data = o + 2 + len tail)
      by (unfold data, o, pack_le; rewrite !len_app, !len_cons, len_le_bytes; lia).
    assert (H0 : index data o = Ok 0xFE)
      by (unfold data; cbn [app]; rewrite index_app by reflexivity; reflexivity).
    assert (Hv : slice data (o + 1) (o + 1 + 1) = pack_le 1 n).
    { unfold data. cbn [app]. rewrite app_snoc.
      apply slice_app; rewrite ?len_app; reflexivity. }
    change (len (byte_of_Z 0xFE :: pack_le 1 n)) with 2. clearbody data.
    unfold ziplist_entry_at, unpack_b. rewrite H0. cbn [bindR]. cbv zeta.
    use_masks 0xFE. prune.
    rewrite Hv, (unpack_le_pack_le 1 1 n eq_refl) by (lia || exact Hok).
    cbn [bindR]. do 2 f_equal. lia.
  - (* 4-bit immediate integer *)
    apply andb_true_iff in Hok. destruct Hok as [Hlo Hhi].
    apply Z.leb_le in Hlo. apply Z.leb_le in Hhi.
    set (data := pre ++ [byte_of_Z (0xF0 + n + 1)] ++ tail).
    assert (Hlen : len data = o + 1 + len tail)
      by (unfold data, o; rewrite !len_app, !len_cons; change (len (@nil byte)) with 0; lia).
    assert (H0 : index data o = Ok (0xF0 + n + 1))
      by (unfold data; cbn [app]; rewrite index_app, u8_byte_of_Z by (reflexivity || lia);
          reflexivity).
    change (len [byte_of_Z (0xF0 + n + 1)]) with 1. clearbody data.
    unfold ziplist_entry_at. rewrite H0. cbn [bindR]. cbv zeta.
    use_masks (0xF0 + n + 1). prune.
    replace ((240 + n + 1) mod 16 - 1) with n by divlia. reflexivity.
Qed.


Lemma len_zl_body_bounds (it : zl_item) :
  zl_item_ok it = true -> zl_not_str32 it = true -> 1 <= len (zl_body it) < 2 ^ 15.
Proof.
  intros Hok Hle. change (2 ^ 15) with 32768.
  destruct it as [p|p|p|n|n|n|n|n|n]; cbn [zl_body zl_item_ok] in *;
    try discriminate;
    try (unfold pack_le; rewrite len_cons, len_le_bytes; lia).
  - apply Z.ltb_lt in Hok. pose proof (len_nonneg p). rewrite len_cons. lia.
  - apply Z.ltb_lt in Hok. pose proof (len_nonneg p). rewrite !len_cons. lia.
  - change (len [byte_of_Z (240 + n + 1)]) with 1. lia.
Qed.

(** The decoder on one synthesised entry. *)
Lemma parse_ziplist_entry_item (prev : Z) (it : zl_item) (tail : list byte) :
  0 <= prev < 2 ^ 32 ->
  zl_item_ok it = true ->
  zl_not_str32 it = true ->
  parse_ziplist_entry (zl_entry prev it ++ tail)
  = Ok (Some (zl_value it), len (zl_entry prev it)).
Proof.
  intros Hprev Hok Hle. unfold zl_entry. rewrite <- app_assoc.
  rewrite parse_ziplist_entry_prevlen.
  - rewrite ziplist_entry_at_body by assumption. rewrite len_app. reflexivity.
  - exact Hprev.
  - destruct it; cbn; discriminate.
Qed.

Lemma parse_ziplist_loop_items (count : nat) :
  forall (pre : list byte) (prev : Z) (items : list zl_item) (result : list elem),
    0 <= prev < 2 ^ 32 ->
    forallb zl_item_ok items = true ->
    forallb zl_not_str32 items = true ->
    parse_ziplist_loop count (pre ++ zl_entries prev items ++ [byte_of_Z 0xFF])
                       (len pre) result
    = Ok (result ++ map zl_value (firstn count items)).
Proof.
  induction count as [|count IH]; intros pre prev items result Hprev Hok Hle;
    cbn [parse_ziplist_loop].
  - cbn [firstn map]. rewrite app_nil_r. reflexivity.
  - pose proof (len_nonneg pre) as Hpre.
    destruct items as [|it items]; cbn [zl_entries firstn map].
    + cbn [app]. rewrite len_app. change (len [byte_of_Z 255]) with 1.
      destruct (Z.geb_spec (len pre) (len pre + 1 - 1)); [|lia].
      rewrite app_nil_r. reflexivity.
    + cbn [forallb] in Hok, Hle.
      apply andb_true_iff in Hok. destruct Hok as [Hok Hoks].
      apply andb_true_iff in Hle. destruct Hle as [Hle Hles].
      pose proof (len_zl_body_bounds it Hok Hle) as Hbody.
      set (e := zl_entry prev it) in *.
      set (tail := zl_entries (len e) items ++ [byte_of_Z 0xFF]).
      assert (He : 2 <= len e < 2 ^ 32).
      { unfold e, zl_entry. rewrite len_app, len_zl_prevlen.
        change (2 ^ 15) with 32768 in Hbody. change (2 ^ 32) with 4294967296.
        destruct (prev <? 254); lia. }
      rewrite <- (app_assoc e). fold tail.
      assert (Htail : 1 <= len tail).
      { unfold tail. rewrite len_app. change (len [byte_of_Z 255]) with 1.
        pose proof (len_nonneg (zl_entries (len e) items)). lia. }
      destruct (Z.geb_spec (len pre) (len (pre ++ e ++ tail) - 1)) as [Hge|_].
      { rewrite !len_app in Hge. lia. }
      assert (Hmarker : exists marker,
                 index (pre ++ e ++ tail) (len pre) = Ok marker /\ marker <> 0xFF).
      { unfold e, zl_entry, zl_prevlen.
        destruct (Z.ltb_spec prev 254).
        - exists prev. cbn [app]. rewrite index_app, u8_byte_of_Z by (reflexivity || lia).
          split; [reflexivity | lia].
        - exists 254. cbn [app]. rewrite index_app by reflexivity.
          split; [reflexivity | lia]. }
      destruct Hmarker as (marker & -> & Hm). cbn [bindR].
      destruct (Z.eqb_spec marker 255); [contradiction|].
      rewrite slice_from_app.
      unfold e at 1. rewrite parse_ziplist_entry_item by assumption. fold e.
      cbn [append_value].
      destruct (Z.eqb_spec (len e) 0); [lia|].
      replace (len pre + len e) with (len (pre ++ e)) by apply len_app.
      rewrite (app_assoc pre e tail). unfold tail.
      rewrite IH by (assumption || lia).
      rewrite <- app_assoc. reflexivity.
Qed.

(** The decoder on a synthesised ziplist without an entry of the 32-bit
    string encoding: the values of the items, in order, as many as the loop
    is allowed to take. *)
Lemma parse_ziplist_without_str32 (items : list zl_item) :
  forallb zl_item_ok items = true ->
  forallb zl_not_str32 items = true ->
  parse_ziplist (ziplist items)
  = Ok (map zl_value (firstn (Z.to_nat 999999) items)).
Proof.
  intros Hok Hle. unfold ziplist.
  set (body := zl_entries 0 items).
  set (total := le_bytes 4 (10 + len body + 1)).
  set (ztail := le_bytes 4 (zl_tail 10 0 items)).
  set (zllen := Z.min (len items) 65535).
  pose proof (len_nonneg items) as Hn. pose proof (len_nonneg body) as Hb.
  set (data := total ++ ztail ++ le_bytes 2 zllen ++ body ++ [byte_of_Z 255]).
  assert (Hlen : len data = 10 + len body + 1)
    by (unfold data, total, ztail; rewrite !len_app, !len_le_bytes;
        change (len [byte_of_Z 255]) with 1; lia).
  assert (H1 : slice data 0 4 = total)
    by (unfold data; apply slice_app_0; unfold total; rewrite len_le_bytes; reflexivity).
  assert (H2 : slice data 4 8 = ztail)
    by (unfold data; apply slice_app; unfold total, ztail; rewrite !len_le_bytes;
        reflexivity).
  assert (H3 : slice data 8 10 = le_bytes 2 zllen).
  { unfold data. rewrite (app_assoc total ztail).
    apply slice_app; unfold total, ztail; rewrite ?len_app, !len_le_bytes; reflexivity. }
  assert (Hdata : data = (total ++ ztail ++ le_bytes 2 zllen) ++ body ++ [byte_of_Z 255])
    by (unfold data; rewrite <- !app_assoc; reflexivity).
  assert (Hpre : len (total ++ ztail ++ le_bytes 2 zllen) = 10)
    by (unfold total, ztail; rewrite !len_app, !len_le_bytes; reflexivity).
  unfold parse_ziplist, unpack_I, unpack_H.
  destruct (Z.ltb_spec (len data) 10); [lia|].
  rewrite H1, H2, H3.
  destruct (unpack_le_ok 4 false total) as (v1 & ->);
    [unfold total; rewrite len_le_bytes; reflexivity|].
  destruct (unpack_le_ok 4 false ztail) as (v2 & ->);
    [unfold ztail; rewrite len_le_bytes; reflexivity|].
  rewrite (unpack_le_le_bytes 2 2 zllen eq_refl) by (unfold zllen; cbn; lia).
  cbn [bindR].
  rewrite Hdata, <- Hpre at 1. clear H1 H2 H3 Hdata.
  unfold body. rewrite parse_ziplist_loop_items by (assumption || cbn; lia).
  cbn [app]. do 2 f_equal. unfold zllen.
  destruct (Z.ltb_spec (Z.min (len items) 65535) 65535) as [Hsmall|Hbig].
  - unfold len in Hsmall |- *.
    rewrite (firstn_all2 (n := Z.to_nat 999999)) by lia.
    apply firstn_all2. lia.
  - reflexivity.
Qed.

(** ** The listpack decoder on synthesised entries

    The decoder returns the literal [""] for a string of length 0, where
    the payload decodes to [b"".decode()]: the two agree. *)

Section Listpack_entries.

Hypothesis decode_empty : utf8_decode [] = ""%string.

Lemma parse_listpack_entry_short (it : lp_item) (tail : list byte) :
  lp_item_ok it = true ->
  len (lp_body it) <= 127 ->
  parse_listpack_entry (lp_entry it ++ tail)
  = Ok (Some (lp_value it), len (lp_entry it)).
Proof.
  intros Hok Hshort. unfold lp_entry, lp_backlen.
  destruct (Z.leb_spec (len (lp_body it)) 127) as [_|]; [|lia].
  set (bl := byte_of_Z (len (lp_body it))). clearbody bl.
  pose proof (len_nonneg tail) as Htail.
  rewrite <- app_assoc, len_app. change (len [bl]) with 1.
  destruct it as [p|n|n|p|p|n|n|n|n]; cbn [lp_body lp_value lp_item_ok] in *.
  - (* 7-bit string *)
    apply Z.ltb_lt in Hok. pose proof (len_nonneg p) as Hp.
    rewrite len_cons in Hshort.
    set (data := (byte_of_Z (len p) :: p) ++ [bl] ++ tail).
    assert (Hlen : len data = 1 + len p + 1 + len tail)
      by (unfold data; rewrite !len_app, !len_cons; change (len (@nil byte)) with 0; lia).
    assert (H0 : index data 0 = Ok (len p))
      by (unfold data; cbn [app]; rewrite index_0, u8_byte_of_Z by lia; reflexivity).
    assert (Hbl : index data (1 + len p) = Ok (u8 bl))
      by (unfold data; apply index_app; rewrite len_cons; reflexivity).
    assert (Hs : slice data 1 (1 + len p) = p)
      by (unfold data; cbn [app]; apply (slice_app [_] p); reflexivity).
    rewrite len_cons. clearbody data.
    unfold parse_listpack_entry. rewrite H0. cbn [bindR].
    destruct (masks (len p) ltac:(lia)) as (_ & _ & _ & -> & _).
    rewrite (Z.mod_small (len p) 128) by lia.
    prune.
    + assert (p = []).
      { destruct p as [|x p']; [reflexivity | exfalso].
        pose proof (len_nonneg p').
        match goal with H : len (_ :: _) = 0 |- _ => rewrite len_cons in H end. lia. }
      subst p. change (1 + len (@nil byte)) with 1 in Hbl.
      rewrite Hbl. cbn [bindR]. rewrite decode_empty. reflexivity.
    + rewrite Hbl, Hs. reflexivity.
  - (* 6-bit unsigned integer *)
    apply andb_true_iff in Hok. destruct Hok as [Hlo Hhi].
    apply Z.leb_le in Hlo. apply Z.ltb_lt in Hhi.
    set (data := [byte_of_Z (0xC0 + n)] ++ [bl] ++ tail).
    assert (Hlen : len data = 2 + len tail)
      by (unfold data; rewrite !len_app, !len_cons; change (len (@nil byte)) with 0; lia).
    assert (H0 : index data 0 = Ok (0xC0 + n))
      by (unfold data; cbn [app]; rewrite index_0, u8_byte_of_Z by lia; reflexivity).
    assert (Hbl : index data 1 = Ok (u8 bl))
      by (unfold data; apply (index_app [_]); reflexivity).
    change (len [byte_of_Z (0xC0 + n)]) with 1. clearbody data.
    unfold parse_listpack_entry. rewrite H0. cbn [bindR].
    destruct (masks (0xC0 + n) ltac:(lia)) as (_ & -> & _ & _ & _ & -> & _).
    prune. rewrite Hbl. cbn [bindR].
    replace ((192 + n) mod 32) with n by divlia. reflexivity.
  - (* 13-bit integer *)
    apply in_signed_bounds in Hok. change (2 ^ (12 - 1)) with 2048 in Hok.
    set (h := (n mod 4096) / 256) in *.
    assert (Hh : 0 <= h < 16) by (unfold h; divlia).
    set (data := [byte_of_Z (0xE0 + h); byte_of_Z (n mod 256)] ++ [bl] ++ tail).
    assert (Hlen : len data = 3 + len tail)
      by (unfold data; rewrite !len_app, !len_cons; change (len (@nil byte)) with 0; lia).
    assert (H0 : index data 0 = Ok (0xE0 + h))
      by (unfold data; cbn [app]; rewrite index_0, u8_byte_of_Z by lia; reflexivity).
    assert (H1 : index data 1 = Ok (n mod 256))
      by (rewrite <- (u8_byte_of_Z (n mod 256)) by divlia;
          apply index_at; [lia | reflexivity]).
    assert (H2 : index data 2 = Ok (u8 bl))
      by (apply index_at; [lia | reflexivity]).
    change (len [byte_of_Z (0xE0 + h); byte_of_Z (n mod 256)]) with 2. clearbody data.
    unfold parse_listpack_entry. rewrite H0. cbn [bindR]. cbv zeta.
    use_masks (0xE0 + h).
    replace ((224 + h) mod 16) with h by divlia.
    prune. rewrite H1, H2. cbn [bindR].
    rewrite lor_shiftl_8 by divlia.
    replace (h * 256 + n mod 256) with (n mod 4096) by (unfold h; divlia).
    change 2048 with (2 ^ 11). rewrite land_top_bit by (cbn; divlia).
    change (2 ^ 11) with 2048.
    destruct (Z.ltb_spec (n mod 4096) 2048); cbn [negb].
    + replace (n mod 4096) with n by divlia. reflexivity.
    + replace (n mod 4096 - 4096) with n by divlia. reflexivity.
  - (* 12-bit string *)
    apply Z.ltb_lt in Hok. pose proof (len_nonneg p) as Hp.
    rewrite !len_cons in Hshort.
    set (h := len p / 256) in *.
    assert (Hh : 0 <= h < 16) by (unfold h; divlia).
    set (data := (byte_of_Z (0x80 + h) :: byte_of_Z (len p mod 256) :: p) ++ [bl] ++ tail).
    assert (Hlen : len data = 2 + len p + 1 + len tail)
      by (unfold data; rewrite !len_app, !len_cons; change (len (@nil byte)) with 0; lia).
    assert (H0 : index data 0 = Ok (0x80 + h))
      by (unfold data; cbn [app]; rewrite index_0, u8_byte_of_Z by lia; reflexivity).
    assert (H1 : index data 1 = Ok (len p mod 256))
      by (rewrite <- (u8_byte_of_Z (len p mod 256)) by divlia;
          apply index_at; [lia | reflexivity]).
    assert (Hbl : index data (2 + len p) = Ok (u8 bl))
      by (unfold data; apply index_app; rewrite !len_cons; lia).
    assert (Hs : slice data 2 (2 + len p) = p)
      by (unfold data; cbn [app]; apply (slice_app [_; _] p); reflexivity).
    rewrite !len_cons. clearbody data.
    unfold parse_listpack_entry. rewrite H0. cbn [bindR]. cbv zeta.
    use_masks (0x80 + h).
    replace ((128 + h) mod 64) with h by divlia.
    prune. rewrite H1. cbn [bindR].
    rewrite lor_shiftl_8 by divlia.
    replace (h * 256 + len p mod 256) with (len p) by (unfold h; divlia).
    prune. rewrite Hbl, Hs. cbn [bindR]. do 2 f_equal. lia.
  - (* 32-bit string length *)
    apply Z.ltb_lt in Hok. pose proof (len_nonneg p) as Hp.
    rewrite len_cons, len_app, len_le_bytes in Hshort.
    set (data := (byte_of_Z 0xF0 :: le_bytes 4 (len p) ++ p) ++ [bl] ++ tail).
    assert (Hlen : len data = 5 + len p + 1 + len tail)
      by (unfold data; rewrite !len_app, !len_cons, !len_app, len_le_bytes;
          change (len (@nil byte)) with 0; lia).
    assert (H0 : index data 0 = Ok 0xF0)
      by (unfold data; cbn [app]; rewrite index_0; reflexivity).
    assert (Hl : slice data 1 5 = le_bytes 4 (len p))
      by (unfold data; cbn [app]; rewrite <- app_assoc;
          apply (slice_app [_] (le_bytes 4 (len p))); reflexivity).
    assert (Hbl : index data (5 + len p) = Ok (u8 bl))
      by (unfold data; apply index_app; rewrite len_cons, len_app, len_le_bytes; lia).
    assert (Hs : slice data 5 (5 + len p) = p)
      by (unfold data; cbn [app];
          apply (slice_app (byte_of_Z 0xF0 :: le_bytes 4 (len p)) p);
          rewrite len_cons, len_le_bytes; lia).
    rewrite len_cons, len_app, len_le_bytes. clearbody data.
    unfold parse_listpack_entry, unpack_I. rewrite H0. cbn [bindR]. cbv zeta.
    use_masks 0xF0.
    prune. rewrite Hl, (unpack_le_le_bytes 4 4 (len p) eq_refl) by (cbn; lia).
    cbn [bindR]. prune. rewrite Hbl, Hs. cbn [bindR]. do 2 f_equal. lia.
  - (* 16-bit integer *)
    set (data := (byte_of_Z 0xF1 :: pack_le 2 n) ++ [bl] ++ tail).
    assert (Hlen : len data = 4 + len tail)
      by (unfold data, pack_le; rewrite !len_app, !len_cons, len_le_bytes;
          change (len (@nil byte)) with 0; lia).
    assert (H0 : index data 0 = Ok 0xF1)
      by (unfold data; cbn [app]; rewrite index_0; reflexivity).
    assert (Hv : slice data 1 3 = pack_le 2 n)
      by (unfold data; cbn [app]; apply (slice_app [_] (pack_le 2 n)); reflexivity).
    assert (Hbl : index data 3 = Ok (u8 bl))
      by (unfold data; apply index_app; reflexivity).
    change (len (byte_of_Z 0xF1 :: pack_le 2 n)) with 3. clearbody data.
    unfold parse_listpack_entry, unpack_h. rewrite H0. cbn [bindR]. cbv zeta.
    use_masks 0xF1.
    prune. rewrite Hv, (unpack_le_pack_le 2 2 n eq_refl) by (lia || exact Hok).
    cbn [bindR]. rewrite Hbl. reflexivity.
  - (* 24-bit integer *)
    pose proof (in_signed_bounds _ _ Hok) as Hb. change (2 ^ (24 - 1)) with 8388608 in Hb.
    set (data := (byte_of_Z 0xF2 :: pack_le 3 n) ++ [bl] ++ tail).
    assert (Hlen : len data = 5 + len tail)
      by (unfold data, pack_le; rewrite !len_app, !len_cons, len_le_bytes;
          change (len (@nil byte)) with 0; lia).
    assert (H0 : index data 0 = Ok 0xF2)
      by (unfold data; cbn [app]; rewrite index_0; reflexivity).
    assert (Hv : slice data 1 4 = pack_le 3 n)
      by (unfold data; cbn [app]; apply (slice_app [_] (pack_le 3 n)); reflexivity).
    assert (Hbl : index data 4 = Ok (u8 bl))
      by (unfold data; apply index_app; reflexivity).
    change (len (byte_of_Z 0xF2 :: pack_le 3 n)) with 4. clearbody data.
    unfold parse_listpack_entry. rewrite H0. cbn [bindR]. cbv zeta.
    use_masks 0xF2.
    rewrite Hv, Hbl. cbn [bindR int_from_bytes_le].
    unfold pack_le. rewrite le_uint_le_bytes by (apply Z.mod_pos_bound; reflexivity).
    change (2 ^ (8 * Z.of_nat 3)) with 16777216.
    change 8388608 with (2 ^ 23). rewrite land_top_bit by (cbn; divlia).
    change (2 ^ 23) with 8388608 in *.
    prune.
    + replace (n mod 16777216 - 16777216) with n by divlia. reflexivity.
    + replace (n mod 16777216) with n by divlia. reflexivity.
  - (* 32-bit integer *)
    set (data := (byte_of_Z 0xF3 :: pack_le 4 n) ++ [bl] ++ tail).
    assert (Hlen : len data = 6 + len tail)
      by (unfold data, pack_le; rewrite !len_app, !len_cons, len_le_bytes;
          change (len (@nil byte)) with 0; lia).
    assert (H0 : index data 0 = Ok 0xF3)
      by (unfold data; cbn [app]; rewrite index_0; reflexivity).
    assert (Hv : slice data 1 5 = pack_le 4 n)
      by (unfold data; cbn [app]; apply (slice_app [_] (pack_le 4 n)); reflexivity).
    assert (Hbl : index data 5 = Ok (u8 bl))
      by (unfold data; apply index_app; reflexivity).
    change (len (byte_of_Z 0xF3 :: pack_le 4 n)) with 5. clearbody data.
    unfold parse_listpack_entry, unpack_i. rewrite H0. cbn [bindR]. cbv zeta.
    use_masks 0xF3.
    prune. rewrite Hv, (unpack_le_pack_le 4 4 n eq_refl) by (lia || exact Hok).
    cbn [bindR]. rewrite Hbl. reflexivity.
  - (* 64-bit integer *)
    set (data := (byte_of_Z 0xF4 :: pack_le 8 n) ++ [bl] ++ tail).
    assert (Hlen : len data = 10 + len tail)
      by (unfold data, pack_le; rewrite !len_app, !len_cons, len_le_bytes;
          change (len (@nil byte)) with 0; lia).
    assert (H0 : index data 0 = Ok 0xF4)
      by (unfold data; cbn [app]; rewrite index_0; reflexivity).
    assert (Hv : slice data 1 9 = pack_le 8 n)
      by (unfold data; cbn [app]; apply (slice_app [_] (pack_le 8 n)); reflexivity).
    assert (Hbl : index data 9 = Ok (u8 bl))
      by (unfold data; apply index_app; reflexivity).
    change (len (byte_of_Z 0xF4 :: pack_le 8 n)) with 9. clearbody data.
    unfold parse_listpack_entry, unpack_q. rewrite H0. cbn [bindR]. cbv zeta.
    use_masks 0xF4.
    prune. rewrite Hv, (unpack_le_pack_le 8 8 n eq_refl) by (lia || exact Hok).
    cbn [bindR]. rewrite Hbl. reflexivity.
Qed.


Lemma len_lp_entry_short (it : lp_item) :
  lp_short it = true -> 2 <= len (lp_entry it).
Proof.
  unfold lp_short, lp_entry, lp_backlen. intros Hshort. rewrite Hshort, len_app.
  change (len [byte_of_Z (len (lp_body it))]) with 1.
  assert (1 <= len (lp_body it)); [|lia].
  destruct it; cbn [lp_body]; rewrite len_cons;
    match goal with |- 1 <= 1 + len ?l => pose proof (len_nonneg l); lia end.
Qed.

Lemma parse_listpack_loop_items (count : nat) :
  forall (pre : list byte) (items : list lp_item) (post : list byte)
         (result : list elem),
    (count <= List.length items)%nat ->
    forallb lp_item_ok items = true ->
    forallb lp_short items = true ->
    parse_listpack_loop count (pre ++ flat_map lp_entry items ++ post)
                        (len pre) result
    = Ok (result ++ map lp_value (firstn count items)).
Proof.
  induction count as [|count IH]; intros pre items post result Hcount Hok Hshort;
    cbn [parse_listpack_loop].
  - cbn [firstn map]. rewrite app_nil_r. reflexivity.
  - destruct items as [|it items]; [cbn in Hcount; lia|].
    cbn [List.length] in Hcount.
    cbn [forallb] in Hok, Hshort.
    apply andb_true_iff in Hok. destruct Hok as [Hok Hoks].
    apply andb_true_iff in Hshort. destruct Hshort as [Hshort Hshorts].
    pose proof (len_lp_entry_short it Hshort) as He.
    cbn [flat_map firstn map]. rewrite <- (app_assoc (lp_entry it)).
    set (tail := flat_map lp_entry items ++ post).
    pose proof (len_nonneg pre) as Hpre. pose proof (len_nonneg tail) as Htail.
    destruct (Z.geb_spec (len pre) (len (pre ++ lp_entry it ++ tail) - 1)) as [Hge|_].
    { rewrite !len_app in Hge. lia. }
    rewrite slice_from_app.
    rewrite parse_listpack_entry_short
      by (assumption || (apply Z.leb_le; exact Hshort)).
    cbn [append_value].
    destruct (Z.eqb_spec (len (lp_entry it)) 0); [lia|].
    replace (len pre + len (lp_entry it)) with (len (pre ++ lp_entry it))
      by apply len_app.
    rewrite (app_assoc pre (lp_entry it) tail). unfold tail.
    rewrite IH by (assumption || lia).
    rewrite <- app_assoc. reflexivity.
Qed.

(** The decoder on a synthesised listpack whose entries all have a backlen
    of one byte: the values of the items, in order, as many as the element
    count of the header can tell. *)
Lemma parse_listpack_one_byte_backlen (items : list lp_item) :
  forallb lp_item_ok items = true ->
  forallb lp_short items = true ->
  parse_listpack (listpack items)
  = Ok (map lp_value (firstn (Z.to_nat 65535) items)).
Proof.
  intros Hok Hshort. unfold listpack.
  set (body := flat_map lp_entry items).
  set (total := le_bytes 4 (6 + len body + 1)).
  set (count := Z.min (len items) 65535).
  pose proof (len_nonneg items) as Hn. pose proof (len_nonneg body) as Hb.
  set (data := total ++ le_bytes 2 count ++ body ++ [byte_of_Z 255]).
  assert (Hlen : len data = 6 + len body + 1)
    by (unfold data, total; rewrite !len_app, !len_le_bytes;
        change (len [byte_of_Z 255]) with 1; lia).
  assert (H1 : slice data 0 4 = total)
    by (unfold data; apply slice_app_0; unfold total; rewrite len_le_bytes; reflexivity).
  assert (H2 : slice data 4 6 = le_bytes 2 count)
    by (unfold data; apply slice_app; unfold total; rewrite !len_le_bytes; reflexivity).
  assert (Hdata : data = (total ++ le_bytes 2 count) ++ body ++ [byte_of_Z 255])
    by (unfold data; rewrite <- !app_assoc; reflexivity).
  assert (Hpre : len (total ++ le_bytes 2 count) = 6)
    by (unfold total; rewrite !len_app, !len_le_bytes; reflexivity).
  unfold parse_listpack, unpack_I, unpack_H.
  destruct (Z.ltb_spec (len data) 7); [lia|].
  rewrite H1, H2.
  destruct (unpack_le_ok 4 false total) as (v1 & ->);
    [unfold total; rewrite len_le_bytes; reflexivity|].
  rewrite (unpack_le_le_bytes 2 2 count eq_refl) by (unfold count; cbn; lia).
  cbn [bindR].
  rewrite Hdata, <- Hpre at 1. clear H1 H2 Hdata.
  unfold body. rewrite parse_listpack_loop_items
    by (assumption || (unfold count, len; lia)).
  cbn [app]. do 2 f_equal. unfold count, len.
  destruct (Z.min_spec (Z.of_nat (List.length items)) 65535) as [[Hlt ->]|[Hge ->]].
  - rewrite Nat2Z.id. rewrite (firstn_all2 (n := Z.to_nat 65535)) by lia.
    apply firstn_all.
  - reflexivity.
Qed.

End Listpack_entries.

(** ** The container decoders on any buffer *)

Lemma append_value_app (result : list elem) (value : option elem) :
  append_value result value = result ++ append_value [] value.
Proof. destruct value; cbn [append_value app]; [|rewrite app_nil_r]; reflexivity. Qed.

(** The loop of [parse_ziplist] only appends: whatever stops it, the
    entries decoded so far are in what it returns. *)
Lemma parse_ziplist_loop_keeps_result (count : nat) (data : list byte) :
  forall (pos : Z) (result : list elem),
    0 <= pos ->
    exists more, parse_ziplist_loop count data pos result = Ok (result ++ more)
                 /\ len more <= Z.max 0 (len data - pos).
Proof.
  induction count as [|count IH]; intros pos result Hpos; cbn [parse_ziplist_loop].
  - exists []. rewrite app_nil_r. split; [reflexivity | cbn; lia].
  - split_if; [exists []; rewrite app_nil_r; split; [reflexivity | cbn; lia]|].
    read_index.
    split_if; [exists []; rewrite app_nil_r; split; [reflexivity | cbn; lia]|].
    destruct (parse_ziplist_entry_in_buffer (slice_from data pos))
      as (value & bytes_read & -> & Hn).
    rewrite len_slice_from in Hn by lia.
    pose proof (len_append_value [] value) as Hadd.
    change (len (@nil elem)) with 0 in Hadd.
    rewrite (append_value_app result value).
    split_if.
    + eexists; split; [reflexivity | lia].
    + destruct (IH (pos + bytes_read) (result ++ append_value [] value))
        as (more & -> & Hl); [lia|].
      exists (append_value [] value ++ more). rewrite len_app, app_assoc.
      split; [reflexivity | lia].
Qed.

Lemma parse_listpack_loop_keeps_result (count : nat) (data : list byte) :
  forall (pos : Z) (result : list elem),
    0 <= pos ->
    exists more, parse_listpack_loop count data pos result = Ok (result ++ more)
                 /\ len more <= Z.max 0 (len data - pos).
Proof.
  induction count as [|count IH]; intros pos result Hpos; cbn [parse_listpack_loop].
  - exists []. rewrite app_nil_r. split; [reflexivity | cbn; lia].
  - split_if; [exists []; rewrite app_nil_r; split; [reflexivity | cbn; lia]|].
    destruct (parse_listpack_entry_in_buffer (slice_from data pos))
      as (value & bytes_read & -> & Hn).
    rewrite len_slice_from in Hn by lia.
    pose proof (len_append_value [] value) as Hadd.
    change (len (@nil elem)) with 0 in Hadd.
    rewrite (append_value_app result value).
    split_if.
    + eexists; split; [reflexivity | lia].
    + destruct (IH (pos + bytes_read) (result ++ append_value [] value))
        as (more & -> & Hl); [lia|].
      exists (append_value [] value ++ more). rewrite len_app, app_assoc.
      split; [reflexivity | lia].
Qed.

(** X27. The ziplist and the listpack decoder stay inside the buffer and
    truncate.  On every buffer the entry decoders return without an
    exception (every [data[i]] and every [struct.unpack] they reach is
    inside the buffer) and report at most [len(data)] bytes read.  From
    every position [pos >= 0], with any entries [result] decoded so far and
    any number of iterations to run, the loops of [parse_ziplist] and
    [parse_listpack] return without an exception the list [result]
    followed by at most [len(data) - pos] further entries: whatever stops
    the loop, the entries decoded before it are kept.  So the two decoders
    return a list of at most [len(data)] entries, whatever the count and
    length fields claim. *)
Theorem packed_decoders_truncate_and_keep_the_decoded
        (data : list byte) (count : nat) (pos : Z) (result : list elem) :
  0 <= pos ->
  (exists value bytes_read,
      parse_ziplist_entry data = Ok (value, bytes_read)
      /\ 0 <= bytes_read <= len data)
  /\ (exists value bytes_read,
         parse_listpack_entry data = Ok (value, bytes_read)
         /\ 0 <= bytes_read <= len data)
  /\ (exists more,
         parse_ziplist_loop count data pos result = Ok (result ++ more)
         /\ len more <= Z.max 0 (len data - pos))
  /\ (exists more,
         parse_listpack_loop count data pos result = Ok (result ++ more)
         /\ len more <= Z.max 0 (len data - pos))
  /\ (exists l, parse_ziplist data = Ok l /\ len l <= len data)
  /\ (exists l, parse_listpack data = Ok l /\ len l <= len data).
Proof.
  intros Hpos.
  split; [apply parse_ziplist_entry_in_buffer|].
  split; [apply parse_listpack_entry_in_buffer|].
  split; [apply parse_ziplist_loop_keeps_result; exact Hpos|].
  split; [apply parse_listpack_loop_keeps_result; exact Hpos|].
  split; [apply parse_ziplist_in_buffer | apply parse_listpack_in_buffer].
Qed.

(** C6. The code at a failing input: the intset buffer of 16 bytes whose
    header announces two elements of 8 bytes and which holds one, the
    value 1.  The decoder takes 4 for the size of an element.  The first
    turn of the loop decodes ["1"] and moves to offset 12; there the bounds
    test [pos + size > len(intset_bytes)] passes, since 12 + 4 is 16, the
    slice [intset_bytes[12:20]] has only the 4 bytes that are left,
    [struct.unpack('<q', ...)] raises, and the bare [except] returns the
    empty list: the element already decoded is dropped, where the claim
    has the result truncated. *)
Theorem intset_over_read_discards_decoded_elements :
  let data := bytes_of [8; 0; 0; 0; 2; 0; 0; 0; 1; 0; 0; 0; 0; 0; 0; 0] in
  len data = 16
  /\ unpack_I (slice data 0 4) = Ok 8
  /\ unpack_I (slice data 4 8) = Ok 2
  /\ intset_loop 1 data 8 4 8 [] = Ok ["1"%string]
  /\ (12 + 4 >? len data) = false
  /\ len (slice data 12 (12 + 8)) = 4
  /\ (exists e, unpack_q (slice data 12 (12 + 8)) = Raise e)
  /\ (exists e, intset_loop 2 data 8 4 8 [] = Raise e)
  /\ parse_intset data = [].
Proof.
  repeat split; try (vm_compute; reflexivity); eexists; vm_compute; reflexivity.
Qed.

(** ** Byte order of the long lengths *)

(** What [read_length_with_encoding] does after the prefix [0x80]: the next
    four bytes are read with [read_unsigned_int], least significant first. *)
Lemma read_length_with_encoding_32bit (s : parser) (payload rest : list byte) :
  self_file s = byte_of_Z 0x80 :: payload ++ rest ->
  len payload = 4 ->
  read_length_with_encoding s = (Ok (Length (le_uint payload)), set_file s rest).
Proof.
  intros Hf Hlen.
  unfold read_length_with_encoding, bind, read_byte. rewrite Hf.
  change (u8 (byte_of_Z 128)) with 128. cbv beta iota.
  change (Z.shiftr (Z.land 128 192) 6 =? RDB_ENCVAL) with false.
  change (Z.shiftr (Z.land 128 192) 6 =? RDB_6BITLEN) with false.
  change (Z.shiftr (Z.land 128 192) 6 =? RDB_14BITLEN) with false.
  change (Z.shiftr (Z.land 128 192) 6 =? 2) with true.
  change (Z.land 128 63 =? 0) with true. cbv beta iota.
  unfold read_unsigned_int, bind. rewrite <- Hlen.
  rewrite (read_bytes_exact payload rest)
    by (reflexivity || (rewrite Hlen; reflexivity)).
  unfold lift, unpack_I, unpack_le, ret. rewrite Hlen. cbn [Z.eqb Pos.eqb].
  destruct s; reflexivity.
Qed.

(** After the prefix [0x81]: the next eight bytes are read with
    [read_unsigned_long], least significant first. *)
Lemma read_length_with_encoding_64bit (s : parser) (payload rest : list byte) :
  self_file s = byte_of_Z 0x81 :: payload ++ rest ->
  len payload = 8 ->
  read_length_with_encoding s = (Ok (Length (le_uint payload)), set_file s rest).
Proof.
  intros Hf Hlen.
  unfold read_length_with_encoding, bind, read_byte. rewrite Hf.
  change (u8 (byte_of_Z 129)) with 129. cbv beta iota.
  change (Z.shiftr (Z.land 129 192) 6 =? RDB_ENCVAL) with false.
  change (Z.shiftr (Z.land 129 192) 6 =? RDB_6BITLEN) with false.
  change (Z.shiftr (Z.land 129 192) 6 =? RDB_14BITLEN) with false.
  change (Z.shiftr (Z.land 129 192) 6 =? 2) with true.
  change (Z.land 129 63 =? 0) with false.
  change (Z.land 129 63 =? 1) with true. cbv beta iota.
  unfold read_unsigned_long, bind. rewrite <- Hlen.
  rewrite (read_bytes_exact payload rest)
    by (reflexivity || (rewrite Hlen; reflexivity)).
  unfold lift, unpack_Q, unpack_le, ret. rewrite Hlen. cbn [Z.eqb Pos.eqb].
  destruct s; reflexivity.
Qed.

(** C4. The code at a failing input: after the prefix [0x80] the bytes
    [00 00 01 00] are decoded as 65536, their little-endian value, and not
    as 256, their big-endian value; after [0x81] the bytes
    [00 00 00 00 00 00 01 00] are decoded as 2^48 and not as 256. *)
Theorem long_lengths_read_little_endian :
  fst (read_length_with_encoding (new_parser (bytes_of [0x80; 0; 0; 1; 0]) false))
  = Ok (Length 65536)
  /\ be_uint (bytes_of [0; 0; 1; 0]) = 256
  /\ fst (read_length_with_encoding
            (new_parser (bytes_of [0x81; 0; 0; 0; 0; 0; 0; 1; 0]) false))
     = Ok (Length (2 ^ 48))
  /\ be_uint (bytes_of [0; 0; 0; 0; 0; 0; 1; 0]) = 256.
Proof. repeat split; vm_compute; reflexivity. Qed.

(** ** The decoders on synthesised containers *)

(** C1. The code at a failing input: the ziplist with the single entry
    [10000000], the length 1 on four bytes big-endian, and the payload [a].
    The decoder reads the length as 0x01000000, finds it larger than the
    buffer, and returns no element, where the entry stands for one string.
    (Without an entry of this encoding the values come back as synthesised,
    the first 999999 of them: [parse_ziplist_without_str32].) *)
Theorem ziplist_str32_entry_is_lost :
  let items := [ZlStr32 (ascii_bytes "a")] in
  forallb zl_item_ok items = true
  /\ map u8 (ziplist items)
     = [18; 0; 0; 0; 10; 0; 0; 0; 1; 0; 0; 0x80; 0; 0; 0; 1; 0x61; 0xFF]
  /\ parse_ziplist (ziplist items) = Ok []
  /\ List.length (map zl_value items) = 1%nat.
Proof. repeat split; vm_compute; reflexivity. Qed.

(** C5. The code at a failing input: the listpack of a string of 127 bytes,
    whose entry has 128 bytes before the backlen so that the backlen is on
    two bytes ([01 80]), followed by the integer 5.  The decoder takes one
    byte of backlen, reads the second one as the start of an entry, and
    stops: it returns the string alone.  (When every backlen is one byte the
    values come back as synthesised, as many as the element count of the
    header tells: [parse_listpack_one_byte_backlen].) *)
Theorem listpack_two_byte_backlen_is_misread :
  let payload := repeat "a"%byte 127 in
  let items := [LpStr7 payload; LpUint6 5] in
  forallb lp_item_ok items = true
  /\ map u8 (lp_backlen (len (lp_body (LpStr7 payload)))) = [1; 128]
  /\ parse_listpack (listpack items) = Ok [EStr (utf8_decode payload)]
  /\ map lp_value items = [EStr (utf8_decode payload); EInt 5].
Proof. repeat split; vm_compute; reflexivity. Qed.

(** C2. The code at a failing input, the third scenario of the
    specification: the intset with elements of 2 bytes and the values -1, 2
    and 30000.  The decoder takes 8 for the size of an element, finds that
    8 bytes do not fit in the 6 that follow the header, and returns no
    element.  With elements of 8 bytes it steps by 4 and returns a value
    that is not in the set.  (With elements of 4 bytes the values come back
    as synthesised, the first 1000 of them: [parse_intset_width4].) *)
Theorem intset_of_shorts_decodes_to_nothing :
  map u8 (intset 2 [-1; 2; 30000])
  = [2; 0; 0; 0; 3; 0; 0; 0; 0xFF; 0xFF; 2; 0; 0x30; 0x75]
  /\ parse_intset (intset 2 [-1; 2; 30000]) = []
  /\ parse_intset (intset 8 [-1; 2; 30000])
     = ["-1"; "12884901887"; "2"]%string.
Proof. repeat split; vm_compute; reflexivity. Qed.

(** * More on the readers, the decoders and the record loop *)

(** ** Bytes and [struct.pack] *)

Lemma byte_of_Z_u8 (b : byte) : byte_of_Z (u8 b) = b.
Proof. destruct b; reflexivity. Qed.

(** The two top bits of a byte. *)
Lemma byte_enc_type (b : byte) : Z.shiftr (Z.land (u8 b) 0xC0) 6 = u8 b / 64.
Proof. destruct b; vm_compute; reflexivity. Qed.

Lemma le_uint_bound (bs : list byte) : le_uint bs < 2 ^ (8 * len bs).
Proof.
  induction bs as [|b bs IH]; cbn [le_uint].
  - reflexivity.
  - rewrite len_cons. pose proof (u8_range b). pose proof (len_nonneg bs).
    replace (8 * (1 + len bs)) with (8 + 8 * len bs) by lia.
    rewrite Z.pow_add_r by lia. change (2 ^ 8) with 256. lia.
Qed.

Lemma le_bytes_le_uint (bs : list byte) :
  le_bytes (List.length bs) (le_uint bs) = bs.
Proof.
  induction bs as [|b bs IH]; cbn [List.length le_bytes le_uint]; [reflexivity|].
  pose proof (u8_range b).
  replace (byte_of_Z (u8 b + 256 * le_uint bs)) with b.
  - f_equal. replace ((u8 b + 256 * le_uint bs) / 256) with (le_uint bs) by divlia.
    exact IH.
  - rewrite <- (byte_of_Z_u8 b) at 1. unfold byte_of_Z.
    replace ((u8 b + 256 * le_uint bs) mod 256) with (u8 b mod 256) by divlia.
    reflexivity.
Qed.

Lemma to_signed_mod_pow (bits v : Z) :
  0 < bits -> 0 <= v < 2 ^ bits -> to_signed bits v mod 2 ^ bits = v.
Proof.
  intros Hb Hv. unfold to_signed.
  destruct (v <? 2 ^ (bits - 1)).
  - apply Z.mod_small. exact Hv.
  - replace (v - 2 ^ bits) with (v + (-1) * 2 ^ bits) by lia.
    rewrite Z.mod_add by lia. apply Z.mod_small. exact Hv.
Qed.

(** [struct.pack] gives back the bytes that [struct.unpack] was given. *)
Lemma pack_le_to_signed (width : nat) (bs : list byte) :
  List.length bs = width -> (0 < width)%nat ->
  pack_le width (to_signed (8 * Z.of_nat width) (le_uint bs)) = bs.
Proof.
  intros Hlen Hw. unfold pack_le.
  rewrite to_signed_mod_pow.
  - rewrite <- Hlen. apply le_bytes_le_uint.
  - lia.
  - split; [apply le_uint_nonneg|].
    pose proof (le_uint_bound bs) as Hb. unfold len in Hb. rewrite Hlen in Hb. exact Hb.
Qed.

Lemma unpack_unsigned_slice (data : list byte) (a b w : Z) :
  0 <= a -> b = a + w -> 0 <= w -> b <= len data ->
  unpack_le w false (slice data a b) = Ok (le_uint (slice data a b)).
Proof.
  intros Ha -> Hw Hb. unfold unpack_le. rewrite len_slice by lia.
  replace (a + w - a) with w by lia. rewrite Z.eqb_refl. reflexivity.
Qed.

(** ** Steps of the monad *)

Lemma bind_ok {A B} (m : M A) (k : A -> M B) (s s' : parser) (a : A) :
  m s = (Ok a, s') -> bind m k s = k a s'.
Proof. intros H. unfold bind. rewrite H. reflexivity. Qed.

Lemma set_file_set_file (s : parser) (f g : list byte) :
  set_file (set_file s f) g = set_file s g.
Proof. reflexivity. Qed.

Lemma read_byte_cons (s : parser) (b : byte) (rest : list byte) :
  self_file s = b :: rest -> read_byte s = (Ok (u8 b), set_file s rest).
Proof. intros Hf. unfold read_byte. rewrite Hf. reflexivity. Qed.

(** [repeatM] over items laid out one after the other. *)
Lemma repeatM_items {A B} (m : M A) (enc : B -> list byte) (dec : B -> A)
      (P : B -> Prop) :
  (forall s x rest, P x -> self_file s = enc x ++ rest ->
                    m s = (Ok (dec x), set_file s rest)) ->
  forall xs s rest,
    Forall P xs ->
    self_file s = flat_map enc xs ++ rest ->
    repeatM (List.length xs) m s = (Ok (map dec xs), set_file s rest).
Proof.
  intros Hm. induction xs as [|x xs IH]; intros s rest HP Hf;
    cbn [List.length repeatM map flat_map] in *.
  - cbn [app] in Hf. unfold ret. rewrite <- Hf. destruct s; reflexivity.
  - inversion HP as [|? ? Hx Hxs]; subst.
    rewrite <- app_assoc in Hf. unfold bind.
    rewrite (Hm s x _ Hx Hf).
    rewrite (IH (set_file s (flat_map enc xs ++ rest)) rest Hxs eq_refl).
    reflexivity.
Qed.

Lemma forallb_Forall {A} (f : A -> bool) (l : list A) :
  forallb f l = true -> Forall (fun x => f x = true) l.
Proof.
  intros H. apply Forall_forall. intros x Hx.
  exact (proj1 (forallb_forall f l) H x Hx).
Qed.

(** ** The length prefix *)

Lemma read_length_with_encoding_6bit (s : parser) (b : byte) (rest : list byte) :
  self_file s = b :: rest -> u8 b < 64 ->
  read_length_with_encoding s = (Ok (Length (u8 b)), set_file s rest).
Proof.
  intros Hf Hb. pose proof (u8_range b) as Hr.
  unfold read_length_with_encoding, bind. rewrite (read_byte_cons _ _ _ Hf).
  rewrite byte_enc_type. use_masks (u8 b).
  replace (u8 b / 64) with 0 by divlia.
  cbn [Z.eqb RDB_ENCVAL RDB_6BITLEN]. unfold ret.
  replace (u8 b mod 64) with (u8 b) by divlia. reflexivity.
Qed.

Lemma read_length_with_encoding_14bit (s : parser) (b c : byte) (rest : list byte) :
  self_file s = b :: c :: rest -> 64 <= u8 b < 128 ->
  read_length_with_encoding s
  = (Ok (Length (256 * (u8 b - 64) + u8 c)), set_file s rest).
Proof.
  intros Hf Hb. pose proof (u8_range c) as Hc.
  unfold read_length_with_encoding, bind. rewrite (read_byte_cons _ _ _ Hf).
  rewrite byte_enc_type. use_masks (u8 b).
  replace (u8 b / 64) with 1 by divlia.
  cbn [Z.eqb Pos.eqb RDB_ENCVAL RDB_6BITLEN RDB_14BITLEN].
  rewrite (read_byte_cons (set_file s (c :: rest)) c rest) by reflexivity.
  unfold ret. rewrite lor_shiftl_8 by exact Hc.
  replace (u8 b mod 64 * 256 + u8 c) with (256 * (u8 b - 64) + u8 c) by divlia.
  reflexivity.
Qed.

(** A first byte [11xxxxxx] announces a special encoding. *)
Lemma read_length_with_encoding_encoded (s : parser) (b : byte) (rest : list byte) :
  self_file s = b :: rest -> 192 <= u8 b ->
  read_length_with_encoding s = (Ok (Encoded (u8 b - 192)), set_file s rest).
Proof.
  intros Hf Hb. pose proof (u8_range b) as Hr.
  unfold read_length_with_encoding, bind. rewrite (read_byte_cons _ _ _ Hf).
  rewrite byte_enc_type. use_masks (u8 b).
  replace (u8 b / 64) with 3 by divlia.
  cbn [Z.eqb Pos.eqb RDB_ENCVAL]. unfold ret.
  replace (u8 b mod 64) with (u8 b - 192) by divlia. reflexivity.
Qed.

Lemma read_length_with_encoding_short (s : parser) (n : Z) (rest : list byte) :
  0 <= n < 16384 ->
  self_file s = rdb_length n ++ rest ->
  read_length_with_encoding s = (Ok (Length n), set_file s rest).
Proof.
  intros Hn. unfold rdb_length. destruct (Z.ltb_spec n 64) as [Hs|Hl]; cbn [app]; intros Hf.
  - rewrite (read_length_with_encoding_6bit _ _ _ Hf); rewrite u8_byte_of_Z by lia;
      [reflexivity | lia].
  - rewrite (read_length_with_encoding_14bit _ _ _ _ Hf);
      rewrite !u8_byte_of_Z by divlia; [|divlia].
    replace (256 * (64 + n / 256 - 64) + n mod 256) with n by divlia. reflexivity.
Qed.

Lemma short_length_bounds (n : Z) : short_length n = true -> 0 <= n < 16384.
Proof. unfold short_length. rewrite andb_true_iff, Z.leb_le, Z.ltb_lt. tauto. Qed.

Lemma read_length_rdb_length (s : parser) (n : Z) (rest : list byte) :
  short_length n = true ->
  self_file s = rdb_length n ++ rest ->
  read_length s = (Ok n, set_file s rest).
Proof.
  intros Hn Hf. unfold read_length, bind.
  rewrite (read_length_with_encoding_short _ _ _ (short_length_bounds _ Hn) Hf).
  reflexivity.
Qed.

(** X1. For every length [n] below 2^14, [read_length] on a file that
    starts with the prefix of [n] (one byte [00xxxxxx] below 64, else the two
    bytes [01xxxxxx xxxxxxxx], high bits first) returns [n] and leaves the
    file right after the prefix. *)
Theorem read_length_inverts_short_prefix (s : parser) (n : Z) (rest : list byte) :
  0 <= n < 16384 ->
  self_file s = rdb_length n ++ rest ->
  read_length s = (Ok n, set_file s rest).
Proof.
  intros Hn Hf. unfold read_length, bind.
  rewrite (read_length_with_encoding_short _ _ _ Hn Hf). reflexivity.
Qed.

(** X2. Where a length is expected, a first byte [11xxxxxx] (a special
    string encoding) makes [read_length] raise [ValueError("Unexpected
    encoded value in length")]; that byte is consumed and nothing more. *)
Theorem read_length_refuses_encoded_prefix (s : parser) (b : byte) (rest : list byte) :
  self_file s = b :: rest ->
  192 <= u8 b ->
  read_length s
  = (Raise (Exn ValueError "Unexpected encoded value in length"), set_file s rest).
Proof.
  intros Hf Hb. unfold read_length, bind.
  rewrite (read_length_with_encoding_encoded s b rest Hf Hb). reflexivity.
Qed.

(** ** Strings *)

Lemma read_string_plain (s s1 : parser) (n : Z) (payload rest : list byte) :
  read_length_with_encoding s = (Ok (Length n), s1) ->
  0 < n <= 104857600 ->
  self_file s1 = payload ++ rest ->
  len payload = n ->
  read_string s = (Ok (utf8_decode payload), set_file s1 rest).
Proof.
  intros Hl Hn Hf Hp. unfold read_string, bind. rewrite Hl.
  change (1024 * 1024 * 100) with 104857600.
  destruct (Z.eqb_spec n 0); [lia|].
  destruct (Z.ltb_spec n 0); [lia|].
  destruct (Z.gtb_spec n 104857600); [lia|]. cbn [orb].
  rewrite <- Hp, (read_bytes_exact payload rest s1 ltac:(lia) Hf). reflexivity.
Qed.

Lemma read_string_raw_plain (s s1 : parser) (n : Z) (payload rest : list byte) :
  read_length_with_encoding s = (Ok (Length n), s1) ->
  n < 2 ^ 63 ->
  self_file s1 = payload ++ rest ->
  len payload = n ->
  read_string_raw s = (Ok (Some payload), set_file s1 rest).
Proof.
  intros Hl Hn Hf Hp. unfold read_string_raw, bind. rewrite Hl.
  destruct (Z.eqb_spec n 0) as [H0|H0].
  - destruct payload; [|rewrite len_cons in Hp; pose proof (len_nonneg payload); lia].
    cbn [app] in Hf. unfold ret. rewrite <- Hf. destruct s1; reflexivity.
  - rewrite <- Hp, (read_bytes_exact payload rest s1 ltac:(lia) Hf). reflexivity.
Qed.

Lemma read_string_empty (s s1 : parser) :
  read_length_with_encoding s = (Ok (Length 0), s1) ->
  read_string s = (Ok ""%string, s1).
Proof. intros Hl. unfold read_string, bind. rewrite Hl. reflexivity. Qed.

Lemma read_string_short (s : parser) (payload rest : list byte) :
  len payload < 16384 ->
  self_file s = rdb_string payload ++ rest ->
  read_string s = (Ok (decode_payload payload), set_file s rest).
Proof.
  intros Hlen Hf. unfold rdb_string in Hf. rewrite <- app_assoc in Hf.
  pose proof (len_nonneg payload) as Hnn.
  pose proof (read_length_with_encoding_short s (len payload) (payload ++ rest)
                ltac:(lia) Hf) as Hl.
  unfold decode_payload. destruct (Z.eqb_spec (len payload) 0) as [H0|H0].
  - rewrite H0 in Hl. rewrite (read_string_empty _ _ Hl).
    destruct payload;
      [reflexivity | rewrite len_cons in H0; pose proof (len_nonneg payload); lia].
  - rewrite (read_string_plain s _ (len payload) payload rest Hl);
      [reflexivity | lia | reflexivity | reflexivity].
Qed.

Lemma read_string_raw_short (s : parser) (payload rest : list byte) :
  len payload < 16384 ->
  self_file s = rdb_string payload ++ rest ->
  read_string_raw s = (Ok (Some payload), set_file s rest).
Proof.
  intros Hlen Hf. unfold rdb_string in Hf. rewrite <- app_assoc in Hf.
  pose proof (len_nonneg payload) as Hnn.
  pose proof (read_length_with_encoding_short s (len payload) (payload ++ rest)
                ltac:(lia) Hf) as Hl.
  rewrite (read_string_raw_plain s _ (len payload) payload rest Hl);
    [reflexivity | lia | reflexivity | reflexivity].
Qed.

(** X3. After a length prefix of any form that gives a length [n] between 1
    and 100 MiB, when [n] bytes follow, [read_string] returns their UTF-8
    decoding and [read_string_raw] returns the bytes themselves, and both
    leave the file right after them. *)
Theorem length_prefixed_string_is_read_whole
        (s s1 : parser) (n : Z) (payload rest : list byte) :
  read_length_with_encoding s = (Ok (Length n), s1) ->
  0 < n <= 104857600 ->
  self_file s1 = payload ++ rest ->
  len payload = n ->
  read_string s = (Ok (utf8_decode payload), set_file s1 rest)
  /\ read_string_raw s = (Ok (Some payload), set_file s1 rest).
Proof.
  intros Hl Hn Hf Hp. split.
  - apply (read_string_plain s s1 n); assumption.
  - apply (read_string_raw_plain s s1 n); (assumption || lia).
Qed.

(** X4. A length above 100 MiB is not followed: [read_string] returns the
    text [<invalid_length:n>] and reads nothing after the prefix, so the
    bytes of the string are still in the file; read as a key, that text is
    one of the keys the record loop skips. *)
Theorem oversized_string_is_not_read (s s1 : parser) (n : Z) :
  read_length_with_encoding s = (Ok (Length n), s1) ->
  104857600 < n ->
  let placeholder := ("<invalid_length:" ++ str_of_Z n ++ ">")%string in
  read_string s = (Ok placeholder, s1)
  /\ invalid_key placeholder = true.
Proof.
  intros Hl Hn placeholder. split; [|reflexivity].
  unfold read_string, bind. rewrite Hl.
  change (1024 * 1024 * 100) with 104857600.
  destruct (Z.eqb_spec n 0); [lia|].
  destruct (Z.gtb_spec n 104857600); [|lia]. rewrite orb_true_r. reflexivity.
Qed.

(** X5. The integer encodings of a string: after the first byte [0xC0 + k],
    for [k] = 0, 1, 2, come 2^k bytes.  [read_string] returns the decimal
    text of their little-endian two's complement value, [read_string_raw]
    returns the same bytes ([struct.pack] undoes [struct.unpack]), and both
    leave the file right after them. *)
Theorem integer_encoded_string
        (s : parser) (k : nat) (payload rest : list byte) :
  (k <= 2)%nat ->
  List.length payload = (2 ^ k)%nat ->
  self_file s = byte_of_Z (0xC0 + Z.of_nat k) :: payload ++ rest ->
  read_string s
  = (Ok (str_of_Z (to_signed (8 * 2 ^ Z.of_nat k) (le_uint payload))), set_file s rest)
  /\ read_string_raw s = (Ok (Some payload), set_file s rest).
Proof.
  intros Hk Hlen Hf.
  assert (Hl : read_length_with_encoding s
               = (Ok (Encoded (Z.of_nat k)), set_file s (payload ++ rest))).
  { rewrite (read_length_with_encoding_encoded _ _ _ Hf);
      rewrite u8_byte_of_Z by lia; [|lia].
    do 2 f_equal. f_equal. lia. }
  assert (Hp : len payload = 2 ^ Z.of_nat k).
  { unfold len. rewrite Hlen.
    destruct k as [|[|[|k]]]; [reflexivity | reflexivity | reflexivity | lia]. }
  unfold read_string, read_string_raw, bind. rewrite Hl.
  unfold read_signed_byte, read_signed_short, read_signed_int, bind, lift, ret.
  destruct k as [|[|[|k]]]; [| | |lia];
    cbn [Z.of_nat Pos.of_succ_nat Pos.succ Z.eqb Pos.eqb
         RDB_ENC_INT8 RDB_ENC_INT16 RDB_ENC_INT32] in *;
    cbv beta iota.
  - change (2 ^ 0) with 1 in *. rewrite <- Hp at 1 3.
    rewrite (read_bytes_exact payload rest)
      by (reflexivity || (rewrite Hp; reflexivity)).
    unfold unpack_b, unpack_le. rewrite Hp. cbn [Z.eqb Pos.eqb].
    split; [reflexivity|]. do 3 f_equal.
    destruct payload as [|b [|? ?]]; try discriminate.
    cbn [le_uint]. replace (u8 b + 256 * 0) with (u8 b) by lia.
    change 255 with (Z.ones 8). rewrite Z.land_ones by lia.
    pose proof (u8_range b).
    rewrite (to_signed_mod_pow 8) by (cbn; lia).
    rewrite byte_of_Z_u8. reflexivity.
  - change (2 ^ 1) with 2 in *. rewrite <- Hp at 1 3.
    rewrite (read_bytes_exact payload rest)
      by (reflexivity || (rewrite Hp; reflexivity)).
    unfold unpack_h, unpack_le. rewrite Hp. cbn [Z.eqb Pos.eqb].
    split; [reflexivity|]. do 3 f_equal.
    apply (pack_le_to_signed 2 payload); [exact Hlen | lia].
  - change (2 ^ 2) with 4 in *. rewrite <- Hp at 1 3.
    rewrite (read_bytes_exact payload rest)
      by (reflexivity || (rewrite Hp; reflexivity)).
    unfold unpack_i, unpack_le. rewrite Hp. cbn [Z.eqb Pos.eqb].
    split; [reflexivity|]. do 3 f_equal.
    apply (pack_le_to_signed 4 payload); [exact Hlen | lia].
Qed.

(** X6. A first byte [0xC4] to [0xFF] announces an encoding that the
    readers do not know.  Only that byte is consumed: [read_string] returns
    the text [<parse_error_enc:N>] with [N] the low six bits,
    [read_string_raw] returns the empty [bytes], and as a key the text is
    one the record loop skips. *)
Theorem unknown_string_encoding_gives_placeholder
        (s : parser) (b : byte) (rest : list byte) :
  self_file s = b :: rest ->
  196 <= u8 b ->
  let placeholder := ("<parse_error_enc:" ++ str_of_Z (u8 b - 192) ++ ">")%string in
  read_string s = (Ok placeholder, set_file s rest)
  /\ read_string_raw s = (Ok (Some []), set_file s rest)
  /\ invalid_key placeholder = true.
Proof.
  intros Hf Hb placeholder.
  pose proof (read_length_with_encoding_encoded s b rest Hf ltac:(lia)) as Hl.
  unfold read_string, read_string_raw, bind. rewrite Hl.
  unfold RDB_ENC_INT8, RDB_ENC_INT16, RDB_ENC_INT32, RDB_ENC_LZF.
  destruct (Z.eqb_spec (u8 b - 192) 0); [lia|].
  destruct (Z.eqb_spec (u8 b - 192) 1); [lia|].
  destruct (Z.eqb_spec (u8 b - 192) 2); [lia|].
  destruct (Z.eqb_spec (u8 b - 192) 3); [lia|].
  repeat split; reflexivity.
Qed.

(** X7. A compressed string, once it is all in the file, never makes the
    readers raise, whatever [lzf_decompress] does: after the byte [0xC3],
    when [read_length] reads the compressed length and then the
    uncompressed length (each in any of its prefix forms), the compressed
    length is below 2^63 and that many bytes follow, both readers leave the
    file right after the compressed bytes.  [read_string] returns the
    decoding of the decompressed bytes, and the text [<compressed:N bytes>]
    when decompression raises or returns [None]; [read_string_raw] returns
    what decompression returned, and the compressed bytes when it raises. *)
Theorem compressed_string_never_raises
        (s s2 s3 : parser) (compressed_len uncompressed_len : Z)
        (lengths compressed_data rest : list byte) :
  self_file s = byte_of_Z 0xC3 :: lengths ->
  read_length (set_file s lengths) = (Ok compressed_len, s2) ->
  read_length s2 = (Ok uncompressed_len, s3) ->
  compressed_len < 2 ^ 63 ->
  self_file s3 = compressed_data ++ rest ->
  len compressed_data = compressed_len ->
  read_string s
  = (Ok (match lzf_decompress compressed_data uncompressed_len with
         | Ok (Some uncompressed) => utf8_decode uncompressed
         | _ => ("<compressed:" ++ str_of_Z compressed_len ++ " bytes>")%string
         end),
     set_file s3 rest)
  /\ read_string_raw s
     = (Ok (match lzf_decompress compressed_data uncompressed_len with
            | Ok uncompressed => uncompressed
            | Raise _ => Some compressed_data
            end),
        set_file s3 rest).
Proof.
  intros Hf Hc Hu Hsize Hd Hlen.
  assert (Hl : read_length_with_encoding s
               = (Ok (Encoded RDB_ENC_LZF), set_file s lengths)).
  { rewrite (read_length_with_encoding_encoded _ _ _ Hf);
      rewrite u8_byte_of_Z by lia; [reflexivity | lia]. }
  unfold read_string, read_string_raw.
  rewrite !(bind_ok _ _ _ _ _ Hl).
  change (RDB_ENC_LZF =? RDB_ENC_INT8) with false.
  change (RDB_ENC_LZF =? RDB_ENC_INT16) with false.
  change (RDB_ENC_LZF =? RDB_ENC_INT32) with false.
  change (RDB_ENC_LZF =? RDB_ENC_LZF) with true. cbv iota.
  rewrite !(bind_ok _ _ _ _ _ Hc), !(bind_ok _ _ _ _ _ Hu).
  subst compressed_len.
  rewrite !(bind_ok _ _ _ _ _ (read_bytes_exact compressed_data rest s3 Hsize Hd)).
  split; reflexivity.
Qed.

(** ** The packed containers *)

(** X8. [parse_ziplist] follows the entries, not the header: on a buffer
    made of any four bytes for [zlbytes], any four bytes for [zltail], a
    count [zllen], entries of every encoding but the 32-bit string, and the
    terminator [0xFF], it returns the values of the entries in order: the
    first [zllen] of them when [zllen] is below 65535 (all of them when the
    count is larger than their number, the terminator ending the
    traversal), and the first 999999 when [zllen] is 65535. *)
Theorem parse_ziplist_follows_entries
        (zlbytes zltail : list byte) (zllen : Z) (items : list zl_item) :
  len zlbytes = 4 ->
  len zltail = 4 ->
  0 <= zllen < 65536 ->
  forallb zl_item_ok items = true ->
  forallb zl_not_str32 items = true ->
  parse_ziplist (zlbytes ++ zltail ++ le_bytes 2 zllen
                 ++ zl_entries 0 items ++ [byte_of_Z 0xFF])
  = Ok (map zl_value
            (firstn (Z.to_nat (if zllen <? 65535 then zllen else 999999)) items)).
Proof.
  intros H1 H2 Hc Hok Hle.
  set (body := zl_entries 0 items).
  pose proof (len_nonneg body) as Hb.
  set (data := zlbytes ++ zltail ++ le_bytes 2 zllen ++ body ++ [byte_of_Z 255]).
  assert (Hlen : len data = 10 + len body + 1)
    by (unfold data; rewrite !len_app, !len_le_bytes, H1, H2;
        change (len [byte_of_Z 255]) with 1; lia).
  assert (S1 : slice data 0 4 = zlbytes)
    by (unfold data; apply slice_app_0; symmetry; exact H1).
  assert (S2 : slice data 4 8 = zltail)
    by (unfold data; apply slice_app; rewrite ?H1, ?H2; reflexivity).
  assert (S3 : slice data 8 10 = le_bytes 2 zllen).
  { unfold data. rewrite (app_assoc zlbytes zltail).
    apply slice_app; rewrite ?len_app, ?len_le_bytes, ?H1, ?H2; reflexivity. }
  assert (Hdata : data = (zlbytes ++ zltail ++ le_bytes 2 zllen) ++ body ++ [byte_of_Z 255])
    by (unfold data; rewrite <- !app_assoc; reflexivity).
  assert (Hpre : len (zlbytes ++ zltail ++ le_bytes 2 zllen) = 10)
    by (rewrite !len_app, !len_le_bytes, H1, H2; reflexivity).
  unfold parse_ziplist, unpack_I, unpack_H.
  destruct (Z.ltb_spec (len data) 10); [lia|].
  rewrite S1, S2, S3.
  destruct (unpack_le_ok 4 false zlbytes H1) as (v1 & ->).
  destruct (unpack_le_ok 4 false zltail H2) as (v2 & ->).
  rewrite (unpack_le_le_bytes 2 2 zllen eq_refl) by (cbn; lia).
  cbn [bindR].
  rewrite Hdata, <- Hpre at 1. clear S1 S2 S3 Hdata.
  unfold body. rewrite parse_ziplist_loop_items by (assumption || cbn; lia).
  reflexivity.
Qed.

(** The loop of [parse_listpack] before the terminator, whatever the count. *)
Lemma parse_listpack_loop_terminated (decode_empty : utf8_decode [] = ""%string)
      (count : nat) :
  forall (pre : list byte) (items : list lp_item) (result : list elem),
    forallb lp_item_ok items = true ->
    forallb lp_short items = true ->
    parse_listpack_loop count (pre ++ flat_map lp_entry items ++ [byte_of_Z 0xFF])
                        (len pre) result
    = Ok (result ++ map lp_value (firstn count items)).
Proof.
  induction count as [|count IH]; intros pre items result Hok Hshort;
    cbn [parse_listpack_loop].
  - cbn [firstn map]. rewrite app_nil_r. reflexivity.
  - pose proof (len_nonneg pre) as Hpre.
    destruct items as [|it items]; cbn [flat_map firstn map].
    + cbn [app]. rewrite len_app. change (len [byte_of_Z 255]) with 1.
      destruct (Z.geb_spec (len pre) (len pre + 1 - 1)); [|lia].
      rewrite app_nil_r. reflexivity.
    + cbn [forallb] in Hok, Hshort.
      apply andb_true_iff in Hok. destruct Hok as [Hok Hoks].
      apply andb_true_iff in Hshort. destruct Hshort as [Hshort Hshorts].
      pose proof (len_lp_entry_short it Hshort) as He.
      rewrite <- (app_assoc (lp_entry it)).
      set (tail := flat_map lp_entry items ++ [byte_of_Z 255]).
      pose proof (len_nonneg tail) as Htail.
      destruct (Z.geb_spec (len pre) (len (pre ++ lp_entry it ++ tail) - 1)) as [Hge|_].
      { rewrite !len_app in Hge. lia. }
      rewrite slice_from_app.
      rewrite (parse_listpack_entry_short decode_empty)
        by (assumption || (apply Z.leb_le; exact Hshort)).
      cbn [append_value].
      destruct (Z.eqb_spec (len (lp_entry it)) 0); [lia|].
      replace (len pre + len (lp_entry it)) with (len (pre ++ lp_entry it))
        by apply len_app.
      rewrite (app_assoc pre (lp_entry it) tail). unfold tail.
      rewrite IH by assumption.
      rewrite <- app_assoc. reflexivity.
Qed.

(** X9. [parse_listpack] follows the entries and the element count: on a
    buffer made of any four bytes for the total size, a count
    [num_elements], entries whose backlen is one byte, and the terminator
    [0xFF], it returns the values of the first [num_elements] entries in
    order, and all of them when the count is larger than their number
    (given that decoding the empty payload gives the empty string, which
    the decoder returns as a literal). *)
Theorem parse_listpack_follows_entries
        (total_bytes : list byte) (num_elements : Z) (items : list lp_item) :
  utf8_decode [] = ""%string ->
  len total_bytes = 4 ->
  0 <= num_elements < 65536 ->
  forallb lp_item_ok items = true ->
  forallb lp_short items = true ->
  parse_listpack (total_bytes ++ le_bytes 2 num_elements
                  ++ flat_map lp_entry items ++ [byte_of_Z 0xFF])
  = Ok (map lp_value (firstn (Z.to_nat num_elements) items)).
Proof.
  intros decode_empty H1 Hc Hok Hshort.
  set (body := flat_map lp_entry items).
  pose proof (len_nonneg body) as Hb.
  set (data := total_bytes ++ le_bytes 2 num_elements ++ body ++ [byte_of_Z 255]).
  assert (Hlen : len data = 6 + len body + 1)
    by (unfold data; rewrite !len_app, !len_le_bytes, H1;
        change (len [byte_of_Z 255]) with 1; lia).
  assert (S1 : slice data 0 4 = total_bytes)
    by (unfold data; apply slice_app_0; symmetry; exact H1).
  assert (S2 : slice data 4 6 = le_bytes 2 num_elements)
    by (unfold data; apply slice_app; rewrite ?len_le_bytes, ?H1; reflexivity).
  assert (Hdata : data = (total_bytes ++ le_bytes 2 num_elements) ++ body ++ [byte_of_Z 255])
    by (unfold data; rewrite <- !app_assoc; reflexivity).
  assert (Hpre : len (total_bytes ++ le_bytes 2 num_elements) = 6)
    by (rewrite !len_app, !len_le_bytes, H1; reflexivity).
  unfold parse_listpack, unpack_I, unpack_H.
  destruct (Z.ltb_spec (len data) 7); [lia|].
  rewrite S1, S2.
  destruct (unpack_le_ok 4 false total_bytes H1) as (v1 & ->).
  rewrite (unpack_le_le_bytes 2 2 num_elements eq_refl) by (cbn; lia).
  cbn [bindR].
  rewrite Hdata, <- Hpre at 1. clear S1 S2 Hdata.
  unfold body. rewrite (parse_listpack_loop_terminated decode_empty) by assumption.
  reflexivity.
Qed.

(** X10. The intset decoder on elements of four bytes: whatever count the
    header gives, it returns the decimal texts of the values in the order of
    the buffer, as many as the smallest of that count, the number of
    elements present and 1000. *)
Theorem intset_of_ints_follows_count_and_cap (count : Z) (values : list Z) :
  0 <= count < 2 ^ 32 ->
  forallb (in_signed 32) values = true ->
  parse_intset (le_bytes 4 4 ++ le_bytes 4 count ++ flat_map (pack_le 4) values)
  = map str_of_Z (firstn (Z.to_nat (Z.min count 1000)) values).
Proof.
  intros Hcount Hok. unfold parse_intset.
  pose proof (len_nonneg (flat_map (pack_le 4) values)) as Hnn.
  destruct (Z.ltb_spec
              (len (le_bytes 4 4 ++ le_bytes 4 count
                    ++ flat_map (pack_le 4) values)) 8) as [Hlt|_].
  { rewrite !len_app, !len_le_bytes in Hlt. lia. }
  unfold unpack_I.
  rewrite (slice_app_0 (le_bytes 4 4)) by reflexivity.
  rewrite (unpack_le_le_bytes 4 4 4 eq_refl) by (cbn; lia). cbn [bindR].
  rewrite (slice_app (le_bytes 4 4) (le_bytes 4 count)) by reflexivity.
  rewrite (unpack_le_le_bytes 4 4 count eq_refl) by exact Hcount. cbn [bindR].
  change (4 <? 3) with false. cbv beta iota.
  rewrite (app_assoc (le_bytes 4 4)).
  change 8 with (len (le_bytes 4 4 ++ le_bytes 4 count)) at 1.
  rewrite intset_loop_width4 by exact Hok. reflexivity.
Qed.

Lemma parse_ziplist_loop_count (count : nat) (data : list byte) :
  forall (pos : Z) (result : list elem),
    0 <= pos ->
    exists l, parse_ziplist_loop count data pos result = Ok l
              /\ len l <= len result + Z.of_nat count.
Proof.
  induction count as [|count IH]; intros pos result Hpos; cbn [parse_ziplist_loop].
  - eexists; split; [reflexivity | lia].
  - split_if; [eexists; split; [reflexivity | lia]|].
    read_index.
    split_if; [eexists; split; [reflexivity | lia]|].
    destruct (parse_ziplist_entry_in_buffer (slice_from data pos))
      as (value & bytes_read & -> & Hn).
    pose proof (len_append_value result value).
    split_if.
    + eexists; split; [reflexivity | lia].
    + destruct (IH (pos + bytes_read) (append_value result value)) as (l & -> & Hl);
        [lia|].
      eexists; split; [reflexivity | lia].
Qed.

Lemma parse_listpack_loop_count (count : nat) (data : list byte) :
  forall (pos : Z) (result : list elem),
    exists l, parse_listpack_loop count data pos result = Ok l
              /\ len l <= len result + Z.of_nat count.
Proof.
  induction count as [|count IH]; intros pos result; cbn [parse_listpack_loop].
  - eexists; split; [reflexivity | lia].
  - split_if; [eexists; split; [reflexivity | lia]|].
    destruct (parse_listpack_entry_in_buffer (slice_from data pos))
      as (value & bytes_read & -> & Hn).
    pose proof (len_append_value result value).
    split_if.
    + eexists; split; [reflexivity | lia].
    + destruct (IH (pos + bytes_read) (append_value result value)) as (l & -> & Hl).
      eexists; split; [reflexivity | lia].
Qed.

Lemma intset_loop_count (count : nat) (intset_bytes : list byte) (encoding size : Z) :
  forall (pos : Z) (result l : list string),
    intset_loop count intset_bytes encoding size pos result = Ok l ->
    len l <= len result + Z.of_nat count.
Proof.
  induction count as [|count IH]; intros pos result l; cbn [intset_loop].
  - intros [= <-]. lia.
  - split_if; [intros [= <-]; lia|].
    assert (Hstep : forall val,
               intset_loop count intset_bytes encoding size (pos + size)
                           (result ++ [str_of_Z val]) = Ok l ->
               len l <= len result + Z.of_nat (S count)).
    { intros val Hl. apply IH in Hl. rewrite len_app in Hl.
      change (len [str_of_Z val]) with 1 in Hl. lia. }
    repeat split_if;
      try (intros [= <-]; lia);
      match goal with
      | |- bindR ?m _ = _ -> _ => destruct m; cbn [bindR]; [apply Hstep | discriminate]
      end.
Qed.

(** X11. On every buffer, a decoder returns no more elements than the
    count field of the header allows: [parse_ziplist] at most [zllen] (the
    two bytes at offset 8, little-endian), and at most 999999 when those
    bytes are [FF FF]; [parse_listpack] at most the count at offset 4, so at
    most 65535; the intset decoder at most the count at offset 4, and at
    most 1000. *)
Theorem decoders_stop_at_header_count (data : list byte) :
  (exists l,
      parse_ziplist data = Ok l
      /\ len l <= (let zllen := le_uint (slice data 8 10) in
                   if zllen <? 65535 then zllen else 999999))
  /\ (exists l, parse_listpack data = Ok l /\ len l <= le_uint (slice data 4 6))
  /\ len (parse_intset data) <= Z.min (le_uint (slice data 4 8)) 1000.
Proof.
  pose proof (len_nonneg data) as Hlen.
  split; [|split].
  - unfold parse_ziplist, unpack_I, unpack_H.
    pose proof (le_uint_nonneg (slice data 8 10)) as Hz. cbv zeta.
    destruct (Z.ltb_spec (len data) 10).
    + exists []. split; [reflexivity|]. change (len (@nil elem)) with 0.
      destruct (_ <? 65535); lia.
    + rewrite !(unpack_unsigned_slice data) by lia. cbn [bindR].
      match goal with
      | |- context [parse_ziplist_loop ?c data 10 []] =>
          destruct (parse_ziplist_loop_count c data 10 []) as (l & -> & Hl); [lia|]
      end.
      exists l. split; [reflexivity|]. change (len (@nil elem)) with 0 in Hl.
      destruct (_ <? 65535); lia.
  - unfold parse_listpack, unpack_I, unpack_H.
    pose proof (le_uint_nonneg (slice data 4 6)) as Hz.
    destruct (Z.ltb_spec (len data) 7).
    + exists []. split; [reflexivity | exact Hz].
    + rewrite !(unpack_unsigned_slice data) by lia. cbn [bindR].
      match goal with
      | |- context [parse_listpack_loop ?c data 6 []] =>
          destruct (parse_listpack_loop_count c data 6 []) as (l & -> & Hl)
      end.
      exists l. split; [reflexivity|]. change (len (@nil elem)) with 0 in Hl. lia.
  - unfold parse_intset, unpack_I.
    pose proof (le_uint_nonneg (slice data 4 8)) as Hz.
    destruct (Z.ltb_spec (len data) 8).
    + change (len (@nil string)) with 0. lia.
    + rewrite !(unpack_unsigned_slice data) by lia. cbn [bindR].
      match goal with
      | |- context [intset_loop ?c ?d ?e ?sz 8 []] =>
          pose proof (intset_loop_count c d e sz 8 []) as Hloop;
          destruct (intset_loop c d e sz 8 []) as [l|] eqn:El
      end; cbn [try_except].
      * specialize (Hloop l eq_refl). change (len (@nil string)) with 0 in Hloop. lia.
      * change (len (@nil string)) with 0. lia.
Qed.

(** ** Pairs of a packed hash or sorted set *)

Lemma pair_induction {A} (P : list A -> Prop) :
  P [] -> (forall x, P [x]) -> (forall a b l, P l -> P (a :: b :: l)) ->
  forall l, P l.
Proof.
  intros H0 H1 H2.
  assert (H : forall l, P l /\ forall a, P (a :: l)).
  { induction l as [|x l [IH1 IH2]]; split; auto. }
  intros l. apply H.
Qed.

Lemma fold_left_ext {A B} (f g : A -> B -> A) (l : list B) (a : A) :
  (forall a b, f a b = g a b) -> fold_left f l a = fold_left g l a.
Proof.
  intros H. revert a. induction l as [|b l IH]; intros a; cbn [fold_left];
    [reflexivity | rewrite H; apply IH].
Qed.

Lemma fold_left_map {A B C} (f : A -> B -> A) (g : C -> B) (l : list C) (a : A) :
  fold_left f (map g l) a = fold_left (fun a c => f a (g c)) l a.
Proof.
  revert a. induction l as [|c l IH]; intros a; cbn [map fold_left];
    [reflexivity | apply IH].
Qed.

Lemma hash_fold_pairs (entries : list elem) :
  forall acc,
    fold_left (hash_step entries) (range_step2 (List.length entries)) acc
    = fold_left (fun d p => dict_set d (str_elem (fst p)) (str_elem (snd p)))
                (pairs entries) acc.
Proof.
  induction entries as [| x | k v entries IH] using pair_induction; intros acc.
  - reflexivity.
  - reflexivity.
  - cbn [List.length pairs fold_left fst snd]. rewrite range_step2_SS.
    cbn [fold_left]. rewrite fold_left_map.
    unfold hash_step at 2. cbn [Nat.add nth_error List.length].
    replace (1 <? S (S (List.length entries)))%nat with true
      by (symmetry; apply Nat.ltb_lt; lia).
    rewrite <- IH. apply fold_left_ext. intros a i.
    unfold hash_step. cbn [Nat.add nth_error List.length].
    reflexivity.
Qed.

(** X12. The loops that turn the elements of a ziplist or listpack into a
    sorted set or a hash take the elements two by two, in order, and leave
    out a last element that has no partner: the sorted set has one item for
    each pair, and the hash is the dictionary obtained by assigning the
    pairs in order, so that for a field that occurs twice the later value
    stays, at the place of the first occurrence. *)
Theorem packed_pairs_are_adjacent_elements (entries : list elem) :
  zset_of_entries entries
  = map (fun p => ZsetItem (str_elem (fst p)) (score_of_elem (snd p))) (pairs entries)
  /\ hash_of_entries entries
     = fold_left (fun d p => dict_set d (str_elem (fst p)) (str_elem (snd p)))
                 (pairs entries) [].
Proof.
  split.
  - induction entries as [| x | m x entries IH] using pair_induction.
    + reflexivity.
    + reflexivity.
    + rewrite zset_of_entries_pair, IH. reflexivity.
  - apply (hash_fold_pairs entries []).
Qed.

(** ** Values *)

(** X13. Reading a value, a string or a length changes nothing of the
    parser but the position in the file, and the position only moves
    forward: [self.data], [self.aux_data], [self.current_db] and the output
    format are as before, and what is left of the file is a suffix of what
    was left, also when the reader raises. *)
Theorem readers_only_move_the_file_forward (value_type : Z) (s : parser) :
  only_reads s (snd (read_value value_type s))
  /\ only_reads s (snd (read_string s))
  /\ only_reads s (snd (read_string_raw s))
  /\ only_reads s (snd (read_length s)).
Proof.
  repeat split.
  - destruct (read_value value_type s) as [r s'] eqn:E.
    apply (preserves_read_value only_reads only_reads_refl only_reads_trans
             only_reads_skip value_type s r s' E).
  - destruct (read_string s) as [r s'] eqn:E.
    apply (preserves_read_string only_reads only_reads_refl only_reads_trans
             only_reads_skip s r s' E).
  - destruct (read_string_raw s) as [r s'] eqn:E.
    apply (preserves_read_string_raw only_reads only_reads_refl only_reads_trans
             only_reads_skip s r s' E).
  - destruct (read_length s) as [r s'] eqn:E.
    apply (preserves_read_length only_reads only_reads_refl only_reads_trans
             only_reads_skip s r s' E).
Qed.

(** X14. For a type tag outside the table of the parser (the module types
    6 and 7, 8, and every tag above 21), [read_value] never raises: it
    calls [read_string] once, returns the string that [read_string]
    returns, or the text [<unknown type N>] when [read_string] raises, and
    leaves the file where [read_string] left it; the type name is
    [unknown_type_N]. *)
Theorem unknown_value_type_never_raises (value_type : Z) (s : parser) :
  value_type < 0 \/ 6 <= value_type <= 8 \/ 21 < value_type ->
  read_value value_type s
  = (Ok (VStr (match fst (read_string s) with
               | Ok text => text
               | Raise _ => ("<unknown type " ++ str_of_Z value_type ++ ">")%string
               end)),
     snd (read_string s))
  /\ get_type_name value_type = ("unknown_type_" ++ str_of_Z value_type)%string.
Proof.
  intros Hvt. unfold read_value, get_type_name, type_names.
  unfold TYPE_STRING, TYPE_LIST, TYPE_SET, TYPE_ZSET, TYPE_ZSET_2, TYPE_HASH,
    TYPE_HASH_ZIPMAP, TYPE_LIST_ZIPLIST, TYPE_SET_INTSET, TYPE_ZSET_ZIPLIST,
    TYPE_HASH_ZIPLIST, TYPE_LIST_QUICKLIST, TYPE_LIST_QUICKLIST_2,
    TYPE_HASH_LISTPACK, TYPE_ZSET_LISTPACK, TYPE_SET_LISTPACK,
    TYPE_STREAM_LISTPACKS, TYPE_STREAM_LISTPACKS_2, TYPE_STREAM_LISTPACKS_3.
  cbn [find fst snd].
  repeat match goal with
         | |- context [?a =? value_type] =>
             destruct (Z.eqb_spec a value_type); [lia|]
         | |- context [value_type =? ?a] =>
             destruct (Z.eqb_spec value_type a); [lia|]
         end.
  cbn [orb]. unfold try_catch, bind, ret.
  destruct (read_string s) as [[text|e] s1]; split; reflexivity.
Qed.

(** X15. A list or set value made of a count below 2^14 and that many
    strings, each behind a short length prefix: [read_value] returns the
    texts of the strings in the order of the file for a list, and what
    [list(set(...))] makes of them for a set, and leaves the file right
    after the last string. *)
Theorem list_of_strings_is_read_in_order
        (s : parser) (payloads : list (list byte)) (rest : list byte) :
  len payloads < 16384 ->
  forallb (fun p => len p <? 16384) payloads = true ->
  self_file s = rdb_length (len payloads) ++ flat_map rdb_string payloads ++ rest ->
  read_value TYPE_LIST s
  = (Ok (VList (map EStr (map decode_payload payloads))), set_file s rest)
  /\ read_value TYPE_SET s
     = (Ok (VList (map EStr (list_of_set (map decode_payload payloads)))),
        set_file s rest).
Proof.
  intros Hn Hp Hf. pose proof (len_nonneg payloads) as Hnn.
  apply forallb_Forall in Hp.
  assert (Hl : read_length s
               = (Ok (len payloads), set_file s (flat_map rdb_string payloads ++ rest))).
  { unfold read_length, bind.
    rewrite (read_length_with_encoding_short s (len payloads) _ ltac:(lia) Hf).
    reflexivity. }
  assert (Hr : repeatM (Z.to_nat (len payloads)) read_string
                 (set_file s (flat_map rdb_string payloads ++ rest))
               = (Ok (map decode_payload payloads), set_file s rest)).
  { unfold len at 1. rewrite Nat2Z.id.
    exact (repeatM_items read_string rdb_string decode_payload
             (fun p => (len p <? 16384) = true)
             (fun s0 x rest0 Hx Hf0 =>
                read_string_short s0 x rest0 (proj1 (Z.ltb_lt _ _) Hx) Hf0)
             payloads (set_file s (flat_map rdb_string payloads ++ rest)) rest
             Hp eq_refl). }
  split; unfold read_value, bind; cbn [Z.eqb TYPE_LIST TYPE_SET TYPE_STRING Pos.eqb];
    rewrite Hl, Hr; reflexivity.
Qed.

(** X16. A hash value made of a count below 2^14 and that many pairs of
    strings, every field and every value shorter than 2^14 bytes and
    behind the one-byte or two-byte length prefix: [read_value] returns the
    dictionary obtained by assigning the pairs in the order of the file, so
    that for a field that occurs twice the later value stays, and leaves
    the file right after the last pair. *)
Theorem hash_of_strings_keeps_the_later_value
        (s : parser) (fields : list (list byte * list byte)) (rest : list byte) :
  len fields < 16384 ->
  forallb (fun kv => (len (fst kv) <? 16384) && (len (snd kv) <? 16384)) fields = true ->
  self_file s = rdb_length (len fields)
                ++ flat_map (fun kv => rdb_string (fst kv) ++ rdb_string (snd kv)) fields
                ++ rest ->
  read_value TYPE_HASH s
  = (Ok (VHash (fold_left
                  (fun hash_data kv =>
                     dict_set hash_data (decode_payload (fst kv)) (decode_payload (snd kv)))
                  fields [])),
     set_file s rest).
Proof.
  intros Hn Hp Hf. pose proof (len_nonneg fields) as Hnn.
  apply forallb_Forall in Hp.
  set (enc := fun kv : list byte * list byte => rdb_string (fst kv) ++ rdb_string (snd kv)).
  assert (Hl : read_length s = (Ok (len fields), set_file s (flat_map enc fields ++ rest))).
  { unfold read_length, bind.
    rewrite (read_length_with_encoding_short s (len fields) _ ltac:(lia) Hf).
    reflexivity. }
  assert (Hpair : forall s0 kv rest0,
             (len (fst kv) <? 16384) && (len (snd kv) <? 16384) = true ->
             self_file s0 = enc kv ++ rest0 ->
             bind read_string
                  (fun key => bind read_string (fun value => ret (key, value))) s0
             = (Ok (decode_payload (fst kv), decode_payload (snd kv)),
                set_file s0 rest0)).
  { intros s0 [k v] rest0 Hkv Hf0. cbn [fst snd] in *. unfold enc in Hf0.
    cbn [fst snd] in Hf0. rewrite <- app_assoc in Hf0.
    apply andb_true_iff in Hkv. destruct Hkv as [Hk Hv].
    apply Z.ltb_lt in Hk, Hv.
    rewrite (bind_ok _ _ _ _ _ (read_string_short s0 k _ Hk Hf0)).
    rewrite (bind_ok _ _ _ _ _ (read_string_short (set_file s0 _) v rest0 Hv eq_refl)).
    reflexivity. }
  unfold read_value.
  cbn [Z.eqb Pos.eqb orb TYPE_STRING TYPE_LIST TYPE_SET TYPE_ZSET TYPE_ZSET_2 TYPE_HASH].
  rewrite (bind_ok _ _ _ _ _ Hl).
  unfold len at 1. rewrite Nat2Z.id.
  rewrite (bind_ok _ _ _ _ _
             (repeatM_items _ enc
                (fun kv => (decode_payload (fst kv), decode_payload (snd kv)))
                _ Hpair fields (set_file s (flat_map enc fields ++ rest)) rest
                Hp eq_refl)).
  unfold ret. do 3 f_equal.
  rewrite fold_left_map. reflexivity.
Qed.

(** X17. A stream value is not read: for the types 15, 19 and 21
    [read_value] calls [read_length] once and nothing else.  When
    [read_length] returns [N] (the length as it reads it, in any of the
    prefix forms), [read_value] returns the text [<stream with N elements>]
    and leaves the file where [read_length] left it, at the first byte of
    the stream's content; when [read_length] raises, so does [read_value].
    The type name is [stream]. *)
Theorem stream_is_not_read (value_type : Z) (s : parser) :
  value_type = TYPE_STREAM_LISTPACKS \/ value_type = TYPE_STREAM_LISTPACKS_2
  \/ value_type = TYPE_STREAM_LISTPACKS_3 ->
  read_value value_type s
  = (match fst (read_length s) with
     | Ok n => Ok (VStr ("<stream with " ++ str_of_Z n ++ " elements>")%string)
     | Raise e => Raise e
     end,
     snd (read_length s))
  /\ get_type_name value_type = "stream"%string.
Proof.
  intros Hvt.
  destruct Hvt as [ -> | [ -> | -> ] ]; (split; [|reflexivity]); unfold read_value;
    cbn [Z.eqb Pos.eqb orb TYPE_STRING TYPE_LIST TYPE_SET TYPE_ZSET TYPE_ZSET_2
         TYPE_HASH TYPE_HASH_ZIPMAP TYPE_LIST_ZIPLIST TYPE_SET_INTSET
         TYPE_ZSET_ZIPLIST TYPE_HASH_ZIPLIST TYPE_LIST_QUICKLIST
         TYPE_LIST_QUICKLIST_2 TYPE_HASH_LISTPACK TYPE_ZSET_LISTPACK
         TYPE_SET_LISTPACK TYPE_STREAM_LISTPACKS TYPE_STREAM_LISTPACKS_2
         TYPE_STREAM_LISTPACKS_3];
    unfold read_stream, bind, ret;
    destruct (read_length s) as [[n|e] s1]; reflexivity.
Qed.

Lemma len_zl_entries (items : list zl_item) :
  forall prev, len items <= len (zl_entries prev items).
Proof.
  induction items as [|it items IH]; intros prev; cbn [zl_entries].
  - unfold len; cbn; lia.
  - rewrite len_cons, len_app. specialize (IH (len (zl_entry prev it))).
    assert (1 <= len (zl_entry prev it)); [|lia].
    unfold zl_entry. rewrite len_app, len_zl_prevlen.
    pose proof (len_nonneg (zl_body it)). destruct (prev <? 254);
    destruct it; cbn [zl_body] in *; rewrite ?len_cons in *; lia.
Qed.

Lemma len_ziplist (items : list zl_item) :
  len (ziplist items) = 11 + len (zl_entries 0 items).
Proof.
  unfold ziplist. rewrite !len_app, !len_le_bytes.
  change (len [byte_of_Z 255]) with 1. lia.
Qed.

Lemma len_flat_map_lp_entry (items : list lp_item) :
  forallb lp_short items = true ->
  len items <= len (flat_map lp_entry items).
Proof.
  induction items as [|it items IH]; cbn [flat_map forallb]; intros Hshort.
  - unfold len; cbn; lia.
  - apply andb_true_iff in Hshort. destruct Hshort as [Hit Hshort].
    rewrite len_cons, len_app. pose proof (len_lp_entry_short it Hit).
    specialize (IH Hshort). lia.
Qed.

Lemma len_listpack (items : list lp_item) :
  len (listpack items) = 7 + len (flat_map lp_entry items).
Proof.
  unfold listpack. rewrite !len_app, !len_le_bytes.
  change (len [byte_of_Z 255]) with 1. lia.
Qed.

(** A ziplist behind a short length prefix decodes to its items. *)
Lemma parse_ziplist_short (items : list zl_item) :
  forallb zl_item_ok items = true ->
  forallb zl_not_str32 items = true ->
  len (ziplist items) < 16384 ->
  parse_ziplist (ziplist items) = Ok (map zl_value items).
Proof.
  intros Hok Hle Hlen.
  rewrite (parse_ziplist_without_str32 items Hok Hle).
  rewrite firstn_all2; [reflexivity|].
  pose proof (len_zl_entries items 0). rewrite len_ziplist in Hlen.
  unfold len in *. lia.
Qed.

(** One turn of the loop of [read_quicklist]. *)
Lemma read_quicklist_segment (s : parser) (items : list zl_item) (rest : list byte) :
  quicklist_segment_ok items = true ->
  self_file s = rdb_string (ziplist items) ++ rest ->
  bind read_string_raw
       (fun ziplist_bytes =>
          ret (try_except (on_buffer parse_ziplist ziplist_bytes) (fun _ => []))) s
  = (Ok (map zl_value items), set_file s rest).
Proof.
  unfold quicklist_segment_ok. rewrite !andb_true_iff, Z.ltb_lt.
  intros [[Hok Hle] Hlen] Hf.
  rewrite (bind_ok _ _ _ _ _ (read_string_raw_short s (ziplist items) rest Hlen Hf)).
  cbn [on_buffer]. rewrite (parse_ziplist_short items Hok Hle Hlen). reflexivity.
Qed.

(** X18. A quicklist value made of a count below 2^14 and that many
    ziplists, each behind a short length prefix and without an entry of the
    32-bit string encoding: [read_value] returns the concatenation of the
    values of the ziplists in the order of the file, for the type 14 and
    also for the type 18 (whose segments it reads as ziplists too), and
    leaves the file right after the last segment. *)
Theorem quicklist_is_the_concatenation_of_its_ziplists
        (s : parser) (segments : list (list zl_item)) (rest : list byte) :
  len segments < 16384 ->
  forallb quicklist_segment_ok segments = true ->
  self_file s = rdb_length (len segments)
                ++ flat_map (fun items => rdb_string (ziplist items)) segments ++ rest ->
  let result := (Ok (VList (List.concat (map (map zl_value) segments))),
                 set_file s rest) in
  read_value TYPE_LIST_QUICKLIST s = result
  /\ read_value TYPE_LIST_QUICKLIST_2 s = result.
Proof.
  intros Hn Hp Hf result. pose proof (len_nonneg segments) as Hnn.
  apply forallb_Forall in Hp.
  assert (Hl : read_length s
               = (Ok (len segments),
                  set_file s (flat_map (fun items => rdb_string (ziplist items)) segments
                              ++ rest))).
  { unfold read_length, bind.
    rewrite (read_length_with_encoding_short s (len segments) _ ltac:(lia) Hf).
    reflexivity. }
  assert (Hq : read_quicklist s
               = (Ok (List.concat (map (map zl_value) segments)), set_file s rest)).
  { unfold read_quicklist. rewrite (bind_ok _ _ _ _ _ Hl).
    unfold len at 1. rewrite Nat2Z.id.
    rewrite (bind_ok _ _ _ _ _
               (repeatM_items _ (fun items => rdb_string (ziplist items))
                  (map zl_value) (fun items => quicklist_segment_ok items = true)
                  (fun s0 x rest0 Hx Hf0 => read_quicklist_segment s0 x rest0 Hx Hf0)
                  segments
                  (set_file s (flat_map (fun items => rdb_string (ziplist items))
                                        segments ++ rest))
                  rest Hp eq_refl)).
    reflexivity. }
  split; unfold read_value, bind;
    cbn [Z.eqb Pos.eqb orb TYPE_STRING TYPE_LIST TYPE_SET TYPE_ZSET TYPE_ZSET_2
         TYPE_HASH TYPE_HASH_ZIPMAP TYPE_LIST_ZIPLIST TYPE_SET_INTSET
         TYPE_ZSET_ZIPLIST TYPE_HASH_ZIPLIST TYPE_LIST_QUICKLIST
         TYPE_LIST_QUICKLIST_2];
    rewrite Hq; reflexivity.
Qed.

(** X19. A value stored as one ziplist behind a short length prefix,
    without an entry of the 32-bit string encoding: [read_value] returns the
    values of the entries as a list for the type 10, paired into a hash for
    the type 13, and paired into a sorted set for the type 12, and leaves
    the file right after the ziplist. *)
Theorem ziplist_values_are_read_by_type
        (s : parser) (items : list zl_item) (rest : list byte) :
  forallb zl_item_ok items = true ->
  forallb zl_not_str32 items = true ->
  len (ziplist items) < 16384 ->
  self_file s = rdb_string (ziplist items) ++ rest ->
  let entries := map zl_value items in
  read_value TYPE_LIST_ZIPLIST s = (Ok (VList entries), set_file s rest)
  /\ read_value TYPE_HASH_ZIPLIST s
     = (Ok (VHash (hash_of_entries entries)), set_file s rest)
  /\ read_value TYPE_ZSET_ZIPLIST s
     = (Ok (VZset (zset_of_entries entries)), set_file s rest).
Proof.
  intros Hok Hle Hlen Hf entries.
  pose proof (read_string_raw_short s (ziplist items) rest Hlen Hf) as Hraw.
  pose proof (parse_ziplist_short items Hok Hle Hlen) as Hp. fold entries in Hp.
  assert (Hlist : read_list_ziplist s = (Ok entries, set_file s rest))
    by (unfold read_list_ziplist; rewrite (bind_ok _ _ _ _ _ Hraw);
        cbn [on_buffer]; rewrite Hp; reflexivity).
  assert (Hhash : read_hash_ziplist s = (Ok (hash_of_entries entries), set_file s rest))
    by (unfold read_hash_ziplist; rewrite (bind_ok _ _ _ _ _ Hraw);
        cbn [on_buffer]; rewrite Hp; reflexivity).
  assert (Hzset : read_zset_ziplist s = (Ok (zset_of_entries entries), set_file s rest))
    by (unfold read_zset_ziplist; rewrite (bind_ok _ _ _ _ _ Hraw);
        cbn [on_buffer]; rewrite Hp; reflexivity).
  repeat split; unfold read_value;
    cbn [Z.eqb Pos.eqb orb TYPE_STRING TYPE_LIST TYPE_SET TYPE_ZSET TYPE_ZSET_2
         TYPE_HASH TYPE_HASH_ZIPMAP TYPE_LIST_ZIPLIST TYPE_SET_INTSET
         TYPE_ZSET_ZIPLIST TYPE_HASH_ZIPLIST];
    rewrite ?(bind_ok _ _ _ _ _ Hlist), ?(bind_ok _ _ _ _ _ Hhash),
      ?(bind_ok _ _ _ _ _ Hzset); reflexivity.
Qed.

(** X20. A value stored as one listpack behind a short length prefix, every
    entry with a backlen of one byte: [read_value] returns the texts of the
    entries as a list for the type 20 (set), the entries paired into a hash
    for the type 16, and paired into a sorted set for the type 17, and
    leaves the file right after the listpack (given that decoding the empty
    payload gives the empty string). *)
Theorem listpack_values_are_read_by_type
        (s : parser) (items : list lp_item) (rest : list byte) :
  utf8_decode [] = ""%string ->
  forallb lp_item_ok items = true ->
  forallb lp_short items = true ->
  len (listpack items) < 16384 ->
  self_file s = rdb_string (listpack items) ++ rest ->
  let entries := map lp_value items in
  read_value TYPE_SET_LISTPACK s
  = (Ok (VList (map EStr (map str_elem entries))), set_file s rest)
  /\ read_value TYPE_HASH_LISTPACK s
     = (Ok (VHash (hash_of_entries entries)), set_file s rest)
  /\ read_value TYPE_ZSET_LISTPACK s
     = (Ok (VZset (zset_of_entries entries)), set_file s rest).
Proof.
  intros decode_empty Hok Hshort Hlen Hf entries.
  assert (Hl : read_listpack s = (Ok entries, set_file s rest)).
  { unfold read_listpack.
    rewrite (bind_ok _ _ _ _ _ (read_string_raw_short s (listpack items) rest Hlen Hf)).
    rewrite (parse_listpack_one_byte_backlen decode_empty items Hok Hshort).
    cbn [try_except]. unfold ret, entries. rewrite firstn_all2; [reflexivity|].
    pose proof (len_flat_map_lp_entry items Hshort). rewrite len_listpack in Hlen.
    unfold len in *. lia. }
  assert (Hset : read_set_listpack s = (Ok (map str_elem entries), set_file s rest))
    by (unfold read_set_listpack; rewrite (bind_ok _ _ _ _ _ Hl); reflexivity).
  assert (Hhash : read_hash_listpack s = (Ok (hash_of_entries entries), set_file s rest))
    by (unfold read_hash_listpack; rewrite (bind_ok _ _ _ _ _ Hl); reflexivity).
  assert (Hzset : read_zset_listpack s = (Ok (zset_of_entries entries), set_file s rest))
    by (unfold read_zset_listpack; rewrite (bind_ok _ _ _ _ _ Hl); reflexivity).
  repeat split; unfold read_value;
    cbn [Z.eqb Pos.eqb orb TYPE_STRING TYPE_LIST TYPE_SET TYPE_ZSET TYPE_ZSET_2
         TYPE_HASH TYPE_HASH_ZIPMAP TYPE_LIST_ZIPLIST TYPE_SET_INTSET
         TYPE_ZSET_ZIPLIST TYPE_HASH_ZIPLIST TYPE_LIST_QUICKLIST
         TYPE_LIST_QUICKLIST_2 TYPE_HASH_LISTPACK TYPE_ZSET_LISTPACK
         TYPE_SET_LISTPACK];
    rewrite ?(bind_ok _ _ _ _ _ Hset), ?(bind_ok _ _ _ _ _ Hhash),
      ?(bind_ok _ _ _ _ _ Hzset); reflexivity.
Qed.

(** ** More on one value-type record *)

Lemma value_record_skipped_state (value_type : Z) (pd : pending) (s s1 : parser)
      (key : string) :
  read_string s = (Ok key, s1) ->
  invalid_key key = true ->
  value_record value_type pd s = (Ok (Continue pd), snd (read_value value_type s1)).
Proof.
  intros Hk Hinvalid.
  unfold value_record, bind, try_catch, ret. rewrite Hk, Hinvalid.
  destruct (read_value value_type s1) as [[v|e] s2]; reflexivity.
Qed.

(** X21. In simple format the pending expiry, idle and freq are dropped: a
    value-type record whose key is kept and whose value is read assigns the
    bare value to the key, whatever is pending, leaves the rest of
    [self.data] as it was, and the loop goes on with nothing pending. *)
Theorem simple_format_discards_metadata
        (pd : pending) (s s1 s2 : parser) (b : byte) (rest : list byte)
        (key : string) (v : value) :
  self_file s = b :: rest ->
  is_value_type (u8 b) = true ->
  self_simple_format s = true ->
  read_string (set_file s rest) = (Ok key, s1) ->
  invalid_key key = false ->
  read_value (u8 b) s1 = (Ok v, s2) ->
  parse_iteration pd s
  = (Continue no_pending, set_data s2 (dict_set (self_data s) key (ESimple v))).
Proof.
  intros Hf Hvt Hsimple Hk Hvalid Hv.
  rewrite (parse_iteration_value_type _ _ _ _ Hf Hvt).
  rewrite (value_record_stored _ _ _ _ _ _ _ Hk Hvalid Hv).
  cbn [self_simple_format set_file]. rewrite Hsimple.
  rewrite (only_reads_data _ _ (read_value_only_reads _ _ _ _ Hv)).
  rewrite (only_reads_data _ _ (read_string_only_reads _ _ _ Hk)).
  reflexivity.
Qed.

(** X22. In full format, a value-type record read while an expiry other
    than 0 is pending: when [datetime] turns the expiry into a date, the key
    is assigned the entry with the value, the type name, [expiry_ms],
    [expiry_date] and the pending idle and freq, and nothing stays pending;
    when [datetime] raises, the value that was read is dropped, the key is
    assigned the error record with the message of that exception, and the
    expiry, idle and freq stay pending for the next record. *)
Theorem expiry_is_stored_with_its_date
        (pd : pending) (ms : Z) (s s1 s2 : parser) (b : byte) (rest : list byte)
        (key : string) (v : value) :
  self_file s = b :: rest ->
  is_value_type (u8 b) = true ->
  self_simple_format s = false ->
  expiry pd = Some ms ->
  ms <> 0 ->
  read_string (set_file s rest) = (Ok key, s1) ->
  invalid_key key = false ->
  read_value (u8 b) s1 = (Ok v, s2) ->
  parse_iteration pd s
  = match isoformat_of_ms ms with
    | Ok expiry_date =>
        (Continue no_pending,
         set_data s2 (dict_set (self_data s) key
                        (EFull (FullEntry v (get_type_name (u8 b)) (Some ms)
                                          (Some expiry_date) (idle pd) (freq pd)))))
    | Raise e =>
        (Continue pd,
         set_data s2 (dict_set (self_data s) key
                        (EError (str_exn e) (get_type_name (u8 b)))))
    end.
Proof.
  intros Hf Hvt Hfull Hexp Hms Hk Hvalid Hv.
  rewrite (parse_iteration_value_type _ _ _ _ Hf Hvt).
  rewrite (value_record_stored _ _ _ _ _ _ _ Hk Hvalid Hv).
  cbn [self_simple_format set_file]. rewrite Hfull.
  rewrite (only_reads_data _ _ (read_value_only_reads _ _ _ _ Hv)).
  rewrite (only_reads_data _ _ (read_string_only_reads _ _ _ Hk)).
  unfold build_entry. rewrite Hexp.
  destruct (Z.eqb_spec ms 0); [contradiction|].
  destruct (isoformat_of_ms ms); reflexivity.
Qed.

(** X23. A value-type record whose key is one the loop skips (empty, or
    starting with [<unknown], [<binary], [<parse_error] or [<invalid]):
    the value is read with the decoder of the type and thrown away, also
    when that decoder raises; [self.data] is as it was, the pending expiry,
    idle and freq are as they were, and the loop goes on from where the
    decoder stopped. *)
Theorem skipped_key_leaves_output_untouched
        (pd : pending) (s s1 : parser) (b : byte) (rest : list byte) (key : string) :
  self_file s = b :: rest ->
  is_value_type (u8 b) = true ->
  read_string (set_file s rest) = (Ok key, s1) ->
  invalid_key key = true ->
  parse_iteration pd s = (Continue pd, snd (read_value (u8 b) s1))
  /\ self_data (snd (read_value (u8 b) s1)) = self_data s.
Proof.
  intros Hf Hvt Hk Hinvalid. split.
  - rewrite (parse_iteration_value_type _ _ _ _ Hf Hvt).
    rewrite (value_record_skipped_state _ _ _ _ _ Hk Hinvalid). reflexivity.
  - destruct (read_value (u8 b) s1) as [r s2] eqn:Hv. cbn [snd].
    rewrite (only_reads_data _ _ (read_value_only_reads _ _ _ _ Hv)).
    rewrite (only_reads_data _ _ (read_string_only_reads _ _ _ Hk)).
    reflexivity.
Qed.

(** ** What the loop writes to [self.data] *)

Lemma keeps_keys_refl s : keeps_keys s s.
Proof. split; reflexivity. Qed.

Lemma keeps_keys_trans s1 s2 s3 :
  keeps_keys s1 s2 -> keeps_keys s2 s3 -> keeps_keys s1 s3.
Proof. intros [H1 H2] [H3 H4]. split; congruence. Qed.

Lemma keeps_keys_skip s n : keeps_keys s (set_file s (skipn n (self_file s))).
Proof. split; reflexivity. Qed.

Lemma only_reads_keeps_keys s s' : only_reads s s' -> keeps_keys s s'.
Proof. intros [n ->]. split; reflexivity. Qed.

(** The opcodes that are not a value type leave [self.data] alone. *)
Lemma handle_opcode_keeps_keys (opcode : Z) (pd : pending) :
  is_value_type opcode = false ->
  preserves keeps_keys (handle_opcode opcode pd).
Proof.
  intros Hvt.
  pose proof (preserves_read_length keeps_keys keeps_keys_refl keeps_keys_trans
                keeps_keys_skip) as Hlen.
  pose proof (preserves_read_string keeps_keys keeps_keys_refl keeps_keys_trans
                keeps_keys_skip) as Hstr.
  pose proof (preserves_read_bytes keeps_keys keeps_keys_skip) as Hbytes.
  pose proof (preserves_read_byte keeps_keys keeps_keys_refl keeps_keys_skip) as Hbyte.
  unfold handle_opcode, read_unsigned_long, read_unsigned_int.
  repeat match goal with
         | |- preserves _ (if ?c then _ else _) => destruct c eqn:?
         end;
    try (repeat first
           [ apply (preserves_ret keeps_keys keeps_keys_refl)
           | apply (preserves_lift keeps_keys keeps_keys_refl)
           | apply Hlen | apply Hstr | apply Hbytes | apply Hbyte
           | apply (preserves_modify keeps_keys); intros ?; split; reflexivity
           | apply (preserves_bind keeps_keys keeps_keys_trans); [| intros ?]
           | apply (preserves_try_catch keeps_keys keeps_keys_trans); [| intros ?] ];
         fail).
  exfalso. unfold is_value_type in Hvt. cbn [existsb] in Hvt.
  apply negb_false_iff in Hvt.
  repeat match goal with
         | H : (opcode =? _) = false |- _ => rewrite H in Hvt; clear H
         end.
  discriminate.
Qed.

(** What a turn of the loop does to [self.data]: nothing, or one
    assignment with a key that is not skipped and an entry of the format. *)
Lemma parse_iteration_output (pd : pending) (s : parser) :
  let s' := snd (parse_iteration pd s) in
  self_simple_format s' = self_simple_format s
  /\ (self_data s' = self_data s
      \/ exists key e,
           invalid_key key = false
           /\ entry_of_format (self_simple_format s) e = true
           /\ self_data s' = dict_set (self_data s) key e).
Proof.
  cbv zeta. unfold parse_iteration, parse_record, bind, read_byte.
  destruct (self_file s) as [|b rest] eqn:Hf.
  { split; [reflexivity | left; reflexivity]. }
  set (s0 := set_file s rest).
  assert (H0 : keeps_keys s s0) by (split; reflexivity).
  destruct (is_value_type (u8 b)) eqn:Hvt.
  2:{ destruct (handle_opcode (u8 b) pd s0) as [r s'] eqn:Eh.
      apply (handle_opcode_keeps_keys _ _ Hvt) in Eh.
      destruct (keeps_keys_trans _ _ _ H0 Eh) as [Hd Hfmt].
      destruct r as [[?|]|?]; cbn [snd]; (split; [exact Hfmt | left; exact Hd]). }
  rewrite (handle_opcode_value_type _ _ Hvt).
  destruct (read_string s0) as [[key|e] s1] eqn:Hk.
  2:{ rewrite (value_record_key_error _ _ _ _ _ Hk). cbn [snd].
      destruct (only_reads_keeps_keys _ _ (read_string_only_reads _ _ _ Hk)) as [Hd Hfmt].
      split; [exact Hfmt | left; exact Hd]. }
  destruct (only_reads_keeps_keys _ _ (read_string_only_reads _ _ _ Hk)) as [Hd1 Hfmt1].
  cbn [s0 set_file self_data self_simple_format] in Hd1, Hfmt1.
  destruct (invalid_key key) eqn:Hvalid.
  { rewrite (value_record_skipped_state _ _ _ _ _ Hk Hvalid). cbn [snd].
    destruct (read_value (u8 b) s1) as [r s2] eqn:Hv. cbn [snd].
    destruct (only_reads_keeps_keys _ _ (read_value_only_reads _ _ _ _ Hv)) as [Hd2 Hfmt2].
    split; [congruence | left; congruence]. }
  destruct (read_value (u8 b) s1) as [[v|e] s2] eqn:Hv;
    destruct (only_reads_keeps_keys _ _ (read_value_only_reads _ _ _ _ Hv)) as [Hd2 Hfmt2].
  - rewrite (value_record_stored _ _ _ _ _ _ _ Hk Hvalid Hv).
    cbn [s0 set_file self_simple_format].
    destruct (self_simple_format s) eqn:Hfmt.
    + cbn [snd set_data self_simple_format self_data].
      split; [congruence | right].
      exists key, (ESimple v). repeat split; [exact Hvalid | congruence].
    + destruct (build_entry v (u8 b) pd) as [e|e];
        cbn [snd set_data self_simple_format self_data];
        (split; [congruence | right]).
      * exists key, (EFull e). repeat split; [exact Hvalid | congruence].
      * exists key, (EError (str_exn e) (get_type_name (u8 b))).
        repeat split; [exact Hvalid | congruence].
  - rewrite (value_record_failed _ _ _ _ _ _ _ Hk Hvalid Hv).
    cbn [s0 set_file self_simple_format].
    destruct (self_simple_format s) eqn:Hfmt; cbn [snd].
    + split; [congruence | left; congruence].
    + cbn [set_data self_simple_format self_data].
      split; [congruence | right].
      exists key, (EError (str_exn e) (get_type_name (u8 b))).
      repeat split; [exact Hvalid | congruence].
Qed.

Lemma Forall_dict_set {V} (P : string * V -> Prop) (d : dict V) (k : string) (v : V) :
  Forall P d -> P (k, v) -> Forall P (dict_set d k v).
Proof.
  intros Hd Hkv. induction Hd as [|[k' v'] d Hx Hd IH]; cbn [dict_set].
  - constructor; [exact Hkv | constructor].
  - destruct (String.eqb k' k) eqn:E.
    + apply String.eqb_eq in E. subst k'. constructor; assumption.
    + constructor; assumption.
Qed.

Lemma parse_loop_output (fuel : nat) :
  forall (pd : pending) (s s' : parser),
    parse_loop fuel pd s = Some s' ->
    Forall (fun kv => invalid_key (fst kv) = false
                      /\ entry_of_format (self_simple_format s) (snd kv) = true)
           (self_data s) ->
    Forall (fun kv => invalid_key (fst kv) = false
                      /\ entry_of_format (self_simple_format s) (snd kv) = true)
           (self_data s').
Proof.
  induction fuel as [|fuel IH]; intros pd s s'; [discriminate|].
  cbn [parse_loop]. intros Hloop Hinv.
  pose proof (parse_iteration_output pd s) as Hit. cbv zeta in Hit.
  destruct (parse_iteration pd s) as [c s1]. cbn [snd] in Hit.
  destruct Hit as [Hfmt Hdata].
  assert (Hinv1 : Forall (fun kv => invalid_key (fst kv) = false
                      /\ entry_of_format (self_simple_format s) (snd kv) = true)
           (self_data s1)).
  { destruct Hdata as [-> | (key & e & Hvalid & He & ->)]; [exact Hinv|].
    apply Forall_dict_set; [exact Hinv | split; assumption]. }
  destruct c as [pd'|].
  - rewrite <- Hfmt in *. apply (IH pd' s1 s' Hloop). exact Hinv1.
  - injection Hloop as <-. exact Hinv1.
Qed.

(** X24. Whatever the file holds, every entry of the [keys] that [parse]
    returns has a key that is not one of the keys the loop skips (it is not
    empty and does not start with [<unknown], [<binary], [<parse_error] or
    [<invalid]) and has the shape of the output format: the bare value in
    simple format, and in full format the record with the value or the
    error record. *)
Theorem parse_output_has_valid_keys_and_entries_of_the_format
        (content : list byte) (simple_format : bool) (snap : snapshot) :
  parse content simple_format = Some (Ok snap) ->
  Forall (fun kv => invalid_key (fst kv) = false
                    /\ entry_of_format simple_format (snd kv) = true)
         (keys snap).
Proof.
  unfold parse. intros Hparse.
  destruct (read_header (new_parser content simple_format)) as [[version|e] s] eqn:Hh;
    [|discriminate].
  assert (Hs : keeps_keys (new_parser content simple_format) s).
  { apply only_reads_keeps_keys. revert Hh. unfold read_header.
    apply (preserves_bind only_reads only_reads_trans).
    - apply (preserves_read_bytes only_reads only_reads_skip).
    - intros magic. destruct (negb _).
      + apply (preserves_raise only_reads only_reads_refl).
      + apply (preserves_bind only_reads only_reads_trans).
        * apply (preserves_read_bytes only_reads only_reads_skip).
        * intros ?. apply (preserves_lift only_reads only_reads_refl). }
  destruct Hs as [Hd Hfmt]. cbn [new_parser self_data self_simple_format] in Hd, Hfmt.
  destruct (parse_loop _ no_pending s) as [s'|] eqn:Hloop; [|discriminate].
  injection Hparse as <-. cbn [keys].
  rewrite <- Hfmt. apply (parse_loop_output _ _ _ _ Hloop).
  rewrite Hd. constructor.
Qed.

(** ** A file of opcodes and string records *)

Lemma parse_iteration_opcode (pd : pending) (s : parser) (opcode : Z) (rest : list byte) :
  0 <= opcode < 256 ->
  self_file s = byte_of_Z opcode :: rest ->
  parse_iteration pd s
  = match handle_opcode opcode pd (set_file s rest) with
    | (Ok c, s') => (c, s')
    | (Raise _, s') => (Break, s')
    end.
Proof.
  intros Ho Hf. unfold parse_iteration, parse_record, bind.
  rewrite (read_byte_cons _ _ _ Hf), u8_byte_of_Z by exact Ho. reflexivity.
Qed.

(** The branch of [handle_opcode] for a given opcode. *)
Ltac opcode_branch :=
  unfold handle_opcode;
  cbn [Z.eqb Pos.eqb OPCODE_EOF OPCODE_SELECTDB OPCODE_AUX OPCODE_RESIZEDB
       OPCODE_EXPIRETIME_MS OPCODE_EXPIRETIME OPCODE_IDLE OPCODE_FREQ TYPE_STRING].

(** A turn of the loop on an item does what the item means. *)
Lemma parse_iteration_item (pd : pending) (s : parser) (it : file_item)
      (rest : list byte) :
  file_item_ok it = true ->
  self_file s = file_item_bytes it ++ rest ->
  parse_iteration pd s
  = (Continue (fst (file_item_effect (pd, s) it)),
     set_file (snd (file_item_effect (pd, s) it)) rest).
Proof.
  intros Hok Hf.
  destruct it as [k v|n|a b|ms|secs|n|n|k v];
    cbn [file_item_ok file_item_bytes file_item_effect fst snd] in *;
    rewrite <- ?app_comm_cons, <- ?app_assoc in Hf;
    match type of Hf with
    | _ = byte_of_Z ?op :: _ =>
        rewrite (parse_iteration_opcode pd s op _ ltac:(cbv; easy) Hf)
    end;
    opcode_branch.
  - apply andb_true_iff in Hok. destruct Hok as [Hk Hv].
    apply short_length_bounds in Hk, Hv.
    rewrite (bind_ok _ _ _ _ _
               (read_string_short (set_file s _) k _ ltac:(lia) eq_refl)).
    rewrite (bind_ok _ _ _ _ _
               (read_string_short (set_file s _) v rest ltac:(lia) eq_refl)).
    reflexivity.
  - rewrite (bind_ok _ _ _ _ _
               (read_length_rdb_length (set_file s _) n rest Hok eq_refl)).
    reflexivity.
  - apply andb_true_iff in Hok. destruct Hok as [Ha Hb].
    rewrite (bind_ok _ _ _ _ _
               (read_length_rdb_length (set_file s _) a _ Ha eq_refl)).
    rewrite (bind_ok _ _ _ _ _
               (read_length_rdb_length (set_file s _) b rest Hb eq_refl)).
    destruct s; reflexivity.
  - apply andb_true_iff in Hok. destruct Hok as [Hlo Hhi].
    apply Z.leb_le in Hlo. apply Z.ltb_lt in Hhi.
    unfold read_unsigned_long.
    assert (Hr : bind (read_bytes 8) (fun bs => lift (unpack_Q bs))
                   (set_file s (le_bytes 8 ms ++ rest))
                 = (Ok ms, set_file s rest)).
    { unfold bind. change 8 with (len (le_bytes 8 ms)) at 1.
      rewrite (read_bytes_exact (le_bytes 8 ms) rest) by reflexivity.
      unfold lift, unpack_Q.
      rewrite (unpack_le_le_bytes 8 8 ms eq_refl) by (split; assumption).
      reflexivity. }
    rewrite (bind_ok _ _ _ _ _ Hr). destruct s; reflexivity.
  - apply andb_true_iff in Hok. destruct Hok as [Hlo Hhi].
    apply Z.leb_le in Hlo. apply Z.ltb_lt in Hhi.
    unfold read_unsigned_int.
    assert (Hr : bind (read_bytes 4) (fun bs => lift (unpack_I bs))
                   (set_file s (le_bytes 4 secs ++ rest))
                 = (Ok secs, set_file s rest)).
    { unfold bind. change 4 with (len (le_bytes 4 secs)) at 1.
      rewrite (read_bytes_exact (le_bytes 4 secs) rest) by reflexivity.
      unfold lift, unpack_I.
      rewrite (unpack_le_le_bytes 4 4 secs eq_refl) by (split; assumption).
      reflexivity. }
    rewrite (bind_ok _ _ _ _ _ Hr). destruct s; reflexivity.
  - rewrite (bind_ok _ _ _ _ _
               (read_length_rdb_length (set_file s _) n rest Hok eq_refl)).
    destruct s; reflexivity.
  - apply andb_true_iff in Hok. destruct Hok as [Hlo Hhi].
    apply Z.leb_le in Hlo. apply Z.ltb_lt in Hhi.
    cbn [app] in Hf.
    rewrite (bind_ok _ _ _ _ _
               (read_byte_cons (set_file s (byte_of_Z n :: rest)) _ rest eq_refl)).
    rewrite u8_byte_of_Z by lia. destruct s; reflexivity.
  - apply andb_true_iff in Hok. destruct Hok as [Hok Hvalid].
    apply andb_true_iff in Hok. destruct Hok as [Hk Hv].
    apply short_length_bounds in Hk, Hv. apply negb_true_iff in Hvalid.
    assert (Hval : read_value TYPE_STRING (set_file s (rdb_string v ++ rest))
                   = (Ok (VStr (decode_payload v)), set_file s rest)).
    { unfold read_value. change (TYPE_STRING =? TYPE_STRING) with true. cbv iota.
      rewrite (bind_ok _ _ _ _ _
                 (read_string_short (set_file s _) v rest ltac:(lia) eq_refl)).
      reflexivity. }
    rewrite (value_record_stored TYPE_STRING pd (set_file s _) _ _ _ _
               (read_string_short (set_file s _) k _ ltac:(lia) eq_refl)
               Hvalid Hval).
    cbn [self_simple_format set_file].
    destruct (self_simple_format s); [destruct s; reflexivity|].
    destruct (build_entry (VStr (decode_payload v)) TYPE_STRING pd);
      destruct s; reflexivity.
Qed.

(** The turn that ends the loop: the opcode [0xFF], with or without the
    eight bytes of the checksum behind it, or the end of the file. *)
Lemma parse_iteration_file_end (pd : pending) (s : parser)
      (trailer : option (list byte)) :
  self_file s = file_end trailer ->
  exists f, parse_iteration pd s = (Break, set_file s f).
Proof.
  destruct trailer as [t|]; cbn [file_end]; intros Hf.
  - exists (skipn 8 t).
    rewrite (parse_iteration_opcode pd s OPCODE_EOF _ ltac:(cbv; easy) Hf).
    opcode_branch. unfold bind, try_catch, read_bytes, ret.
    change (8 >=? 2 ^ 63) with false. cbv iota.
    cbn [set_file self_file]. change (Z.to_nat 8) with 8%nat.
    destruct (_ =? 8); destruct s; reflexivity.
  - exists []. unfold parse_iteration, parse_record, bind, read_byte.
    rewrite Hf. destruct s; cbn in *; subst; reflexivity.
Qed.

(** The effects do not look at the file. *)
Lemma fold_items_set_file (items : list file_item) :
  forall (pd : pending) (s : parser) (f : list byte),
    snd (fold_left file_item_effect items (pd, set_file s f))
    = set_file (snd (fold_left file_item_effect items (pd, s))) f.
Proof.
  induction items as [|it items IH]; intros pd s f; cbn [fold_left].
  - reflexivity.
  - destruct it; cbn [file_item_effect];
      try apply IH;
      try (apply (IH pd (set_aux_data s _) f));
      try (apply (IH pd (set_current_db s _) f)).
    cbn [set_file self_simple_format self_data].
    destruct (self_simple_format s).
    + apply (IH no_pending (set_data s _) f).
    + destruct (build_entry _ _ pd).
      * apply (IH no_pending (set_data s _) f).
      * apply (IH pd (set_data s _) f).
Qed.

Lemma parse_loop_items (items : list file_item) (trailer : option (list byte)) :
  forall (fuel : nat) (pd : pending) (s : parser),
    forallb file_item_ok items = true ->
    self_file s = flat_map file_item_bytes items ++ file_end trailer ->
    (List.length items < fuel)%nat ->
    exists f,
      parse_loop fuel pd s
      = Some (set_file (snd (fold_left file_item_effect items (pd, s))) f).
Proof.
  induction items as [|it items IH]; intros fuel pd s Hok Hf Hfuel;
    (destruct fuel as [|fuel]; [cbn in Hfuel; lia|]); cbn [parse_loop].
  - cbn [flat_map app] in Hf.
    destruct (parse_iteration_file_end pd s trailer Hf) as (f & ->).
    exists f. reflexivity.
  - cbn [forallb] in Hok. apply andb_true_iff in Hok. destruct Hok as [Hit Hok].
    cbn [flat_map] in Hf. rewrite <- app_assoc in Hf.
    rewrite (parse_iteration_item pd s it _ Hit Hf).
    cbn [List.length] in Hfuel.
    destruct (IH fuel (fst (file_item_effect (pd, s) it))
                 (set_file (snd (file_item_effect (pd, s) it))
                           (flat_map file_item_bytes items ++ file_end trailer))
                 Hok eq_refl ltac:(lia)) as (f & ->).
    exists f. cbn [fold_left].
    destruct (file_item_effect (pd, s) it) as [pd' s'] eqn:E. cbn [fst snd].
    rewrite (fold_items_set_file items pd' s' _). reflexivity.
Qed.

Lemma length_flat_map_items (items : list file_item) :
  (List.length items <= List.length (flat_map file_item_bytes items))%nat.
Proof.
  induction items as [|it items IH]; cbn [flat_map List.length]; [lia|].
  rewrite length_app.
  assert (1 <= List.length (file_item_bytes it))%nat; [|lia].
  destruct it; cbn [file_item_bytes List.length]; lia.
Qed.

(** X25. [parse] inverts the layout of a file made of the header, a
    sequence of items (AUX fields, SELECTDB, RESIZEDB, the two expiries,
    IDLE, FREQ, and string records whose key the loop keeps), and the end:
    the opcode [0xFF] with anything behind it (a checksum, a truncated
    checksum, further bytes), or nothing at all.  The snapshot has the
    version of the header and the [aux], [db] and [keys] obtained by
    applying the meaning of the items in order, from empty dictionaries and
    the database 0: a later AUX field or record with the same key
    overwrites the earlier one, an expiry in seconds is multiplied by 1000,
    and in full format a string record takes the pending expiry, idle and
    freq as [build_entry] says (in simple format it drops them). *)
Theorem parse_inverts_a_file_of_items
        (version : list byte) (items : list file_item) (trailer : option (list byte))
        (simple_format : bool) :
  len version = 4 ->
  forallb (fun b => u8 b <? 128) version = true ->
  forallb file_item_ok items = true ->
  parse (redis_magic ++ version ++ flat_map file_item_bytes items ++ file_end trailer)
        simple_format
  = Some (Ok (let s' := snd (fold_left file_item_effect items
                                       (no_pending, new_parser [] simple_format)) in
              Snapshot (string_of_list_byte version) (self_aux_data s')
                       (self_current_db s') (self_data s'))).
Proof.
  intros Hlen Hascii Hok.
  set (body := flat_map file_item_bytes items ++ file_end trailer).
  unfold parse, read_header, bind.
  change 5 with (len redis_magic). rewrite <- Hlen.
  rewrite (read_bytes_exact redis_magic (version ++ body)) by reflexivity.
  change (bytes_eqb redis_magic redis_magic) with true. cbn [negb].
  rewrite (read_bytes_exact version body)
    by (reflexivity || (rewrite Hlen; reflexivity)).
  unfold decode_ascii, lift. rewrite Hascii.
  change (set_file (set_file (new_parser (redis_magic ++ version ++ body)
                                         simple_format)
                             (version ++ body)) body)
    with (set_file (new_parser [] simple_format) body).
  destruct (parse_loop_items items trailer
              (S (List.length (self_file (set_file (new_parser [] simple_format) body))))
              no_pending (set_file (new_parser [] simple_format) body)
              Hok eq_refl) as (f & ->).
  - cbn [set_file self_file]. unfold body. rewrite length_app.
    pose proof (length_flat_map_items items). lia.
  - cbv zeta. rewrite fold_items_set_file. reflexivity.
Qed.

(** ** The command line *)

Lemma scan_output_file_flags (args : list string) :
  forall output_file,
    forallb (fun a => startswith a "--") args = true ->
    fold_left
      (fun output_file arg =>
         if negb (startswith arg "--") then Some arg else output_file)
      args output_file
    = output_file.
Proof.
  induction args as [|a args IH]; intros output_file Hflags; cbn [fold_left];
    [reflexivity|].
  cbn [forallb] in Hflags. apply andb_true_iff in Hflags. destruct Hflags as [Ha Hargs].
  rewrite Ha. cbn [negb]. apply IH. exact Hargs.
Qed.

(** X26. The output file of [main] is the last argument after the input
    file that does not start with [--]: the options behind it, and whatever
    comes before it, do not change it.  When every argument after the input
    file starts with [--], [output_file] stays [None]. *)
Theorem output_file_is_the_last_plain_argument
        (prog input name : string) (before after : list string) :
  startswith name "--" = false ->
  forallb (fun a => startswith a "--") after = true ->
  option_map output_file (main_options (prog :: input :: before ++ name :: after))
  = Some (Some name)
  /\ option_map output_file (main_options (prog :: input :: after)) = Some None.
Proof.
  intros Hname Hafter. unfold main_options.
  split.
  - destruct (Z.ltb_spec (len (prog :: input :: before ++ name :: after)) 2) as [H|_].
    { rewrite !len_cons in H. pose proof (len_nonneg (before ++ name :: after)). lia. }
    cbn [nth_error skipn option_map output_file]. do 2 f_equal.
    unfold scan_output_file. rewrite fold_left_app. cbn [fold_left].
    rewrite Hname. cbn [negb]. apply scan_output_file_flags. exact Hafter.
  - destruct (Z.ltb_spec (len (prog :: input :: after)) 2) as [H|_].
    { rewrite !len_cons in H. pose proof (len_nonneg after). lia. }
    cbn [nth_error skipn option_map output_file]. do 2 f_equal.
    apply scan_output_file_flags. exact Hafter.
Qed.

End Properties.

(** * The parser on concrete files *)

#[local] Existing Instance example_builtins.

(** C3. The code at failing inputs.  With an expiry of 1 ms pending, a
    record whose key is empty is skipped, and a list record whose length
    cannot be read fails: in both cases the turn ends with the expiry still
    pending, and the next record, ["a"], is stored with the expiry that was
    set before the record that was skipped or failed. *)
Theorem pending_expiry_survives_skipped_and_failed_records :
  let pd := Pending (Some 1) None None in
  let leaked :=
    EFull (FullEntry (VStr "b") "string" (Some 1) (Some "<date of 1 ms>"%string)
                     None None) in
  fst (parse_iteration pd (new_parser record_empty_key false)) = Continue pd
  /\ fst (parse_iteration pd (new_parser record_bad_list false)) = Continue pd
  /\ parse (header_0011 ++ expiry_1ms ++ record_empty_key ++ record_a_b ++ eof_opcode)
           false
     = Some (Ok (Snapshot "0011" [] 0 [("a"%string, leaked)]))
  /\ parse (header_0011 ++ expiry_1ms ++ record_bad_list ++ record_a_b ++ eof_opcode)
           false
     = Some (Ok (Snapshot "0011" [] 0
                   [("k"%string, EError "Unexpected encoded value in length" "list");
                    ("a"%string, leaked)])).
Proof. repeat split; vm_compute; reflexivity. Qed.

(** C7, the claim as stated fails.  In full format, the list record with
    the empty key is read, its value decoder raises, and no error record is
    stored for the key.  In simple format, the key ["k"] of the failed list
    record is in the output, with the value an earlier record gave it. *)
Lemma failed_value_counterexample :
  (fst (read_string (new_parser (bytes_of [0; 0xC0]) false)) = Ok ""%string
   /\ fst (read_value 1 (new_parser (bytes_of [0xC0]) false))
      = Raise (Exn ValueError "Unexpected encoded value in length")
   /\ parse (header_0011 ++ record_bad_list_empty_key ++ eof_opcode) false
      = Some (Ok (Snapshot "0011" [] 0 [])))
  /\ (fst (read_string (new_parser (bytes_of [1; 0x6B; 0xC0]) true)) = Ok "k"%string
      /\ fst (read_value 1 (new_parser (bytes_of [0xC0]) true))
         = Raise (Exn ValueError "Unexpected encoded value in length")
      /\ parse (header_0011 ++ record_k_v ++ record_bad_list ++ eof_opcode) true
         = Some (Ok (Snapshot "0011" [] 0 [("k"%string, ESimple (VStr "v"))]))).
Proof. repeat split; vm_compute; reflexivity. Qed.

(** ** The theorems at concrete inputs *)

Lemma failed_value_recorded_in_full_format_witness :
  let pd := Pending (Some 1) None None in
  (let s := new_parser record_bad_list false in
   exists pd' s',
     parse_iteration pd s = (Continue pd', s')
     /\ dict_get (self_data s') "k"
        = Some (EError "Unexpected encoded value in length" "list")
     /\ (forall fuel, parse_loop (S fuel) pd s = parse_loop fuel pd' s'))
  /\ (let s := new_parser record_bad_list true in
      exists pd' s',
        parse_iteration pd s = (Continue pd', s')
        /\ self_data s' = self_data s
        /\ (forall fuel, parse_loop (S fuel) pd s = parse_loop fuel pd' s')).
Proof.
  intros pd. split; intros s.
  - apply (failed_value_recorded_in_full_format
             pd s (new_parser (bytes_of [0xC0]) false) (new_parser [] false)
             "001"%byte (bytes_of [1; 0x6B; 0xC0]) "k"
             (Exn ValueError "Unexpected encoded value in length"));
      vm_compute; reflexivity.
  - apply (failed_value_recorded_in_full_format
             pd s (new_parser (bytes_of [0xC0]) true) (new_parser [] true)
             "001"%byte (bytes_of [1; 0x6B; 0xC0]) "k"
             (Exn ValueError "Unexpected encoded value in length"));
      vm_compute; reflexivity.
Defined.

(** The record a=b with an expiry of 0 and a freq of 0 pending, and with
    only an idle of 0 pending. *)
Lemma zero_expiry_dropped_zero_idle_freq_kept_witness :
  let s := new_parser record_a_b false in
  let stored idle freq :=
    (Continue no_pending,
     Parser [] [("a"%string, EFull (FullEntry (VStr "b") "string" None None idle freq))]
            [] 0 false) in
  parse_iteration (Pending (Some 0) None (Some 0)) s = stored None (Some 0)
  /\ parse_iteration (Pending None (Some 0) None) s = stored (Some 0) None.
Proof.
  intros s stored. split.
  - refine (zero_expiry_dropped_zero_idle_freq_kept
              (Pending (Some 0) None (Some 0))
              s (new_parser (bytes_of [1; 0x62]) false) (new_parser [] false)
              "000"%byte (bytes_of [1; 0x61; 1; 0x62]) "a" (VStr "b") _ _ _ _ _ _);
      vm_compute; reflexivity.
  - refine (zero_expiry_dropped_zero_idle_freq_kept
              (Pending None (Some 0) None)
              s (new_parser (bytes_of [1; 0x62]) false) (new_parser [] false)
              "000"%byte (bytes_of [1; 0x61; 1; 0x62]) "a" (VStr "b") _ _ _ _ _ _);
      vm_compute; reflexivity.
Defined.

Lemma parse_total_after_header_witness :
  (exists snap,
      parse (redis_magic ++ ascii_bytes "0011" ++ bytes_of [0; 5; 0x61]) false
      = Some (Ok snap)
      /\ rdb_version snap = "0011"%string)
  /\ (exists e, parse (ascii_bytes "RODIS0011") false = Some (Raise e)).
Proof.
  split.
  - apply (proj1 (parse_total_after_header false)); vm_compute; reflexivity.
  - apply (proj2 (parse_total_after_header false)). vm_compute. discriminate.
Defined.

Lemma zset_score_of_string_is_zero_witness :
  (exists zset_data emitted,
      read_zset_ziplist
        (new_parser (bytes_of [19]
                     ++ ziplist [ZlStr6 (ascii_bytes "m"); ZlStr6 (ascii_bytes "1.5")])
                    false)
      = (Ok zset_data, new_parser [] false)
      /\ nth_error zset_data 0 = Some (ZsetItem "m" emitted)
      /\ emitted = SInt 0
      /\ score_as_float emitted = FloatOfInt 0)
  /\ (exists zset_data emitted,
         read_zset_listpack
           (new_parser (bytes_of [12]
                        ++ listpack [LpStr7 (ascii_bytes "m"); LpUint6 7])
                       false)
         = (Ok zset_data, new_parser [] false)
         /\ nth_error zset_data 0 = Some (ZsetItem "m" emitted)
         /\ emitted = SFloat (FloatOfInt 7)
         /\ score_as_float emitted = FloatOfInt 7).
Proof.
  split.
  - refine (zset_score_of_string_is_zero
             true
             (new_parser (bytes_of [19]
                          ++ ziplist [ZlStr6 (ascii_bytes "m");
                                      ZlStr6 (ascii_bytes "1.5")])
                         false)
             (new_parser [] false)
             (ziplist [ZlStr6 (ascii_bytes "m"); ZlStr6 (ascii_bytes "1.5")])
             [EStr "m"; EStr "1.5"] 0 (EStr "m") (EStr "1.5") _ _ _ _);
      vm_compute; reflexivity.
  - refine (zset_score_of_string_is_zero
             false
             (new_parser (bytes_of [12]
                          ++ listpack [LpStr7 (ascii_bytes "m"); LpUint6 7])
                         false)
             (new_parser [] false)
             (listpack [LpStr7 (ascii_bytes "m"); LpUint6 7])
             [EStr "m"; EInt 7] 0 (EStr "m") (EInt 7) _ _ _ _);
      vm_compute; reflexivity.
Defined.

(** ** The further theorems at concrete inputs *)

(** The length 300 on two bytes. *)
Lemma read_length_inverts_short_prefix_witness :
  read_length (new_parser (bytes_of [0x41; 0x2C; 7]) false)
  = (Ok 300, new_parser (bytes_of [7]) false).
Proof.
  refine (read_length_inverts_short_prefix
           (new_parser (bytes_of [0x41; 0x2C; 7]) false) 300 (bytes_of [7]) _ _);
    [lia | reflexivity].
Defined.

Lemma read_length_refuses_encoded_prefix_witness :
  read_length (new_parser (bytes_of [0xC0; 1]) false)
  = (Raise (Exn ValueError "Unexpected encoded value in length"),
     new_parser (bytes_of [1]) false).
Proof.
  refine (read_length_refuses_encoded_prefix
           (new_parser (bytes_of [0xC0; 1]) false) (byte_of_Z 0xC0) (bytes_of [1]) _ _);
    [reflexivity | vm_compute; discriminate].
Defined.

(** The string [hi] behind the length 2. *)
Lemma length_prefixed_string_is_read_whole_witness :
  let s := new_parser (bytes_of [2; 0x68; 0x69; 9]) false in
  read_string s = (Ok "hi"%string, new_parser (bytes_of [9]) false)
  /\ read_string_raw s = (Ok (Some (ascii_bytes "hi")), new_parser (bytes_of [9]) false).
Proof.
  intros s.
  refine (length_prefixed_string_is_read_whole
           s (new_parser (bytes_of [0x68; 0x69; 9]) false) 2
           (ascii_bytes "hi") (bytes_of [9]) _ _ _ _);
    [reflexivity | lia | reflexivity | reflexivity].
Defined.

(** The length 2^28 on four bytes. *)
Lemma oversized_string_is_not_read_witness :
  let s := new_parser (bytes_of [0x80; 0; 0; 0; 0x10; 1]) false in
  read_string s = (Ok "<invalid_length:268435456>"%string, new_parser (bytes_of [1]) false)
  /\ invalid_key "<invalid_length:268435456>" = true.
Proof.
  intros s.
  refine (oversized_string_is_not_read s (new_parser (bytes_of [1]) false) 268435456 _ _);
    [vm_compute; reflexivity | lia].
Defined.

(** The 16-bit integer -1. *)
Lemma integer_encoded_string_witness :
  let s := new_parser (bytes_of [0xC1; 0xFF; 0xFF; 5]) false in
  read_string s = (Ok "-1"%string, new_parser (bytes_of [5]) false)
  /\ read_string_raw s
     = (Ok (Some (bytes_of [0xFF; 0xFF])), new_parser (bytes_of [5]) false).
Proof.
  intros s.
  refine (integer_encoded_string s 1 (bytes_of [0xFF; 0xFF]) (bytes_of [5]) _ _ _);
    [lia | reflexivity | reflexivity].
Defined.

Lemma unknown_string_encoding_gives_placeholder_witness :
  let s := new_parser (bytes_of [0xC4; 1]) false in
  read_string s = (Ok "<parse_error_enc:4>"%string, new_parser (bytes_of [1]) false)
  /\ read_string_raw s = (Ok (Some []), new_parser (bytes_of [1]) false)
  /\ invalid_key "<parse_error_enc:4>" = true.
Proof.
  intros s.
  refine (unknown_string_encoding_gives_placeholder s (byte_of_Z 0xC4) (bytes_of [1]) _ _);
    [reflexivity | vm_compute; discriminate].
Defined.

(** Two compressed bytes, without the [lzf] package; the compressed length
    is written in the two-byte form, the uncompressed one in one byte. *)
Lemma compressed_string_never_raises_witness :
  let s := new_parser (bytes_of [0xC3; 0x40; 2; 5; 1; 2; 9]) false in
  let placeholder := "<LZF compressed data - install python-lzf to decompress>"%string in
  read_string s = (Ok placeholder, new_parser (bytes_of [9]) false)
  /\ read_string_raw s
     = (Ok (Some (ascii_bytes placeholder)), new_parser (bytes_of [9]) false).
Proof.
  intros s placeholder.
  refine (compressed_string_never_raises
            s (new_parser (bytes_of [5; 1; 2; 9]) false)
            (new_parser (bytes_of [1; 2; 9]) false) 2 5
            (bytes_of [0x40; 2; 5; 1; 2; 9])
            (bytes_of [1; 2]) (bytes_of [9]) _ _ _ _ _ _);
    reflexivity.
Defined.

(** Two entries under a count of 7 and a header of zeros. *)
Lemma parse_ziplist_follows_entries_witness :
  parse_ziplist (bytes_of [0; 0; 0; 0] ++ bytes_of [0; 0; 0; 0] ++ le_bytes 2 7
                 ++ zl_entries 0 [ZlStr6 (ascii_bytes "a"); ZlInt16 300]
                 ++ [byte_of_Z 0xFF])
  = Ok [EStr "a"; EInt 300].
Proof.
  refine (parse_ziplist_follows_entries
           (bytes_of [0; 0; 0; 0]) (bytes_of [0; 0; 0; 0]) 7
           [ZlStr6 (ascii_bytes "a"); ZlInt16 300] _ _ _ _ _);
    [reflexivity | reflexivity | lia | reflexivity | reflexivity].
Defined.

(** Two entries under a count of 1. *)
Lemma parse_listpack_follows_entries_witness :
  parse_listpack (bytes_of [0; 0; 0; 0] ++ le_bytes 2 1
                  ++ flat_map lp_entry [LpStr7 (ascii_bytes "m"); LpUint6 7]
                  ++ [byte_of_Z 0xFF])
  = Ok [EStr "m"].
Proof.
  refine (parse_listpack_follows_entries
           (bytes_of [0; 0; 0; 0]) 1 [LpStr7 (ascii_bytes "m"); LpUint6 7] _ _ _ _ _);
    [reflexivity | reflexivity | lia | reflexivity | reflexivity].
Defined.

(** Three values under a count of 5. *)
Lemma intset_of_ints_follows_count_and_cap_witness :
  parse_intset (le_bytes 4 4 ++ le_bytes 4 5 ++ flat_map (pack_le 4) [1; -2; 3])
  = ["1"; "-2"; "3"]%string.
Proof.
  refine (intset_of_ints_follows_count_and_cap 5 [1; -2; 3] _ _);
    [lia | reflexivity].
Defined.

(** The module type 7, on a string that is there and on an empty file. *)
Lemma unknown_value_type_never_raises_witness :
  (read_value 7 (new_parser (bytes_of [1; 0x61; 9]) false)
   = (Ok (VStr "a"), new_parser (bytes_of [9]) false)
   /\ get_type_name 7 = "unknown_type_7"%string)
  /\ (read_value 7 (new_parser [] false)
      = (Ok (VStr "<unknown type 7>"), new_parser [] false)
      /\ get_type_name 7 = "unknown_type_7"%string).
Proof.
  split.
  - refine (unknown_value_type_never_raises
              7 (new_parser (bytes_of [1; 0x61; 9]) false) _).
    lia.
  - refine (unknown_value_type_never_raises 7 (new_parser [] false) _).
    lia.
Defined.

Lemma list_of_strings_is_read_in_order_witness :
  let payloads := [ascii_bytes "a"; ascii_bytes "bc"] in
  let s := new_parser (rdb_length 2 ++ flat_map rdb_string payloads ++ bytes_of [9])
                      false in
  read_value TYPE_LIST s
  = (Ok (VList [EStr "a"; EStr "bc"]), new_parser (bytes_of [9]) false)
  /\ read_value TYPE_SET s
     = (Ok (VList [EStr "a"; EStr "bc"]), new_parser (bytes_of [9]) false).
Proof.
  intros payloads s.
  refine (list_of_strings_is_read_in_order s payloads (bytes_of [9]) _ _ _);
    [vm_compute; reflexivity | reflexivity | reflexivity].
Defined.

(** The field [f] twice. *)
Lemma hash_of_strings_keeps_the_later_value_witness :
  let fields := [(ascii_bytes "f", ascii_bytes "1"); (ascii_bytes "g", ascii_bytes "2");
                 (ascii_bytes "f", ascii_bytes "3")] in
  read_value TYPE_HASH
    (new_parser (rdb_length 3
                 ++ flat_map (fun kv => rdb_string (fst kv) ++ rdb_string (snd kv)) fields
                 ++ bytes_of [9])
                false)
  = (Ok (VHash [("f", "3"); ("g", "2")]%string), new_parser (bytes_of [9]) false).
Proof.
  intros fields.
  refine (hash_of_strings_keeps_the_later_value
            (new_parser (rdb_length 3
                         ++ flat_map (fun kv => rdb_string (fst kv) ++ rdb_string (snd kv))
                              fields
                         ++ bytes_of [9])
                        false)
            fields (bytes_of [9]) _ _ _);
    [vm_compute; reflexivity | reflexivity | reflexivity].
Defined.

(** A stream of three elements behind a one-byte length, and one behind a
    five-byte length: the bytes behind the count stay unread. *)
Lemma stream_is_not_read_witness :
  (read_value TYPE_STREAM_LISTPACKS (new_parser (bytes_of [3; 1; 2]) false)
   = (Ok (VStr "<stream with 3 elements>"), new_parser (bytes_of [1; 2]) false)
   /\ get_type_name TYPE_STREAM_LISTPACKS = "stream"%string)
  /\ (read_value TYPE_STREAM_LISTPACKS_3
                 (new_parser (bytes_of [0x80; 3; 0; 0; 0; 1; 2]) false)
      = (Ok (VStr "<stream with 3 elements>"), new_parser (bytes_of [1; 2]) false)
      /\ get_type_name TYPE_STREAM_LISTPACKS_3 = "stream"%string).
Proof.
  split.
  - refine (stream_is_not_read TYPE_STREAM_LISTPACKS
              (new_parser (bytes_of [3; 1; 2]) false) _).
    left; reflexivity.
  - refine (stream_is_not_read TYPE_STREAM_LISTPACKS_3
              (new_parser (bytes_of [0x80; 3; 0; 0; 0; 1; 2]) false) _).
    right; right; reflexivity.
Defined.

Lemma quicklist_is_the_concatenation_of_its_ziplists_witness :
  let segments := [[ZlStr6 (ascii_bytes "a")]; [ZlInt8 5; ZlImm 2]] in
  let s := new_parser (rdb_length 2
                       ++ flat_map (fun items => rdb_string (ziplist items)) segments
                       ++ bytes_of [9])
                      false in
  let result := (Ok (VList [EStr "a"; EInt 5; EInt 2]), new_parser (bytes_of [9]) false) in
  read_value TYPE_LIST_QUICKLIST s = result
  /\ read_value TYPE_LIST_QUICKLIST_2 s = result.
Proof.
  intros segments s result.
  refine (quicklist_is_the_concatenation_of_its_ziplists s segments (bytes_of [9]) _ _ _);
    [vm_compute; reflexivity | reflexivity | reflexivity].
Defined.

Lemma ziplist_values_are_read_by_type_witness :
  let items := [ZlStr6 (ascii_bytes "f"); ZlInt16 300] in
  let s := new_parser (rdb_string (ziplist items) ++ bytes_of [9]) false in
  read_value TYPE_LIST_ZIPLIST s
  = (Ok (VList [EStr "f"; EInt 300]), new_parser (bytes_of [9]) false)
  /\ read_value TYPE_HASH_ZIPLIST s
     = (Ok (VHash [("f", "300")]%string), new_parser (bytes_of [9]) false)
  /\ read_value TYPE_ZSET_ZIPLIST s
     = (Ok (VZset [ZsetItem "f" (SFloat (FloatOfInt 300))]),
        new_parser (bytes_of [9]) false).
Proof.
  intros items s.
  refine (ziplist_values_are_read_by_type s items (bytes_of [9]) _ _ _ _);
    [reflexivity | reflexivity | vm_compute; reflexivity | reflexivity].
Defined.

Lemma listpack_values_are_read_by_type_witness :
  let items := [LpStr7 (ascii_bytes "m"); LpUint6 7] in
  let s := new_parser (rdb_string (listpack items) ++ bytes_of [9]) false in
  read_value TYPE_SET_LISTPACK s
  = (Ok (VList [EStr "m"; EStr "7"]), new_parser (bytes_of [9]) false)
  /\ read_value TYPE_HASH_LISTPACK s
     = (Ok (VHash [("m", "7")]%string), new_parser (bytes_of [9]) false)
  /\ read_value TYPE_ZSET_LISTPACK s
     = (Ok (VZset [ZsetItem "m" (SFloat (FloatOfInt 7))]),
        new_parser (bytes_of [9]) false).
Proof.
  intros items s.
  refine (listpack_values_are_read_by_type s items (bytes_of [9]) _ _ _ _ _);
    [reflexivity | reflexivity | reflexivity | vm_compute; reflexivity | reflexivity].
Defined.

(** The record [a] = [b] in simple format, with an expiry, an idle time
    and a frequency pending. *)
Lemma simple_format_discards_metadata_witness :
  parse_iteration (Pending (Some 5) (Some 1) (Some 2)) (new_parser record_a_b true)
  = (Continue no_pending,
     Parser [] [("a"%string, ESimple (VStr "b"))] [] 0 true).
Proof.
  refine (simple_format_discards_metadata
           (Pending (Some 5) (Some 1) (Some 2)) (new_parser record_a_b true)
           (new_parser (bytes_of [1; 0x62]) true) (new_parser [] true)
           "000"%byte (bytes_of [1; 0x61; 1; 0x62]) "a" (VStr "b") _ _ _ _ _ _);
    vm_compute; reflexivity.
Defined.

(** The same record in full format, with an expiry of 1500 ms pending. *)
Lemma expiry_is_stored_with_its_date_witness :
  parse_iteration (Pending (Some 1500) (Some 3) None) (new_parser record_a_b false)
  = (Continue no_pending,
     Parser [] [("a"%string,
                 EFull (FullEntry (VStr "b") "string" (Some 1500)
                                  (Some "<date of 1500 ms>"%string) (Some 3) None))]
            [] 0 false).
Proof.
  refine (expiry_is_stored_with_its_date
           (Pending (Some 1500) (Some 3) None) 1500 (new_parser record_a_b false)
           (new_parser (bytes_of [1; 0x62]) false) (new_parser [] false)
           "000"%byte (bytes_of [1; 0x61; 1; 0x62]) "a" (VStr "b") _ _ _ _ _ _ _ _);
    try (vm_compute; reflexivity); lia.
Defined.

(** The record with the empty key. *)
Lemma skipped_key_leaves_output_untouched_witness :
  let pd := Pending (Some 1) None None in
  let s := new_parser record_empty_key false in
  let s1 := new_parser (bytes_of [1; 0x76]) false in
  parse_iteration pd s = (Continue pd, snd (read_value 0 s1))
  /\ self_data (snd (read_value 0 s1)) = self_data s.
Proof.
  intros pd s s1.
  refine (skipped_key_leaves_output_untouched
           pd s s1 "000"%byte (bytes_of [0; 1; 0x76]) ""%string _ _ _ _);
    vm_compute; reflexivity.
Defined.

Lemma parse_output_has_valid_keys_and_entries_of_the_format_witness :
  Forall (fun kv => invalid_key (fst kv) = false
                    /\ entry_of_format false (snd kv) = true)
         [("a"%string, EFull (FullEntry (VStr "b") "string" None None None None))].
Proof.
  refine (parse_output_has_valid_keys_and_entries_of_the_format
           (header_0011 ++ record_a_b ++ eof_opcode) false
           (Snapshot "0011" [] 0
              [("a"%string,
                EFull (FullEntry (VStr "b") "string" None None None None))]) _).
  vm_compute. reflexivity.
Defined.

(** A file with an AUX field, a database number, an expiry in seconds, two
    records with the same key, and three bytes behind the opcode [0xFF]. *)
Lemma parse_inverts_a_file_of_items_witness :
  parse (redis_magic ++ ascii_bytes "0011"
         ++ flat_map file_item_bytes
              [IAux (ascii_bytes "redis-ver") (ascii_bytes "7.0"); ISelectDb 3;
               IResizeDb 2 1; IString (ascii_bytes "a") (ascii_bytes "b");
               IExpire 2; IFreq 9; IString (ascii_bytes "a") (ascii_bytes "c")]
         ++ file_end (Some (bytes_of [1; 2; 3])))
        false
  = Some (Ok (Snapshot "0011" [("redis-ver", "7.0")]%string 3
                [("a"%string,
                  EFull (FullEntry (VStr "c") "string" (Some 2000)
                                   (Some "<date of 2000 ms>"%string) None (Some 9)))])).
Proof.
  refine (parse_inverts_a_file_of_items
           (ascii_bytes "0011")
           [IAux (ascii_bytes "redis-ver") (ascii_bytes "7.0"); ISelectDb 3;
            IResizeDb 2 1; IString (ascii_bytes "a") (ascii_bytes "b");
            IExpire 2; IFreq 9; IString (ascii_bytes "a") (ascii_bytes "c")]
           (Some (bytes_of [1; 2; 3])) false _ _ _);
    reflexivity.
Defined.

Lemma output_file_is_the_last_plain_argument_witness :
  option_map output_file
    (main_options ["rdb_parser.py"; "dump.rdb"; "old.json"; "--pretty"; "out.json";
                   "--simple"]%string)
  = Some (Some "out.json"%string)
  /\ option_map output_file (main_options ["rdb_parser.py"; "dump.rdb"; "--simple"]%string)
     = Some None.
Proof.
  refine (output_file_is_the_last_plain_argument
           "rdb_parser.py" "dump.rdb" "out.json" ["old.json"; "--pretty"]%string
           ["--simple"]%string _ _);
    reflexivity.
Defined.

(** A ziplist cut short: after the entry ["a"], an entry that announces a
    string of 5 bytes where 2 are left.  The loop stops there and keeps
    what it has. *)
Lemma packed_decoders_truncate_and_keep_the_decoded_witness :
  let data := bytes_of [19; 0; 0; 0; 13; 0; 0; 0; 9; 0;
                        0; 1; 0x61; 0; 5; 0x62; 0x63] in
  parse_ziplist_loop 9 data 10 [EInt 7] = Ok [EInt 7; EStr "a"]
  /\ parse_ziplist data = Ok [EStr "a"]
  /\ (exists value bytes_read,
         parse_ziplist_entry data = Ok (value, bytes_read)
         /\ 0 <= bytes_read <= len data)
  /\ (exists value bytes_read,
         parse_listpack_entry data = Ok (value, bytes_read)
         /\ 0 <= bytes_read <= len data)
  /\ (exists more,
         parse_ziplist_loop 9 data 10 [EInt 7] = Ok ([EInt 7] ++ more)
         /\ len more <= Z.max 0 (len data - 10))
  /\ (exists more,
         parse_listpack_loop 9 data 10 [EInt 7] = Ok ([EInt 7] ++ more)
         /\ len more <= Z.max 0 (len data - 10))
  /\ (exists l, parse_ziplist data = Ok l /\ len l <= len data)
  /\ (exists l, parse_listpack data = Ok l /\ len l <= len data).
Proof.
  intros data.
  split; [vm_compute; reflexivity|].
  split; [vm_compute; reflexivity|].
  refine (packed_decoders_truncate_and_keep_the_decoded data 9 10 [EInt 7] _).
  lia.
Defined.
